(** * e621 tags by year: the counting engine and the result store

    A shallow embedding of [e621_tag_counter.py].  The browser page is a
    search client answering each visited URL; the CSV file is the grid of
    fields it holds.

    Two arguments bound what Python leaves open.  [fuel] bounds the
    iterations of the one [while] loop, and running out of it is an outcome of
    its own, [OutOfFuel], distinct from every Python outcome: the loop has
    not ended yet.  [depth] is the number of frames the interpreter still
    allows below the frame of the function that takes it: every call from one
    of the program's functions to another that can call further takes a
    frame, and a call for which none is left raises [RecursionError], as
    Python does at [sys.getrecursionlimit()].  The calls that lead no further
    (the methods of the page, the [csv] module, [initialize_page],
    [get_post_count_on_current_page], [update_csv_file],
    [remove_known_tags]) need a bounded number of frames, which [depth]
    leaves aside. *)

From Stdlib Require Import ZArith List Bool Lia Ascii String.
From Stdlib Require Import Numbers.DecimalString Numbers.DecimalPos.
Import ListNotations.

Open Scope string_scope.
Open Scope Z_scope.

(** ** Python values the program handles *)

(** The exceptions the modelled code can raise. *)
Inductive exn : Type :=
| TimeoutError
| KeyError
| AttributeError
| TypeError
| ValueError
| IndexError
| PageRangeError
| RecursionError.

(** The outcome of a call: a value, a raised exception, or fuel exhausted. *)
Inductive result (A : Type) : Type :=
| Ret (a : A)
| Raise (e : exn)
| OutOfFuel.

Arguments Ret {A} a.
Arguments Raise {A} e.
Arguments OutOfFuel {A}.

(** A call that takes a frame: [f] runs with the frames that are left. *)
Definition call {A S : Type} (depth : nat) (f : nat -> S -> result A * S) (s : S)
    : result A * S :=
  match depth with
  | O => (Raise RecursionError, s)
  | S depth' => f depth' s
  end.

(** [str(n)] for a Python int. *)
Definition str (z : Z) : string := NilZero.string_of_int (Z.to_int z).

(** [s.lower()], on the ASCII letters (e621 tag names are ASCII); every other
    byte is kept. *)
Definition lower_ascii (c : ascii) : ascii :=
  let n := nat_of_ascii c in
  if (Nat.leb 65 n && Nat.leb n 90)%bool then ascii_of_nat (n + 32) else c.

Fixpoint lower (s : string) : string :=
  match s with
  | EmptyString => EmptyString
  | String c s' => String (lower_ascii c) (lower s')
  end.

(** [sep.join(l)]. *)
Fixpoint join (sep : string) (l : list string) : string :=
  match l with
  | [] => ""
  | [x] => x
  | x :: rest => x ++ sep ++ join sep rest
  end.

(** [urllib.parse.quote_plus]: letters, digits and [_.-~] are kept, a space
    becomes [+], every other byte becomes [%XX] in upper-case hex. *)
Definition hex_digit (n : nat) : ascii :=
  if Nat.ltb n 10 then ascii_of_nat (48 + n) else ascii_of_nat (55 + n).

Definition always_safe (c : ascii) : bool :=
  let n := nat_of_ascii c in
  ((Nat.leb 65 n && Nat.leb n 90) || (Nat.leb 97 n && Nat.leb n 122)
   || (Nat.leb 48 n && Nat.leb n 57)
   || Nat.eqb n 95 || Nat.eqb n 46 || Nat.eqb n 45 || Nat.eqb n 126)%bool.

Fixpoint url_encode_plus (s : string) : string :=
  match s with
  | EmptyString => EmptyString
  | String c s' =>
      if always_safe c then String c (url_encode_plus s')
      else if Ascii.eqb c " " then String "+" (url_encode_plus s')
      else let n := nat_of_ascii c in
           String "%" (String (hex_digit (Nat.div n 16))
                         (String (hex_digit (Nat.modulo n 16)) (url_encode_plus s')))
  end.

(** ** Constants *)

Definition CURRENT_YEAR : Z := 2025.
Definition INITIAL_BOUND_SCORE : Z := 512.
Definition INITIAL_INTERVAL_SCORE : Z := 512.
Definition OUTPUT_FILE : string := "e621_tag_count.csv".

(** ** The search client *)

(** What a loaded result page shows: the post links on it and the number in
    the hidden-posts notice, when the notice is visible. *)
Record listing : Type := mkListing {
  post_links : Z;
  hidden_notice : option Z
}.

(** The client's answer to one visit: a timeout (raised by [page.goto] or by
    any later wait on that page), or the pagination's [data-total] (the number
    of result pages, taken to be a numeral) with the listing of the last
    result page, which is the page itself when there is only one. *)
Inductive response : Type :=
| TimedOut
| Loaded (data_total : Z) (last : listing).

(** A client answers a URL knowing the URLs visited before (newest first). *)
Definition client : Type := list string -> string -> response.

(** The browser session: the URLs visited, newest first, and, as a ghost
    field, the tag expressions [get_batched_post_count] was entered with. *)
Record browser : Type := mkBrowser {
  visited : list string;
  partitioned : list string
}.

Definition goto (url : string) (b : browser) : browser :=
  mkBrowser (url :: visited b) (partitioned b).

Definition enter_batched (tags : string) (b : browser) : browser :=
  mkBrowser (visited b) (tags :: partitioned b).

Definition posts_url (tags : string) : string :=
  "https://e621.net/posts?tags=" ++ tags.

Definition get_post_count_on_current_page (l : listing) : Z :=
  post_links l + match hidden_notice l with Some h => h | None => 0 end.

(** ** The range partitioner *)

(** The score filters appended to a tag expression. *)
Definition score_range (tags : string) (lo hi : Z) : string :=
  tags ++ " score:" ++ str lo ++ ".." ++ str hi.

Definition score_above (tags : string) : string :=
  tags ++ " score:>" ++ str INITIAL_BOUND_SCORE.

Definition score_nonpos (tags : string) : string :=
  tags ++ " score:<=0".

Section Batched.

(** [get_post_count], as [get_batched_post_count] calls it. *)
Variable get_post_count_rec :
  string -> bool -> browser -> result (option Z) * browser.

(** The [while bound > 0] loop; one unit of fuel per iteration. *)
Fixpoint batch_loop (fuel : nat) (tags : string) (bound interval count : Z)
    (b : browser) : result Z * browser :=
  match fuel with
  | O => (OutOfFuel, b)
  | S fuel' =>
      if 0 <? bound then
        let batched_tags :=
          score_range tags (Z.max 1 (bound - interval + 1)) bound in
        match get_post_count_rec batched_tags true b with
        | (Ret None, b') =>
            batch_loop fuel' tags bound (interval / 2) count b'
        | (Ret (Some batch_count), b') =>
            batch_loop fuel' tags (bound - interval) interval
              (count + batch_count) b'
        | (Raise e, b') => (Raise e, b')
        | (OutOfFuel, b') => (OutOfFuel, b')
        end
      else (Ret count, b)
  end.

(** [count += get_post_count(page, batched_tags, is_batched=False)]. *)
Definition add_boundary (batched_tags : string) (count : Z) (b : browser)
    : result Z * browser :=
  match get_post_count_rec batched_tags false b with
  | (Ret (Some n), b') => (Ret (count + n), b')
  | (Ret None, b') => (Raise TypeError, b')
  | (Raise e, b') => (Raise e, b')
  | (OutOfFuel, b') => (OutOfFuel, b')
  end.

(** The body of [get_batched_post_count]: the loop, then the two boundary
    queries. *)
Definition batched_body (fuel : nat) (tags : string) (b : browser)
    : result Z * browser :=
  match batch_loop fuel tags INITIAL_BOUND_SCORE INITIAL_INTERVAL_SCORE 0
          (enter_batched tags b) with
  | (Ret count, b1) =>
      match add_boundary (score_above tags) count b1 with
      | (Ret count', b2) => add_boundary (score_nonpos tags) count' b2
      | other => other
      end
  | other => other
  end.

End Batched.

(** [return get_batched_post_count(page, tags)] inside [get_post_count]. *)
Definition returned (r : result Z * browser) : result (option Z) * browser :=
  match r with
  | (Ret n, b) => (Ret (Some n), b)
  | (Raise e, b) => (Raise e, b)
  | (OutOfFuel, b) => (OutOfFuel, b)
  end.

(** [get_post_count], and in it [get_batched_post_count] with the frame it
    takes: entered with no frame left, the pass fails at its first call of
    [get_post_count]. *)
Fixpoint get_post_count (depth fuel : nat) (page : client) (tags : string)
    (is_batched : bool) (b : browser) {struct depth}
    : result (option Z) * browser :=
  let url := posts_url tags in
  let b1 := goto url b in
  match page (visited b) url with
  | TimedOut => (Raise TimeoutError, b1)
  | Loaded data_total last =>
      if data_total =? 0 then (Ret (Some 0), b1)
      else if 1 <? data_total then
        if 750 <=? data_total then
          if is_batched then (Ret None, b1)
          else
            match depth with
            | O => (Raise RecursionError, b1)
            | S depth1 =>
                match depth1 with
                | O => (Raise RecursionError, enter_batched tags b1)
                | S depth2 =>
                    returned
                      (batched_body (get_post_count depth2 fuel page) fuel tags b1)
                end
            end
        else
          (* the last page, after the click on [.page.last] *)
          (Ret (Some (75 * (data_total - 1)
                      + get_post_count_on_current_page last)), b1)
      else
        (Ret (Some (75 * (data_total - 1)
                    + get_post_count_on_current_page last)), b1)
  end.

Definition get_batched_post_count (depth fuel : nat) (page : client)
    (tags : string) (b : browser) : result Z * browser :=
  match depth with
  | O => (Raise RecursionError, enter_batched tags b)
  | S depth' => batched_body (get_post_count depth' fuel page) fuel tags b
  end.

(** ** The year counter *)

Definition year_tags (year : Z) (tags : string) : string :=
  url_encode_plus (tags ++ " status:any date:" ++ str year ++ "_yesteryears_ago").

(** The [except TimeoutError] branch calls the function again, one frame
    further down; with no frame left the first call, that of
    [get_post_count], already fails. *)
Fixpoint get_post_count_for_year (depth fuel : nat) (page : client) (year : Z)
    (tags : string) (b : browser) {struct depth}
    : result (option Z) * browser :=
  match depth with
  | O => (Raise RecursionError, b)
  | S depth' =>
      match get_post_count depth' fuel page (year_tags year tags) false b with
      | (Raise TimeoutError, b') =>
          get_post_count_for_year depth' fuel page year tags b'
      | other => other
      end
  end.

(** ** Python dicts and the CSV file *)

(** The values a row dict holds: file fields are [str], counts are [int],
    and [csv.DictReader] fills the columns a short line lacks with [None]. *)
Inductive pyval : Type :=
| PStr (s : string)
| PInt (z : Z)
| PNone.

(** A row dict: the string-keyed items in insertion order, and the entry
    [csv.DictReader] stores under the key [None] for a line longer than the
    header. *)
Record dict : Type := mkDict {
  items : list (string * pyval);
  rest : option (list string)
}.

Definition keys (d : dict) : list string := map fst (items d).

Fixpoint assoc_get (k : string) (l : list (string * pyval)) : option pyval :=
  match l with
  | [] => None
  | (k', v) :: l' => if String.eqb k k' then Some v else assoc_get k l'
  end.

(** [d[k] = v]: an existing key keeps its place, a new key goes last. *)
Fixpoint assoc_set (k : string) (v : pyval) (l : list (string * pyval))
    : list (string * pyval) :=
  match l with
  | [] => [(k, v)]
  | (k', v') :: l' =>
      if String.eqb k k' then (k', v) :: l' else (k', v') :: assoc_set k v l'
  end.

Definition dict_get (k : string) (d : dict) : option pyval := assoc_get k (items d).

Definition dict_set (k : string) (v : pyval) (d : dict) : dict :=
  mkDict (assoc_set k v (items d)) (rest d).

(** [d[k]]. *)
Definition subscript (d : dict) (k : string) : result pyval :=
  match dict_get k d with
  | Some v => Ret v
  | None => Raise KeyError
  end.

(** [v.lower()]. *)
Definition py_lower (v : pyval) : result string :=
  match v with
  | PStr s => Ret (lower s)
  | _ => Raise AttributeError
  end.

Definition bind {A B : Type} (r : result A) (k : A -> result B) : result B :=
  match r with
  | Ret a => k a
  | Raise e => Raise e
  | OutOfFuel => OutOfFuel
  end.

Notation "x <- r ;; k" := (bind r (fun x => k))
  (at level 100, r at next level, right associativity).

(** The file as [csv.writer] leaves it, and as [csv.reader] yields it from a
    file opened with [newline=""]: one list of fields per line (a blank line
    is the empty list).  Quoting is below this model. *)
Definition grid : Type := list (list string).

(** What [open(OUTPUT_FILE, mode="r")] does to the text before [csv] sees
    it: with [newline] at its default, a carriage return, alone or before a
    line feed, is read as a line feed.  Between lines this changes nothing
    for [csv.reader]; inside a quoted field it changes the field. *)
Fixpoint universal_newlines (s : string) : string :=
  match s with
  | EmptyString => EmptyString
  | String c s' =>
      if Ascii.eqb c "013" then
        String "010"
          match s' with
          | String c' s'' =>
              if Ascii.eqb c' "010" then universal_newlines s''
              else universal_newlines s'
          | EmptyString => EmptyString
          end
      else String c (universal_newlines s')
  end.

Definition open_read (g : grid) : grid := map (map universal_newlines) g.

(** [dict(zip(fieldnames, row))]. *)
Fixpoint zip_items (fieldnames row : list string) (acc : list (string * pyval))
    : list (string * pyval) :=
  match fieldnames, row with
  | k :: fieldnames', v :: row' => zip_items fieldnames' row' (assoc_set k (PStr v) acc)
  | _, _ => acc
  end.

(** One step of [csv.DictReader.__next__], with [restkey] and [restval]
    at their default [None]. *)
Definition read_row (fieldnames row : list string) : dict :=
  let d := zip_items fieldnames row [] in
  let lf := List.length fieldnames in
  let lr := List.length row in
  if Nat.ltb lf lr then mkDict d (Some (skipn lf row))
  else if Nat.ltb lr lf then
    mkDict (fold_left (fun acc k => assoc_set k PNone acc) (skipn lr fieldnames) d) None
  else mkDict d None.

Definition is_blank (row : list string) : bool :=
  match row with [] => true | _ => false end.

(** [csv.DictReader(f)]: the first line is the header, blank lines are
    skipped. *)
Definition DictReader (g : grid) : list dict :=
  match g with
  | [] => []
  | fieldnames :: lines =>
      map (read_row fieldnames) (filter (fun r => negb (is_blank r)) lines)
  end.

(** What [csv.writer] writes for a value. *)
Definition field_text (v : pyval) : string :=
  match v with
  | PStr s => s
  | PInt z => str z
  | PNone => ""
  end.

Definition mem (k : string) (l : list string) : bool := existsb (String.eqb k) l.

(** [csv.DictWriter._dict_to_list] with [extrasaction] at its default
    ["raise"] and [restval] at its default [""]. *)
Definition dict_to_list (fieldnames : list string) (rowdict : dict)
    : result (list string) :=
  let wrong_fields :=
    negb (forallb (fun k => mem k fieldnames) (keys rowdict))
    || match rest rowdict with Some _ => true | None => false end in
  if wrong_fields then Raise ValueError
  else Ret (map (fun k => match dict_get k rowdict with
                          | Some v => field_text v
                          | None => ""
                          end) fieldnames).

(** [writer.writerows(data)] onto the lines already written: the rows before
    a failing one reach the file. *)
Fixpoint writerows (fieldnames : list string) (data : list dict) (out : grid)
    : result unit * grid :=
  match data with
  | [] => (Ret tt, out)
  | d :: data' =>
      match dict_to_list fieldnames d with
      | Ret line => writerows fieldnames data' (out ++ [line])%list
      | Raise e => (Raise e, out)
      | OutOfFuel => (OutOfFuel, out)
      end
  end.

(** ** The result store *)

(** An element of [data]: the [new_row] object itself, or a row read from
    the file. *)
Inductive slot : Type :=
| NewRow
| Stored (row : dict).

(** The [for row in reader] loop of [update_csv_file]; [new_row] is mutated
    in place, so every [NewRow] slot sees its last value. *)
Fixpoint scan_rows (rows : list dict) (new_row : dict) (data : list slot)
    (overwrote_row : bool) : result (dict * list slot * bool) :=
  match rows with
  | [] => Ret (new_row, data, overwrote_row)
  | row :: rows' =>
      row_tag <- subscript row "Tag" ;;
      row_key <- py_lower row_tag ;;
      new_tag <- subscript new_row "Tag" ;;
      new_key <- py_lower new_tag ;;
      if String.eqb row_key new_key then
        scan_rows rows' (dict_set "Tag" row_tag new_row) (data ++ [NewRow])%list true
      else
        scan_rows rows' new_row (data ++ [Stored row])%list overwrote_row
  end.

Definition deref (new_row : dict) (s : slot) : dict :=
  match s with
  | NewRow => new_row
  | Stored row => row
  end.

(** The state of the file named [OUTPUT_FILE]: absent, or its grid. *)
Definition file_state : Type := option grid.

Definition update_csv_file (new_row : dict) (file : file_state)
    : result unit * file_state :=
  let g := match file with Some g => g | None => [] end in
  match scan_rows (DictReader (open_read g)) new_row [] false with
  | Ret (new_row', data, overwrote_row) =>
      let data' := if overwrote_row then data else (data ++ [NewRow])%list in
      let fieldnames := keys new_row' in
      match writerows fieldnames (map (deref new_row') data') [fieldnames] with
      | (r, out) => (r, Some out)
      end
  | Raise e => (Raise e, Some g)
  | OutOfFuel => (OutOfFuel, Some g)
  end.

(** ** The known-tag filter *)

(** [{tag.lower(): None for tag in tags}], as its list of keys. *)
Fixpoint lower_keys (tags : list string) (acc : list string) : list string :=
  match tags with
  | [] => acc
  | tag :: tags' =>
      let k := lower tag in
      lower_keys tags' (if mem k acc then acc else (acc ++ [k])%list)
  end.

(** [l.remove(k)] on a list, [tags.pop(k)] on the keys of a dict: the first
    occurrence goes. *)
Fixpoint remove_first (k : string) (l : list string) : list string :=
  match l with
  | [] => []
  | x :: l' => if String.eqb k x then l' else x :: remove_first k l'
  end.

Fixpoint drop_known (rows : list dict) (tags : list string) : result (list string) :=
  match rows with
  | [] => Ret tags
  | row :: rows' =>
      row_tag <- subscript row "Tag" ;;
      row_key <- py_lower row_tag ;;
      drop_known rows' (if mem row_key tags then remove_first row_key tags else tags)
  end.

Definition remove_known_tags (tags : list string) (file : file_state)
    : result (list string) :=
  match file with
  | None => Ret tags
  | Some g => drop_known (DictReader (open_read g)) (lower_keys tags [])
  end.

(** ** One tag: eighteen years, then the store *)

(** A count as a dict value. *)
Definition count_value (count : option Z) : pyval :=
  match count with
  | Some n => PInt n
  | None => PNone
  end.

(** [range(18, 0, -1)]. *)
Definition year_offsets : list Z :=
  [18; 17; 16; 15; 14; 13; 12; 11; 10; 9; 8; 7; 6; 5; 4; 3; 2; 1].

(** The [for year in range(18, 0, -1)] loop of [print_post_total];
    [new_row] exists only when [output_to_file] holds. *)
Fixpoint count_years (depth fuel : nat) (page : client) (tags : string)
    (years : list Z) (new_row : option dict) (b : browser)
    : result (option dict) * browser :=
  match years with
  | [] => (Ret new_row, b)
  | year :: years' =>
      match call depth
              (fun d => get_post_count_for_year d fuel page year tags) b with
      | (Ret count, b') =>
          count_years depth fuel page tags years'
            (option_map (dict_set (str (CURRENT_YEAR - year)) (count_value count))
               new_row) b'
      | (Raise e, b') => (Raise e, b')
      | (OutOfFuel, b') => (OutOfFuel, b')
      end
  end.

Definition print_post_total (depth fuel : nat) (page : client) (tags : string)
    (output_to_file : bool) (w : browser * file_state)
    : result unit * (browser * file_state) :=
  let new_row :=
    if output_to_file then Some (mkDict [("Tag", PStr tags)] None) else None in
  match count_years depth fuel page tags year_offsets new_row (fst w) with
  | (Ret (Some row), b') =>
      match update_csv_file row (snd w) with
      | (r, file') => (r, (b', file'))
      end
  | (Ret None, b') => (Ret tt, (b', snd w))
  | (Raise e, b') => (Raise e, (b', snd w))
  | (OutOfFuel, b') => (OutOfFuel, (b', snd w))
  end.

(** The row [print_post_total] hands to the store when the year counts are
    [count_of]. *)
Definition year_row (tags : string) (count_of : Z -> Z) : dict :=
  fold_left
    (fun d year => dict_set (str (CURRENT_YEAR - year)) (PInt (count_of year)) d)
    year_offsets (mkDict [("Tag", PStr tags)] None).

Definition initialize_page (page : client) (b : browser) : result unit * browser :=
  let url := "https://e621.net/posts" in
  match page (visited b) url with
  | TimedOut => (Raise TimeoutError, goto url b)
  | Loaded _ _ => (Ret tt, goto url b)
  end.

(** The [for tags in queries] loop of [run_tag_count]. *)
Fixpoint for_each_query (depth fuel : nat) (page : client)
    (queries : list string) (output_to_file : bool) (w : browser * file_state)
    : result unit * (browser * file_state) :=
  match queries with
  | [] => (Ret tt, w)
  | tags :: queries' =>
      match call depth
              (fun d => print_post_total d fuel page tags output_to_file) w with
      | (Ret _, w') => for_each_query depth fuel page queries' output_to_file w'
      | other => other
      end
  end.

Definition run_tag_count (depth fuel : nat) (page : client)
    (queries : list string) (output_to_file : bool) (file : file_state)
    : result unit * (browser * file_state) :=
  match initialize_page page (mkBrowser [] []) with
  | (Ret _, b) => for_each_query depth fuel page queries output_to_file (b, file)
  | (Raise e, b) => (Raise e, (b, file))
  | (OutOfFuel, b) => (OutOfFuel, (b, file))
  end.

(** ** The command line *)

Fixpoint index_of (x : string) (l : list string) : option nat :=
  match l with
  | [] => None
  | y :: l' => if String.eqb x y then Some O else option_map S (index_of x l')
  end.

(** [l.pop(i)]: the element and the list without it. *)
Fixpoint pop_at (i : nat) (l : list string) : option (string * list string) :=
  match l, i with
  | [], _ => None
  | x :: l', O => Some (x, l')
  | x :: l', S i' =>
      match pop_at i' l' with
      | Some (y, l'') => Some (y, x :: l'')
      | None => None
      end
  end.

Definition is_digit (c : ascii) : bool :=
  let n := nat_of_ascii c in (Nat.leb 48 n && Nat.leb n 57)%bool.

(** The longest prefix of digits, read as a number, and what follows it;
    [None] when there is no digit. *)
Fixpoint read_digits (s : string) (acc : option Z) : option Z * string :=
  match s with
  | String c s' =>
      if is_digit c then
        read_digits s'
          (Some (10 * match acc with Some a => a | None => 0 end
                 + Z.of_nat (nat_of_ascii c - 48)))
      else (acc, s)
  | EmptyString => (acc, s)
  end.

(** Where [$] matches: at the end, or before a final newline. *)
Definition at_end (s : string) : bool :=
  match s with
  | EmptyString => true
  | String c EmptyString => Ascii.eqb c "010"
  | _ => false
  end.

(** [re.match(r"^(\d+)(\.\.(\d+))?$", page_range)], as the pair
    [(start, end)]. *)
Definition match_page_range (page_range : string) : option (Z * Z) :=
  match read_digits page_range None with
  | (Some first, after) =>
      if at_end after then Some (first, first)
      else
        match after with
        | String "." (String "." after') =>
            match read_digits after' None with
            | (Some last, tail) => if at_end tail then Some (first, last) else None
            | (None, _) => None
            end
        | _ => None
        end
  | (None, _) => None
  end.

Section CommandLine.

(** [run_tag_names_list]: the tag names the site lists on pages
    [first_page .. last_page], scraped in a browser session of its own. *)
Variable run_tag_names_list : Z -> Z -> result (list string).

Definition get_tag_names_by_page_range (page_range : string)
    : result (list string) :=
  match match_page_range page_range with
  | None => Raise PageRangeError
  | Some (first_page, last_page) => run_tag_names_list first_page last_page
  end.

(** The [-p] branch of [get_queries]. *)
Definition take_page_range (arguments : list string) : result (list string) :=
  match index_of "-p" arguments with
  | None => Ret arguments
  | Some i =>
      match pop_at (i + 1) arguments with
      | None => Raise IndexError
      | Some (page_range, arguments1) =>
          let arguments2 :=
            match pop_at i arguments1 with
            | Some (_, l) => l
            | None => arguments1
            end in
          names <- get_tag_names_by_page_range page_range ;;
          Ret (arguments2 ++ names)%list
      end
  end.

Definition get_queries (argv : list string) (file : file_state)
    : result (list string) :=
  let arguments := map lower (tl argv) in
  let arguments :=
    if mem "-o" arguments then remove_first "-o" arguments else arguments in
  arguments <- take_page_range arguments ;;
  let skip_known_tags := negb (mem "-w" arguments) in
  let arguments :=
    if mem "-w" arguments then remove_first "-w" arguments else arguments in
  let concatenate := mem "-c" arguments in
  let arguments :=
    if concatenate then remove_first "-c" arguments else arguments in
  if concatenate && negb (is_blank arguments) then Ret [join " " arguments]
  else if skip_known_tags then remove_known_tags arguments file
  else Ret arguments.

Definition tag_counter (depth fuel : nat) (page : client)
    (argv : list string) (file : file_state) : result unit * file_state :=
  let output_to_file := negb (mem "-o" argv) in
  match get_queries argv file with
  | Ret queries =>
      match depth with
      | O => (Raise RecursionError, file)
      | S depth' =>
          match run_tag_count depth' fuel page queries output_to_file file with
          | (r, (_, file')) => (r, file')
          end
      end
  | Raise e => (Raise e, file)
  | OutOfFuel => (OutOfFuel, file)
  end.

End CommandLine.

(** ** The tag listing *)

(** What a page of the site's tag list shows: for each link its [href]
    attribute, when it has one, and its text; or the visit times out. *)
Inductive tags_response : Type :=
| TagsTimedOut
| TagLinks (links : list (option string * string)).

Definition tags_client : Type := list string -> string -> tags_response.

Definition tags_url (i : Z) : string :=
  "https://e621.net/tags?commit=Search&page=" ++ str i
  ++ "&search%5Bhide_empty%5D=1&search%5Border%5D=count".

(** [range(first_page, last_page+1)]. *)
Definition page_numbers (first_page last_page : Z) : list Z :=
  map (fun k => first_page + Z.of_nat k)
    (seq 0 (Z.to_nat (last_page + 1 - first_page))).

(** The [for link in links] loop; [startswith] on a missing [href] raises. *)
Fixpoint collect_links (links : list (option string * string))
    (names : list string) : result (list string) :=
  match links with
  | [] => Ret names
  | (None, _) :: _ => Raise AttributeError
  | (Some href, text) :: links' =>
      if String.prefix "/posts?tags=" href
      then collect_links links' (names ++ [text])%list
      else collect_links links' names
  end.

(** The [for i in range(...)] loop of one attempt, from the visits [h]. *)
Fixpoint visit_pages (page : tags_client) (pages : list Z) (names : list string)
    (h : list string) : result (list string) * list string :=
  match pages with
  | [] => (Ret names, h)
  | i :: pages' =>
      let url := tags_url i in
      match page h url with
      | TagsTimedOut => (Raise TimeoutError, url :: h)
      | TagLinks links =>
          match collect_links links names with
          | Ret names' => visit_pages page pages' names' (url :: h)
          | Raise e => (Raise e, url :: h)
          | OutOfFuel => (OutOfFuel, url :: h)
          end
      end
  end.

(** The [except TimeoutError] branch starts over, with [names] empty, by a
    call of the function itself, one frame further down. *)
Fixpoint parse_tag_names_from_page (depth : nat) (page : tags_client)
    (first_page last_page : Z) (h : list string) {struct depth}
    : result (list string) * list string :=
  match visit_pages page (page_numbers first_page last_page) [] h with
  | (Raise TimeoutError, h') =>
      match depth with
      | O => (Raise RecursionError, h')
      | S depth' => parse_tag_names_from_page depth' page first_page last_page h'
      end
  | other => other
  end.

Definition run_tag_names_list (depth : nat) (posts : client) (page : tags_client)
    (first_page last_page : Z) : result (list string) :=
  match initialize_page posts (mkBrowser [] []) with
  | (Ret _, b) =>
      fst (call depth
             (fun d => parse_tag_names_from_page d page first_page last_page)
             (visited b))
  | (Raise e, _) => Raise e
  | (OutOfFuel, _) => OutOfFuel
  end.

(** ** Vocabulary of the properties *)

(** What a loaded page below the ceiling counts to, as [get_post_count]
    computes it. *)
Definition exact_count (data_total : Z) (last : listing) : Z :=
  if data_total =? 0 then 0
  else 75 * (data_total - 1) + get_post_count_on_current_page last.

(** The browser after [k] attempts of a top-level count, the first of them
    made with [depth] frames left, each further one with a frame less. *)
Fixpoint after_attempts (depth fuel : nat) (page : client) (tags : string)
    (k : nat) (b : browser) : browser :=
  match k with
  | O => b
  | S k' =>
      after_attempts (pred depth) fuel page tags k'
        (snd (get_post_count depth fuel page tags false b))
  end.

(** A score window with the count obtained for it. *)
Definition batch : Type := (Z * Z) * Z.

Definition in_window (z : Z) (w : batch) : bool :=
  (fst (fst w) <=? z) && (z <=? snd (fst w)).

(** [strip_prefix p s]: what follows [p] in [s], when [s] starts with [p]. *)
Fixpoint strip_prefix (p s : string) : option string :=
  match p, s with
  | EmptyString, _ => Some s
  | String a p', String c s' =>
      if Ascii.eqb a c then strip_prefix p' s' else None
  | String _ _, EmptyString => None
  end.

(** A numeral and nothing else. *)
Definition whole_number (s : string) : option Z :=
  match read_digits s None with
  | (Some n, EmptyString) => Some n
  | _ => None
  end.

(** The scores a [score:] term of the site's search syntax selects, read off
    the text of the term: [score:N], [score:A..B], [score:>N], [score:>=N],
    [score:<N] and [score:<=N]. *)
Definition score_term (term : string) : option (Z -> bool) :=
  match strip_prefix "score:" term with
  | None => None
  | Some spec =>
      match read_digits spec None with
      | (Some n, EmptyString) => Some (fun z => z =? n)
      | (Some lo, String "." (String "." upper)) =>
          option_map (fun hi z => (lo <=? z) && (z <=? hi)) (whole_number upper)
      | (Some _, _) => None
      | (None, String ">" (String "=" n)) =>
          option_map (fun k z => k <=? z) (whole_number n)
      | (None, String ">" n) => option_map (fun k z => k <? z) (whole_number n)
      | (None, String "<" (String "=" n)) =>
          option_map (fun k z => z <=? k) (whole_number n)
      | (None, String "<" n) => option_map (fun k z => z <? k) (whole_number n)
      | (None, _) => None
      end
  end.

(** Whether the sub-query [query] of [tags], that is [tags], a space and one
    [score:] term, selects a post of score [z] among the posts of [tags]. *)
Definition selects (tags query : string) (z : Z) : bool :=
  match strip_prefix (tags ++ " ") query with
  | Some term =>
      match score_term term with
      | Some holds => holds z
      | None => false
      end
  | None => false
  end.

(** The sub-queries a pass has summed: its windows, then the two boundary
    queries. *)
Definition sub_queries (tags : string) (ws : list batch) : list string :=
  (map (fun w => score_range tags (fst (fst w)) (snd (fst w))) ws
   ++ [score_above tags; score_nonpos tags])%list.

(** How many of the posts with the scores [posts] a sub-query selects. *)
Definition count_selected (posts : list Z) (tags query : string) : Z :=
  Z.of_nat (List.length (filter (selects tags query) posts)).

Definition sum_counts (ws : list batch) : Z :=
  fold_right (fun w acc => snd w + acc) 0 ws.

(** Windows that follow one another downwards from [hi] to 1. *)
Fixpoint tiles (hi : Z) (ws : list batch) : Prop :=
  match ws with
  | [] => hi <= 0
  | w :: ws' =>
      snd (fst w) = hi /\ 1 <= fst (fst w) <= hi /\ tiles (fst (fst w) - 1) ws'
  end.

(** ** A site that holds posts *)

(** The site shows 75 posts to a page. *)
Definition pages_of (n : Z) : Z := (n + 74) / 75.

(** What the site answers when [n] posts match, [hidden] of those on the
    last page standing behind the blacklist notice: the number of pages, 750
    at most, and what the last of these pages shows. *)
Definition site_answer (n hidden : Z) : response :=
  if n <=? 0 then Loaded 0 (mkListing 0 None)
  else if 750 <=? pages_of n then Loaded 750 (mkListing 75 None)
  else
    Loaded (pages_of n)
      (mkListing (n - 75 * (pages_of n - 1) - hidden)
         (if hidden =? 0 then None else Some hidden)).

(** A site on which [truth q] posts match the tag expression [q]. *)
Definition site (truth hidden : string -> Z) : client := fun _ url =>
  match strip_prefix "https://e621.net/posts?tags=" url with
  | Some q => site_answer (truth q) (hidden q)
  | None => Loaded 0 (mkListing 0 None)
  end.

(** The rows [csv.DictReader] yields for the file as the program opens it;
    none when it is absent. *)
Definition stored (file : file_state) : list dict :=
  DictReader (open_read (match file with Some g => g | None => [] end)).

(** The text holds no carriage return. *)
Fixpoint no_cr (s : string) : bool :=
  match s with
  | EmptyString => true
  | String c s' => negb (Ascii.eqb c "013") && no_cr s'
  end.

(** No key and no value of the row holds a carriage return. *)
Definition clean_row (d : dict) : bool :=
  forallb (fun kv => no_cr (fst kv) && no_cr (field_text (snd kv))) (items d).

(** The tag text of a record, when it has one. *)
Definition tag_text (row : dict) : option string :=
  match dict_get "Tag" row with
  | Some (PStr t) => Some t
  | _ => None
  end.

(** The record is keyed like the tag text [q], letter case aside. *)
Definition matches (q : string) (row : dict) : bool :=
  match tag_text row with
  | Some t => String.eqb (lower t) (lower q)
  | None => false
  end.

(** The record has no column outside [fieldnames]. *)
Definition fits (fieldnames : list string) (row : dict) : bool :=
  forallb (fun k => mem k fieldnames) (keys row)
  && match rest row with Some _ => false | None => true end.

(** The text written for column [k] of a record, and its whole line. *)
Definition cell (k : string) (row : dict) : string :=
  match dict_get k row with
  | Some v => field_text v
  | None => ""
  end.

Definition line_of (fieldnames : list string) (row : dict) : list string :=
  map (fun k => cell k row) fieldnames.

(** A tag key is recorded when some record carries it, letter case aside. *)
Definition recorded (rows : list dict) (k : string) : Prop :=
  exists r, In r rows /\ lower (cell "Tag" r) = k.

Definition known_key (rows : list dict) (k : string) : bool :=
  existsb (fun r => String.eqb (lower (cell "Tag" r)) k) rows.

(** The text holds no capital letter [A] to [Z]. *)
Definition is_upper (c : ascii) : bool :=
  let n := nat_of_ascii c in (Nat.leb 65 n && Nat.leb n 90)%bool.

Fixpoint all_chars (P : ascii -> bool) (s : string) : bool :=
  match s with
  | EmptyString => true
  | String c s' => (P c && all_chars P s')%bool
  end.

Definition lowercase (s : string) : Prop :=
  all_chars (fun c => negb (is_upper c)) s = true.

(** The tag text of the last stored record keyed like [q]. *)
Definition later_match (q : string) (acc : option string) (row : dict)
    : option string :=
  if matches q row then tag_text row else acc.

Definition last_match (q : string) (rows : list dict) : option string :=
  fold_left (later_match q) rows None.

(** [new_row] as it stands when the scan is over. *)
Definition retag (t : option string) (new_row : dict) : dict :=
  match t with
  | Some t' => dict_set "Tag" (PStr t') new_row
  | None => new_row
  end.

Definition final_row (q : string) (new_row : dict) (rows : list dict) : dict :=
  retag (last_match q rows) new_row.

(** The records handed to the writer. *)
Definition new_data (q : string) (new_row : dict) (rows : list dict) : list dict :=
  (map (fun row => if matches q row then final_row q new_row rows else row) rows
   ++ (if existsb (matches q) rows then [] else [new_row]))%list.

(** The filter, then one upsert per tag that is left, the year counts of tag
    [q] being [count_of q]. *)
Fixpoint upsert_all (count_of : string -> Z -> Z) (queries : list string)
    (file : file_state) : result unit * file_state :=
  match queries with
  | [] => (Ret tt, file)
  | q :: queries' =>
      match update_csv_file (year_row q (count_of q)) file with
      | (Ret _, file') => upsert_all count_of queries' file'
      | other => other
      end
  end.

Definition filter_then_upsert (count_of : string -> Z -> Z) (tags : list string)
    (file : file_state) : result unit * file_state :=
  match remove_known_tags tags file with
  | Ret queries => upsert_all count_of queries file
  | Raise e => (Raise e, file)
  | OutOfFuel => (OutOfFuel, file)
  end.

(** ** A sample result table *)

Definition sample_table : grid :=
  [["Tag"; "2024"]; ["fox"; "7"]; ["wolf"; "9"]].

Definition same_count : Z -> Z := fun _ => 3.

(** A table written when the window of years reached back to 2006. *)
Definition drifted_table : grid :=
  [["Tag"; "2006"; "2007"]; ["fox"; "5"; "6"]; ["wolf"; "1"; "2"]].

(** ** Sample inputs *)

(** A client with no post at all, and a run without tag listing. *)
Definition empty_client : client := fun _ _ => Loaded 0 (mkListing 0 None).

Definition no_listing : Z -> Z -> result (list string) := fun _ _ => Ret [].

Definition mixed_listing : Z -> Z -> result (list string) :=
  fun _ _ => Ret ["Fox"].

(** ** Simulated clients *)

Definition fresh : browser := mkBrowser [] [].

(** Truncates the year query and the full window, answers the two halves. *)
Definition halving_client : client := fun _ url =>
  let t := year_tags 1 "wolf" in
  if String.eqb url (posts_url t) then Loaded 750 (mkListing 75 None)
  else if String.eqb url (posts_url (score_range t 1 512)) then
    Loaded 750 (mkListing 75 None)
  else if String.eqb url (posts_url (score_range t 257 512)) then
    Loaded 400 (mkListing 10 None)
  else if String.eqb url (posts_url (score_range t 1 256)) then
    Loaded 500 (mkListing 3 (Some 2))
  else if String.eqb url (posts_url (score_above t)) then
    Loaded 1 (mkListing 7 None)
  else Loaded 0 (mkListing 0 None).

(** Truncates whatever it is asked. *)
Definition saturated_client : client := fun _ _ => Loaded 750 (mkListing 75 None).

(** Times out on the first three visits of a session. *)
Definition flaky_client : client := fun h _ =>
  if Nat.ltb (List.length h) 3 then TimedOut else Loaded 2 (mkListing 5 None).

(** Truncates every other query, the first one included: the year query,
    then in each pass the boundary query for the scores above 512, the
    window before it being answered. *)
Definition nesting_client : client := fun h _ =>
  if Nat.even (List.length h) then Loaded 750 (mkListing 75 None)
  else Loaded 1 (mkListing 1 None).

(** Times out on the first thousand visits of a session; a thousand frames
    is all the interpreter allows by default ([sys.getrecursionlimit()]), for
    the whole stack. *)
Definition late_client : client := fun h _ =>
  if Nat.ltb (List.length h) 1000 then TimedOut else Loaded 2 (mkListing 5 None).

(** Truncates the upper boundary query of ["fox"]. *)
Definition heavy_top_client : client := fun _ url =>
  if String.eqb url (posts_url (score_above "fox")) then
    Loaded 750 (mkListing 75 None)
  else if String.eqb url (posts_url (score_range "fox" 1 512)) then
    Loaded 1 (mkListing 4 None)
  else if String.eqb url (posts_url (score_range (score_above "fox") 1 512)) then
    Loaded 3 (mkListing 10 None)
  else if String.eqb url (posts_url (score_nonpos "fox")) then
    Loaded 1 (mkListing 2 None)
  else Loaded 0 (mkListing 0 None).

(** ** Vocabulary of the further properties *)

(** What a call of [get_post_count] can end in. *)
Definition plain_outcome (m : bool) (r : result (option Z)) : Prop :=
  r = OutOfFuel \/ r = Raise RecursionError \/ r = Raise TimeoutError
  \/ (exists n, r = Ret (Some n)) \/ (m = true /\ r = Ret None).

(** The number [read_digits] arrives at on the digits of [d], from [acc]. *)
Definition digit_step (acc : option Z) (k : nat) : option Z :=
  Some (10 * match acc with Some a => a | None => 0 end + Z.of_nat k).

Fixpoint digits_value (d : Decimal.uint) (acc : option Z) : option Z :=
  match d with
  | Decimal.Nil => acc
  | Decimal.D0 l => digits_value l (digit_step acc 0)
  | Decimal.D1 l => digits_value l (digit_step acc 1)
  | Decimal.D2 l => digits_value l (digit_step acc 2)
  | Decimal.D3 l => digits_value l (digit_step acc 3)
  | Decimal.D4 l => digits_value l (digit_step acc 4)
  | Decimal.D5 l => digits_value l (digit_step acc 5)
  | Decimal.D6 l => digits_value l (digit_step acc 6)
  | Decimal.D7 l => digits_value l (digit_step acc 7)
  | Decimal.D8 l => digits_value l (digit_step acc 8)
  | Decimal.D9 l => digits_value l (digit_step acc 9)
  end.

(** The text does not go on with a digit. *)
Definition stops (s : string) : Prop :=
  match s with
  | EmptyString => True
  | String c _ => is_digit c = false
  end.

(** [urllib.parse.unquote_plus], the inverse of [url_encode_plus]. *)
Definition hex_value (c : ascii) : nat :=
  let n := nat_of_ascii c in
  if (Nat.leb 48 n && Nat.leb n 57)%bool then (n - 48)%nat else (n - 55)%nat.

Fixpoint url_decode_plus (s : string) : string :=
  match s with
  | EmptyString => EmptyString
  | String c s' =>
      if Ascii.eqb c "+" then String " " (url_decode_plus s')
      else if Ascii.eqb c "%" then
        match s' with
        | String h1 (String h2 s'') =>
            String (ascii_of_nat (16 * hex_value h1 + hex_value h2))
              (url_decode_plus s'')
        | _ => String c (url_decode_plus s')
        end
      else String c (url_decode_plus s')
  end.

(** The characters a quoted text is made of. *)
Definition url_char (c : ascii) : bool :=
  (always_safe c || Ascii.eqb c "+" || Ascii.eqb c "%")%bool.

(** The tag names among the links of a page. *)
Definition wanted_names (links : list (option string * string)) : list string :=
  map snd
    (filter (fun l => match fst l with
                      | Some href => String.prefix "/posts?tags=" href
                      | None => false
                      end) links).

(** A listing whose first thousand visits time out. *)
Definition late_tags_client : tags_client := fun h _ =>
  if Nat.ltb (List.length h) 1000 then TagsTimedOut
  else TagLinks [(Some "/posts?tags=fox", "fox")].

(** The visits after [k] attempts at the listing. *)
Fixpoint after_listings (page : tags_client) (pages : list Z) (k : nat)
    (h : list string) : list string :=
  match k with
  | O => h
  | S k' => after_listings page pages k' (snd (visit_pages page pages [] h))
  end.

(** A site with two pages of links. *)
Definition two_page_site (url : string) : list (option string * string) :=
  if String.eqb url (tags_url 1) then
    [(Some "/posts?tags=anthro", "anthro"); (Some "/wiki/anthro", "?")]
  else [(Some "/posts?tags=fox", "fox")].

Definition two_page_client : tags_client := fun _ url => TagLinks (two_page_site url).

(** A listing of two pages, the first of which times out once. *)
Definition slow_tags_client : tags_client := fun h url =>
  if Nat.eqb (List.length h) 0 then TagsTimedOut
  else if String.eqb url (tags_url 1) then
    TagLinks [(Some "/posts?tags=anthro", "anthro"); (Some "/wiki/anthro", "?")]
  else TagLinks [(Some "/posts?tags=fox", "fox")].

(* ------------------------------------------------------------------ *)
(** * Properties *)

Example str_examples : str 512 = "512" /\ str 0 = "0" /\ str (-3) = "-3".
Proof. repeat split; reflexivity. Qed.

Example year_tags_example :
  year_tags 1 "wolf" = "wolf+status%3Aany+date%3A1_yesteryears_ago".
Proof. reflexivity. Qed.

(** ** Numerals *)

Lemma read_digits_step c s acc :
  is_digit c = true ->
  read_digits (String c s) acc = read_digits s (digit_step acc (nat_of_ascii c - 48)).
Proof.
  intros Hc. simpl. rewrite Hc. reflexivity.
Qed.

Lemma read_digits_stops s acc : stops s -> read_digits s acc = (acc, s).
Proof.
  destruct s as [|c s]; simpl; intros Hs; [reflexivity|].
  rewrite Hs. reflexivity.
Qed.

Lemma read_digits_of_uint rest :
  stops rest ->
  forall d acc,
    read_digits (NilEmpty.string_of_uint d ++ rest) acc
      = (digits_value d acc, rest).
Proof.
  intros Hrest. induction d as [|d IH|d IH|d IH|d IH|d IH|d IH|d IH|d IH|d IH|d IH];
    intros acc;
    [apply read_digits_stops; exact Hrest | ..];
    cbn [NilEmpty.string_of_uint append digits_value];
    rewrite read_digits_step by reflexivity; apply IH.
Qed.

Lemma digits_value_acc :
  forall d p, digits_value d (Some (Z.pos p)) = Some (Z.pos (Pos.of_uint_acc d p)).
Proof.
  induction d as [|d IH|d IH|d IH|d IH|d IH|d IH|d IH|d IH|d IH|d IH];
    intros p; [reflexivity | ..];
    cbn [digits_value Pos.of_uint_acc]; unfold digit_step;
    rewrite <- IH; do 2 f_equal; lia.
Qed.

Lemma digits_value_zero :
  forall d, digits_value d (Some 0) = Some (Z.of_N (Pos.of_uint d)).
Proof.
  induction d as [|d IH|d IH|d IH|d IH|d IH|d IH|d IH|d IH|d IH|d IH];
    [reflexivity | exact IH | ..];
    cbn [digits_value Pos.of_uint]; unfold digit_step;
    apply digits_value_acc.
Qed.

Lemma read_digits_str a rest :
  0 <= a -> stops rest -> read_digits (str a ++ rest) None = (Some a, rest).
Proof.
  intros Ha Hrest. unfold str. destruct a as [|p|p]; [| |lia].
  - change (read_digits (String "0" rest) None = (Some 0, rest)).
    rewrite read_digits_step by reflexivity.
    apply read_digits_stops. exact Hrest.
  - cbn [Z.to_int NilZero.string_of_int]. unfold NilZero.string_of_uint.
    pose proof (Unsigned.to_uint_nonnil p) as Hnn.
    pose proof (Unsigned.of_to p) as Hof.
    destruct (Pos.to_uint p) as [|d|d|d|d|d|d|d|d|d|d] eqn:E;
      [contradiction | ..];
      rewrite (read_digits_of_uint rest Hrest); f_equal;
      change (digits_value ?u None) with (digits_value u (Some 0));
      rewrite digits_value_zero, Hof; reflexivity.
Qed.

Lemma append_empty s : s ++ "" = s.
Proof.
  induction s as [|c s IH]; simpl; [reflexivity|]. rewrite IH. reflexivity.
Qed.

(** ** One call of [get_post_count] *)

(** The function, with the pass it enters named. *)
Lemma get_post_count_eq depth fuel page tags is_batched b :
  get_post_count depth fuel page tags is_batched b
    = match page (visited b) (posts_url tags) with
      | TimedOut => (Raise TimeoutError, goto (posts_url tags) b)
      | Loaded data_total last =>
          if data_total =? 0 then (Ret (Some 0), goto (posts_url tags) b)
          else if (1 <? data_total) && (750 <=? data_total) then
            if is_batched then (Ret None, goto (posts_url tags) b)
            else
              call depth
                (fun d s => returned (get_batched_post_count d fuel page tags s))
                (goto (posts_url tags) b)
          else
            (Ret (Some (75 * (data_total - 1)
                        + get_post_count_on_current_page last)),
             goto (posts_url tags) b)
      end.
Proof.
  destruct depth as [|[|depth]]; simpl;
    destruct (page (visited b) (posts_url tags)) as [|dt last]; try reflexivity;
    destruct (dt =? 0); try reflexivity;
    destruct (1 <? dt); try reflexivity;
    destruct (750 <=? dt); try reflexivity.
Qed.

(** A top-level call never hands [None] to its caller. *)
Lemma get_post_count_top_not_none page :
  forall depth fuel q b b',
    get_post_count depth fuel page q false b <> (Ret None, b').
Proof.
  intros depth fuel q b b'. rewrite get_post_count_eq.
  destruct (page (visited b) (posts_url q)) as [|dt last]; [discriminate|].
  destruct (dt =? 0); [discriminate|].
  destruct ((1 <? dt) && (750 <=? dt)); [|discriminate].
  destruct depth as [|depth]; [discriminate|]. unfold call, returned.
  destruct (get_batched_post_count depth fuel page q (goto (posts_url q) b))
    as [[n| e |] b2]; discriminate.
Qed.

Lemma get_post_count_loaded page depth fuel tags is_batched b dt last :
  page (visited b) (posts_url tags) = Loaded dt last ->
  dt < 750 ->
  get_post_count depth fuel page tags is_batched b =
    (Ret (Some (exact_count dt last)), goto (posts_url tags) b).
Proof.
  intros Hpage Hdt. rewrite get_post_count_eq, Hpage. unfold exact_count.
  destruct (dt =? 0); [reflexivity|].
  replace (750 <=? dt) with false by (symmetry; apply Z.leb_gt; exact Hdt).
  rewrite andb_false_r. reflexivity.
Qed.

Lemma get_post_count_truncated page depth fuel tags b dt last :
  page (visited b) (posts_url tags) = Loaded dt last ->
  750 <= dt ->
  get_post_count depth fuel page tags true b = (Ret None, goto (posts_url tags) b)
  /\ get_post_count (S depth) fuel page tags false b =
       returned (get_batched_post_count depth fuel page tags (goto (posts_url tags) b))
  /\ get_post_count 0 fuel page tags false b
       = (Raise RecursionError, goto (posts_url tags) b).
Proof.
  intros Hpage Hdt. rewrite !get_post_count_eq, Hpage.
  replace (dt =? 0) with false by (symmetry; apply Z.eqb_neq; lia).
  replace (1 <? dt) with true by (symmetry; apply Z.ltb_lt; lia).
  replace (750 <=? dt) with true by (symmetry; apply Z.leb_le; lia).
  repeat split; reflexivity.
Qed.

(** ** The year counter *)

Lemma strip_prefix_app p s : strip_prefix p (p ++ s) = Some s.
Proof.
  induction p as [|a p IH]; simpl; [reflexivity|].
  rewrite Ascii.eqb_refl. exact IH.
Qed.


Lemma for_year_first_attempt page depth fuel year tags b n b' :
  get_post_count depth fuel page (year_tags year tags) false b = (Ret (Some n), b') ->
  get_post_count_for_year (S depth) fuel page year tags b = (Ret (Some n), b').
Proof.
  intros Hq. cbn [get_post_count_for_year]. rewrite Hq. reflexivity.
Qed.



Lemma for_year_never_times_out page year tags fuel :
  forall depth b,
    fst (get_post_count_for_year depth fuel page year tags b) <> Raise TimeoutError.
Proof.
  induction depth as [|depth IH]; intros b; simpl; [discriminate|].
  destruct (get_post_count depth fuel page (year_tags year tags) false b)
    as [[n|e|] b1]; simpl; try discriminate.
  destruct e; simpl; try discriminate. apply IH.
Qed.

Lemma for_year_retries page year tags fuel :
  forall k depth b n b',
    (k <= depth)%nat ->
    (forall i, (i < k)%nat ->
       fst (get_post_count (depth - i) fuel page (year_tags year tags) false
              (after_attempts depth fuel page (year_tags year tags) i b))
         = Raise TimeoutError) ->
    get_post_count (depth - k) fuel page (year_tags year tags) false
      (after_attempts depth fuel page (year_tags year tags) k b) = (Ret (Some n), b') ->
    get_post_count_for_year (S depth) fuel page year tags b = (Ret (Some n), b').
Proof.
  induction k as [|k IH]; intros depth b n b' Hk Hfail Hok.
  - rewrite Nat.sub_0_r in Hok. apply for_year_first_attempt. exact Hok.
  - destruct depth as [|depth]; [lia|].
    pose proof (Hfail O ltac:(lia)) as H0. cbn [after_attempts Nat.sub] in H0.
    destruct (get_post_count (S depth) fuel page (year_tags year tags) false b)
      as [r0 b1] eqn:E0.
    cbn [fst] in H0. subst r0.
    change (get_post_count_for_year (S (S depth)) fuel page year tags b)
      with (match get_post_count (S depth) fuel page (year_tags year tags) false b with
            | (Raise TimeoutError, b') =>
                get_post_count_for_year (S depth) fuel page year tags b'
            | other => other
            end).
    rewrite E0.
    apply (IH depth b1 n b').
    + lia.
    + intros i Hi. specialize (Hfail (S i) ltac:(lia)).
      cbn [after_attempts Nat.sub pred] in Hfail. rewrite E0 in Hfail. exact Hfail.
    + cbn [after_attempts Nat.sub pred] in Hok. rewrite E0 in Hok. exact Hok.
Qed.

Lemma for_year_gives_up page year tags fuel :
  forall depth b,
    (forall i, (i <= depth)%nat ->
       fst (get_post_count (depth - i) fuel page (year_tags year tags) false
              (after_attempts depth fuel page (year_tags year tags) i b))
         = Raise TimeoutError) ->
    get_post_count_for_year (S depth) fuel page year tags b
      = (Raise RecursionError,
         after_attempts depth fuel page (year_tags year tags) (S depth) b).
Proof.
  induction depth as [|depth IH]; intros b Hfail.
  - pose proof (Hfail O ltac:(lia)) as H0. cbn [after_attempts Nat.sub] in H0.
    cbn [get_post_count_for_year after_attempts pred].
    destruct (get_post_count 0 fuel page (year_tags year tags) false b)
      as [r0 b1] eqn:E0.
    cbn [fst] in H0. subst r0. reflexivity.
  - pose proof (Hfail O ltac:(lia)) as H0. cbn [after_attempts Nat.sub] in H0.
    destruct (get_post_count (S depth) fuel page (year_tags year tags) false b)
      as [r0 b1] eqn:E0.
    cbn [fst] in H0. subst r0.
    change (get_post_count_for_year (S (S depth)) fuel page year tags b)
      with (match get_post_count (S depth) fuel page (year_tags year tags) false b with
            | (Raise TimeoutError, b') =>
                get_post_count_for_year (S depth) fuel page year tags b'
            | other => other
            end).
    rewrite E0.
    change (after_attempts (S depth) fuel page (year_tags year tags)
              (S (S depth)) b)
      with (after_attempts depth fuel page (year_tags year tags) (S depth)
              (snd (get_post_count (S depth) fuel page (year_tags year tags)
                      false b))).
    rewrite E0. cbn [snd].
    apply IH. intros i Hi. specialize (Hfail (S i) ltac:(lia)).
    cbn [after_attempts Nat.sub pred] in Hfail. rewrite E0 in Hfail. exact Hfail.
Qed.

(** C9, amended. A timeout raised anywhere under a year count is caught by
    [get_post_count_for_year], which calls itself at once: the caller never
    sees [TimeoutError], and the count of the first attempt that completes
    is returned, as long as a frame is left for each retry.  Each retry
    nests one call deeper: when every attempt the frames allow has timed
    out, the call ends in [RecursionError]. *)
Theorem timeouts_retried_while_frames_last :
  forall page year tags b depth fuel,
    fst (get_post_count_for_year depth fuel page year tags b) <> Raise TimeoutError
    /\ (forall k n b',
          (k <= depth)%nat ->
          (forall i, (i < k)%nat ->
             fst (get_post_count (depth - i) fuel page (year_tags year tags) false
                    (after_attempts depth fuel page (year_tags year tags) i b))
               = Raise TimeoutError) ->
          get_post_count (depth - k) fuel page (year_tags year tags) false
            (after_attempts depth fuel page (year_tags year tags) k b)
            = (Ret (Some n), b') ->
          get_post_count_for_year (S depth) fuel page year tags b
            = (Ret (Some n), b'))
    /\ ((forall i, (i <= depth)%nat ->
           fst (get_post_count (depth - i) fuel page (year_tags year tags) false
                  (after_attempts depth fuel page (year_tags year tags) i b))
             = Raise TimeoutError) ->
        get_post_count_for_year (S depth) fuel page year tags b
          = (Raise RecursionError,
             after_attempts depth fuel page (year_tags year tags) (S depth) b)).
Proof.
  intros page year tags b depth fuel. split; [|split].
  - apply for_year_never_times_out.
  - intros k n b'. apply for_year_retries.
  - apply for_year_gives_up.
Qed.

Lemma timeouts_retried_witness :
  get_post_count_for_year 5 0 flaky_client 1 "wolf" fresh
    = (Ret (Some 80), after_attempts 4 0 flaky_client (year_tags 1 "wolf") 4 fresh)
  /\ get_post_count_for_year 3 0 flaky_client 1 "wolf" fresh
     = (Raise RecursionError,
        after_attempts 2 0 flaky_client (year_tags 1 "wolf") 3 fresh).
Proof.
  destruct (timeouts_retried_while_frames_last flaky_client 1 "wolf" fresh 4 0)
    as [_ [Hretry _]].
  destruct (timeouts_retried_while_frames_last flaky_client 1 "wolf" fresh 2 0)
    as [_ [_ Hstop]].
  split.
  - apply (Hretry 3%nat 80).
    + lia.
    + intros i Hi.
      destruct i as [|[|[|i]]]; [reflexivity | reflexivity | reflexivity | lia].
    + reflexivity.
  - apply Hstop. intros i Hi.
    destruct i as [|[|[|i]]]; [reflexivity | reflexivity | reflexivity | lia].
Defined.

(** C9, with retries that know no bound, does not hold: against a client
    whose first thousand answers time out and whose next answer is a page of
    posts, a year count that has the whole default stack of a thousand frames
    below it ends in [RecursionError] after a thousand visits; the visit that
    would be answered is not made. *)
Lemma retries_end_with_the_stack :
  fst (get_post_count_for_year 1000 0 late_client 1 "wolf" fresh)
    = Raise RecursionError
  /\ List.length
       (visited (snd (get_post_count_for_year 1000 0 late_client 1 "wolf" fresh)))
     = 1000%nat
  /\ get_post_count 0 0 late_client (year_tags 1 "wolf") false
       (snd (get_post_count_for_year 1000 0 late_client 1 "wolf" fresh))
     = (Ret (Some 80),
        goto (posts_url (year_tags 1 "wolf"))
          (snd (get_post_count_for_year 1000 0 late_client 1 "wolf" fresh))).
Proof.
  split; [|split]; vm_compute; reflexivity.
Qed.

(** ** The partitioning loop, step by step *)

Lemma batch_loop_truncated g fuel tags bound interval count b b' :
  0 < bound ->
  g (score_range tags (Z.max 1 (bound - interval + 1)) bound) true b
    = (Ret None, b') ->
  batch_loop g (S fuel) tags bound interval count b
    = batch_loop g fuel tags bound (interval / 2) count b'.
Proof.
  intros Hb Hg. simpl.
  replace (0 <? bound) with true by (symmetry; apply Z.ltb_lt; exact Hb).
  rewrite Hg. reflexivity.
Qed.

Lemma batch_loop_exact g fuel tags bound interval count b b' batch_count :
  0 < bound ->
  g (score_range tags (Z.max 1 (bound - interval + 1)) bound) true b
    = (Ret (Some batch_count), b') ->
  batch_loop g (S fuel) tags bound interval count b
    = batch_loop g fuel tags (bound - interval) interval (count + batch_count) b'.
Proof.
  intros Hb Hg. simpl.
  replace (0 <? bound) with true by (symmetry; apply Z.ltb_lt; exact Hb).
  rewrite Hg. reflexivity.
Qed.

Lemma batch_loop_done g fuel tags bound interval count b :
  bound <= 0 ->
  batch_loop g (S fuel) tags bound interval count b = (Ret count, b).
Proof.
  intros Hb. simpl.
  replace (0 <? bound) with false by (symmetry; apply Z.ltb_ge; exact Hb).
  reflexivity.
Qed.

(** C3. While [bound > 0]: a truncated window halves the interval (floor
    division) and the loop goes on with the same bound; an exact window adds
    its count and lowers the bound by the interval as it then stands.  For the
    client that truncates the window 1..512 and answers 257..512 and 1..256,
    the year count visits 1..512, 257..512, 1..256 and the two boundary
    queries, in that order, and 1..512 only once. *)
Theorem adaptive_shrink_and_slide :
  (forall g fuel tags bound interval count b b',
      0 < bound ->
      g (score_range tags (Z.max 1 (bound - interval + 1)) bound) true b
        = (Ret None, b') ->
      batch_loop g (S fuel) tags bound interval count b
        = batch_loop g fuel tags bound (interval / 2) count b')
  /\ (forall g fuel tags bound interval count b b' batch_count,
        0 < bound ->
        g (score_range tags (Z.max 1 (bound - interval + 1)) bound) true b
          = (Ret (Some batch_count), b') ->
        batch_loop g (S fuel) tags bound interval count b
          = batch_loop g fuel tags (bound - interval) interval
              (count + batch_count) b')
  /\ (let t := year_tags 1 "wolf" in
      exists b',
        get_post_count_for_year 10 8 halving_client 1 "wolf" fresh
          = (Ret (Some (exact_count 400 (mkListing 10 None)
                        + exact_count 500 (mkListing 3 (Some 2))
                        + exact_count 1 (mkListing 7 None) + 0)), b')
        /\ rev (visited b')
             = [posts_url t;
                posts_url (score_range t 1 512);
                posts_url (score_range t 257 512);
                posts_url (score_range t 1 256);
                posts_url (score_above t);
                posts_url (score_nonpos t)]
        /\ count_occ string_dec (visited b') (posts_url (score_range t 1 512))
             = 1%nat).
Proof.
  split; [|split].
  - intros. apply batch_loop_truncated; assumption.
  - intros. apply batch_loop_exact; assumption.
  - eexists. split; [vm_compute; reflexivity|].
    split; vm_compute; reflexivity.
Qed.

Lemma adaptive_shrink_and_slide_witness :
  batch_loop (get_post_count 0 0 halving_client) 4 (year_tags 1 "wolf") 512 512 0 fresh
    = batch_loop (get_post_count 0 0 halving_client) 3 (year_tags 1 "wolf") 512 256 0
        (goto (posts_url (score_range (year_tags 1 "wolf") 1 512)) fresh)
  /\ batch_loop (get_post_count 0 0 halving_client) 3 (year_tags 1 "wolf") 512 256 0
       (goto (posts_url (score_range (year_tags 1 "wolf") 1 512)) fresh)
     = batch_loop (get_post_count 0 0 halving_client) 2 (year_tags 1 "wolf") 256 256
         (0 + 29935)
         (goto (posts_url (score_range (year_tags 1 "wolf") 257 512))
            (goto (posts_url (score_range (year_tags 1 "wolf") 1 512)) fresh)).
Proof.
  split.
  - apply (proj1 adaptive_shrink_and_slide
             (get_post_count 0 0 halving_client) 3%nat (year_tags 1 "wolf")
             512 512 0 fresh).
    + lia.
    + reflexivity.
  - apply (proj1 (proj2 adaptive_shrink_and_slide)
             (get_post_count 0 0 halving_client) 2%nat (year_tags 1 "wolf")
             512 256 0).
    + lia.
    + reflexivity.
Defined.

(** ** The two boundary queries *)

Lemma batched_body_sum g fuel tags b count b1 above b2 nonpos b3 :
  batch_loop g fuel tags INITIAL_BOUND_SCORE INITIAL_INTERVAL_SCORE 0
    (enter_batched tags b) = (Ret count, b1) ->
  g (score_above tags) false b1 = (Ret (Some above), b2) ->
  g (score_nonpos tags) false b2 = (Ret (Some nonpos), b3) ->
  batched_body g fuel tags b = (Ret (count + above + nonpos), b3).
Proof.
  intros Hloop Ha Hn. unfold batched_body, add_boundary.
  rewrite Hloop, Ha, Hn. reflexivity.
Qed.

(** C5, amended. After the loop the pass issues the query for
    scores above 512 and then the one for scores at or below zero, both with
    [is_batched=False], and returns the loop's count plus what the two calls
    return.  Such a call returns the count of an answer below the ceiling as
    it is; on a truncated answer it enters [get_batched_post_count] on the
    boundary expression itself and returns that nested total. *)
Theorem boundary_queries_top_level :
  forall depth fuel page tags b,
    (forall count b1 above b2 nonpos b3,
        batch_loop (get_post_count depth fuel page) fuel tags
          INITIAL_BOUND_SCORE INITIAL_INTERVAL_SCORE 0 (enter_batched tags b)
          = (Ret count, b1) ->
        get_post_count depth fuel page (score_above tags) false b1
          = (Ret (Some above), b2) ->
        get_post_count depth fuel page (score_nonpos tags) false b2
          = (Ret (Some nonpos), b3) ->
        get_batched_post_count (S depth) fuel page tags b
          = (Ret (count + above + nonpos), b3))
    /\ (forall q s dt last,
          page (visited s) (posts_url q) = Loaded dt last ->
          (dt < 750 ->
             get_post_count depth fuel page q false s
               = (Ret (Some (exact_count dt last)), goto (posts_url q) s))
          /\ (750 <= dt ->
                get_post_count (S depth) fuel page q false s
                  = returned (get_batched_post_count depth fuel page q
                                (goto (posts_url q) s)))).
Proof.
  intros depth fuel page tags b. split.
  - intros count b1 above b2 nonpos b3 Hloop Ha Hn.
    cbn [get_batched_post_count].
    apply (batched_body_sum _ _ _ _ _ _ _ _ _ _ Hloop Ha Hn).
  - intros q s dt last Hpage. split; intros Hdt.
    + apply get_post_count_loaded; assumption.
    + apply (get_post_count_truncated page depth fuel q s dt last Hpage Hdt).
Qed.

Lemma boundary_queries_witness :
  get_batched_post_count 5 4 heavy_top_client "fox" fresh
    = (Ret (4 + 160 + 2),
       snd (get_batched_post_count 5 4 heavy_top_client "fox" fresh)).
Proof.
  apply (proj1 (boundary_queries_top_level 4 4 heavy_top_client "fox" fresh)
           4 (goto (posts_url (score_range "fox" 1 512)) (enter_batched "fox" fresh))
           160
           (snd (get_post_count 4 4 heavy_top_client (score_above "fox") false
                   (goto (posts_url (score_range "fox" 1 512))
                      (enter_batched "fox" fresh))))
           2).
  - reflexivity.
  - reflexivity.
  - reflexivity.
Defined.

(** C5, with the boundary result returned as it is, does not hold: the
    truncated query for scores above 512 is partitioned in its turn. *)
Lemma truncated_boundary_is_partitioned :
  exists b',
    get_batched_post_count 5 4 heavy_top_client "fox" fresh = (Ret 166, b')
    /\ partitioned b' = [score_above "fox"; "fox"]
    /\ rev (visited b')
         = [posts_url (score_range "fox" 1 512);
            posts_url (score_above "fox");
            posts_url (score_range (score_above "fox") 1 512);
            posts_url (score_above (score_above "fox"));
            posts_url (score_nonpos (score_above "fox"));
            posts_url (score_nonpos "fox")].
Proof.
  eexists. split; [vm_compute; reflexivity|].
  split; vm_compute; reflexivity.
Qed.

(** ** The interval at zero *)

Lemma zero_interval_never_returns g tags bound :
  0 < bound ->
  forall fuel count b total b',
    batch_loop g fuel tags bound 0 count b <> (Ret total, b').
Proof.
  intros Hb. induction fuel as [|fuel IH]; intros count b total b'; simpl.
  - discriminate.
  - replace (0 <? bound) with true by (symmetry; apply Z.ltb_lt; exact Hb).
    destruct (g (score_range tags (Z.max 1 (bound - 0 + 1)) bound) true b)
      as [[[c|]|e|] b1]; try discriminate.
    + replace (bound - 0) with bound by lia. apply IH.
    + change (0 / 2) with 0. apply IH.
Qed.

Lemma zero_interval_spins g tags bound :
  0 < bound ->
  (forall q s, exists o s', g q true s = (Ret o, s')) ->
  forall fuel count b,
    fst (batch_loop g fuel tags bound 0 count b) = OutOfFuel.
Proof.
  intros Hb Hg. induction fuel as [|fuel IH]; intros count b; simpl.
  - reflexivity.
  - replace (0 <? bound) with true by (symmetry; apply Z.ltb_lt; exact Hb).
    destruct (Hg (score_range tags (Z.max 1 (bound - 0 + 1)) bound) b)
      as [o [s' Hq]].
    rewrite Hq. destruct o as [c|].
    + replace (bound - 0) with bound by lia. apply IH.
    + change (0 / 2) with 0. apply IH.
Qed.

(** The loop has no guard for an interval of zero:
    with [bound > 0] a truncated window of width one halves the interval to
    zero, and from then on neither the bound nor the interval changes, so
    no amount of fuel lets the loop return a count (nothing is undercounted,
    nothing is returned), and with a client that keeps answering it never
    ends in an error either. *)
Theorem zero_interval_loops_forever :
  forall g tags bound,
    0 < bound ->
    (forall fuel count b b',
        g (score_range tags (Z.max 1 (bound - 1 + 1)) bound) true b
          = (Ret None, b') ->
        batch_loop g (S fuel) tags bound 1 count b
          = batch_loop g fuel tags bound 0 count b')
    /\ (forall fuel count b total b',
          batch_loop g fuel tags bound 0 count b <> (Ret total, b'))
    /\ ((forall q s, exists o s', g q true s = (Ret o, s')) ->
        forall fuel count b,
          fst (batch_loop g fuel tags bound 0 count b) = OutOfFuel).
Proof.
  intros g tags bound Hb. split; [|split].
  - intros fuel count b b' Hq.
    apply (batch_loop_truncated g fuel tags bound 1 count b b' Hb Hq).
  - apply zero_interval_never_returns; exact Hb.
  - apply zero_interval_spins; exact Hb.
Qed.

Lemma zero_interval_witness :
  0 < 512
  /\ fst (batch_loop (get_post_count 0 0 saturated_client) 7 "fox" 512 0 0 fresh)
     = OutOfFuel.
Proof.
  split; [lia|].
  apply (proj2 (proj2 (zero_interval_loops_forever
                         (get_post_count 0 0 saturated_client) "fox" 512
                         ltac:(lia)))).
  intros q s. eexists; eexists. reflexivity.
Defined.

Lemma saturated_loop_out_of_fuel depth f tags :
  forall fuel bound interval count b,
    0 < bound ->
    fst (batch_loop (get_post_count depth f saturated_client) fuel tags
           bound interval count b) = OutOfFuel.
Proof.
  induction fuel as [|fuel IH]; intros bound interval count b Hb; simpl.
  - reflexivity.
  - replace (0 <? bound) with true by (symmetry; apply Z.ltb_lt; exact Hb).
    rewrite get_post_count_eq. cbn [saturated_client Z.eqb Z.ltb Z.leb Z.compare
      Pos.compare Pos.compare_cont andb].
    apply IH. exact Hb.
Qed.

(** C2. A pass whose interval reaches zero should end in an error of its
    own.  It does not: against a client that truncates every window, down to
    the windows of width one, the pass ends in no outcome at all, whatever
    the fuel and whatever the stack beyond the frame its sub-batch calls
    take. *)
Lemma degenerate_partition_never_ends :
  forall depth,
    ~ exists fuel r b',
        get_batched_post_count (S depth) fuel saturated_client "fox" fresh = (r, b')
        /\ r <> OutOfFuel.
Proof.
  intros depth [fuel [r [b' [Hrun Hr]]]].
  cbn [get_batched_post_count] in Hrun. unfold batched_body in Hrun.
  pose proof (saturated_loop_out_of_fuel depth fuel "fox" fuel
                INITIAL_BOUND_SCORE INITIAL_INTERVAL_SCORE 0
                (enter_batched "fox" fresh) ltac:(unfold INITIAL_BOUND_SCORE; lia))
    as Hloop.
  destruct (batch_loop (get_post_count depth fuel saturated_client) fuel "fox"
              INITIAL_BOUND_SCORE INITIAL_INTERVAL_SCORE 0
              (enter_batched "fox" fresh)) as [r0 b0].
  simpl in Hloop. subst r0. inversion Hrun; subst. contradiction.
Qed.

(** ** One full partitioning pass *)

Lemma tiles_nonpos hi ws : tiles hi ws -> hi <= 0 -> ws = [].
Proof.
  destruct ws as [|w ws]; [reflexivity|].
  simpl. intros [Hhi [Hlo _]] Hneg. lia.
Qed.

Lemma tiles_windows hi ws :
  tiles hi ws ->
  forall z,
    List.length (filter (in_window z) ws)
      = if (1 <=? z) && (z <=? hi) then 1%nat else 0%nat.
Proof.
  revert hi. induction ws as [|w ws IH]; intros hi Ht z; simpl in *.
  - destruct (1 <=? z) eqn:E1; destruct (z <=? hi) eqn:E2; simpl; try reflexivity.
    apply Z.leb_le in E1, E2. lia.
  - destruct Ht as [Hhi [Hlo Ht]].
    specialize (IH _ Ht z). unfold in_window at 1.
    destruct (fst (fst w) <=? z) eqn:E1; destruct (z <=? snd (fst w)) eqn:E2;
      simpl; rewrite ?IH;
      destruct (1 <=? z) eqn:E3; destruct (z <=? hi) eqn:E4;
      destruct (z <=? fst (fst w) - 1) eqn:E5; simpl; try reflexivity;
      rewrite ?Z.leb_le, ?Z.leb_gt in *; lia.
Qed.

(** The windows the loop got an exact count for tile [1 .. bound]. *)
Lemma batch_loop_tiles g tags :
  forall fuel bound interval count b total b',
    0 <= interval ->
    batch_loop g fuel tags bound interval count b = (Ret total, b') ->
    exists ws,
      tiles bound ws
      /\ total = count + sum_counts ws
      /\ Forall (fun w => exists s s',
                   g (score_range tags (fst (fst w)) (snd (fst w))) true s
                     = (Ret (Some (snd w)), s')) ws.
Proof.
  induction fuel as [|fuel IH]; intros bound interval count b total b' Hi Hrun;
    simpl in Hrun; [discriminate|].
  destruct (0 <? bound) eqn:Hb.
  - apply Z.ltb_lt in Hb.
    destruct (g (score_range tags (Z.max 1 (bound - interval + 1)) bound) true b)
      as [[[c|]|e|] b1] eqn:Hq; try discriminate.
    + assert (Hpos : interval = 0 \/ 0 < interval) by lia.
      destruct Hpos as [Hz | Hpos].
      * subst interval. replace (bound - 0) with bound in Hrun by lia.
        exfalso. exact (zero_interval_never_returns g tags bound Hb _ _ _ _ _ Hrun).
      * destruct (IH _ _ _ _ _ _ Hi Hrun) as [ws [Ht [Hsum Hall]]].
        exists ((Z.max 1 (bound - interval + 1), bound, c) :: ws).
        split; [|split].
        -- simpl. split; [reflexivity|]. split; [lia|].
           assert (Hcase : bound - interval <= 0 \/ 1 <= bound - interval) by lia.
           destruct Hcase as [Hlow | Hhigh].
           ++ rewrite (tiles_nonpos _ _ Ht Hlow). simpl. lia.
           ++ replace (Z.max 1 (bound - interval + 1) - 1) with (bound - interval)
                by lia.
              exact Ht.
        -- simpl. lia.
        -- constructor; [|exact Hall]. simpl. exists b, b1. exact Hq.
    + assert (Hhalf : 0 <= interval / 2) by (Z.div_mod_to_equations; lia).
      apply (IH _ _ _ _ _ _ Hhalf Hrun).
  - apply Z.ltb_ge in Hb. inversion Hrun; subst.
    exists []. simpl. split; [exact Hb|]. split; [lia|constructor].
Qed.

(** With no timeout and no truncated window of width one, the loop ends. *)
Lemma batch_loop_terminates g tags :
  (forall lo hi s, 1 <= lo -> hi <= INITIAL_BOUND_SCORE ->
     exists o s', g (score_range tags lo hi) true s = (Ret o, s')) ->
  (forall v s s', 1 <= v <= INITIAL_BOUND_SCORE ->
     g (score_range tags v v) true s <> (Ret None, s')) ->
  forall fuel bound interval count b,
    bound <= INITIAL_BOUND_SCORE ->
    1 <= interval ->
    (Z.to_nat bound + Z.to_nat interval < fuel)%nat ->
    exists total b', batch_loop g fuel tags bound interval count b = (Ret total, b').
Proof.
  intros Hans Hone.
  induction fuel as [|fuel IH]; intros bound interval count b Hb Hi Hfuel;
    [lia|].
  simpl. destruct (0 <? bound) eqn:Hpos.
  - apply Z.ltb_lt in Hpos.
    destruct (Hans (Z.max 1 (bound - interval + 1)) bound b ltac:(lia) Hb)
      as [o [s' Hq]].
    rewrite Hq. destruct o as [c|].
    + apply IH; lia.
    + assert (Hwide : interval <> 1).
      { intros ->. replace (Z.max 1 (bound - 1 + 1)) with bound in Hq by lia.
        exact (Hone bound b s' ltac:(lia) Hq). }
      apply IH; [lia| Z.div_mod_to_equations; lia |].
      assert (interval / 2 < interval) by (Z.div_mod_to_equations; lia).
      assert (0 <= interval / 2) by (Z.div_mod_to_equations; lia).
      lia.
  - eexists; eexists; reflexivity.
Qed.

Lemma single_window_is_not_full (x : string) :
  String.eqb (x ++ ".." ++ x) "1..512" = false.
Proof.
  destruct x as [|a [|b [|c [|d [|e [|f x]]]]]]; simpl;
    repeat (match goal with
            | |- context [Ascii.eqb ?v ?k] => is_var v; destruct (Ascii.eqb v k)
            end; simpl);
    try reflexivity.
  destruct x; reflexivity.
Qed.

Lemma halving_client_single_window h v :
  halving_client h (posts_url (score_range (year_tags 1 "wolf") v v))
    <> Loaded 750 (mkListing 75 None).
Proof.
  unfold halving_client, score_range.
  change (String.eqb
            (posts_url (year_tags 1 "wolf" ++ " score:" ++ str v ++ ".." ++ str v))
            (posts_url (year_tags 1 "wolf"))) with false.
  change (String.eqb
            (posts_url (year_tags 1 "wolf" ++ " score:" ++ str v ++ ".." ++ str v))
            (posts_url (year_tags 1 "wolf" ++ " score:" ++ str 1 ++ ".." ++ str 512)))
    with (String.eqb (str v ++ ".." ++ str v) "1..512").
  rewrite single_window_is_not_full.
  repeat match goal with
         | |- context [if ?c then _ else _] => destruct c
         end; discriminate.
Qed.

(** ** What the sub-queries select *)

Lemma strip_prefix_common p q s : strip_prefix (p ++ q) (p ++ s) = strip_prefix q s.
Proof.
  induction p as [|a p IH]; simpl; [reflexivity|].
  rewrite Ascii.eqb_refl. exact IH.
Qed.

Lemma whole_number_str a : 0 <= a -> whole_number (str a) = Some a.
Proof.
  intros Ha. unfold whole_number.
  rewrite <- (append_empty (str a)), (read_digits_str a "" Ha I). reflexivity.
Qed.

Lemma score_term_range lo hi :
  0 <= lo -> 0 <= hi ->
  score_term ("score:" ++ str lo ++ ".." ++ str hi)
    = Some (fun z => (lo <=? z) && (z <=? hi)).
Proof.
  intros Hlo Hhi. unfold score_term.
  rewrite (strip_prefix_app "score:" (str lo ++ ".." ++ str hi)).
  rewrite (read_digits_str lo (".." ++ str hi) Hlo eq_refl).
  cbn [append]. rewrite (whole_number_str hi Hhi). reflexivity.
Qed.

Lemma selects_range tags lo hi z :
  0 <= lo -> 0 <= hi ->
  selects tags (score_range tags lo hi) z = (lo <=? z) && (z <=? hi).
Proof.
  intros Hlo Hhi. unfold selects, score_range.
  rewrite (strip_prefix_common tags " " (" score:" ++ str lo ++ ".." ++ str hi)).
  change (strip_prefix " " (" score:" ++ str lo ++ ".." ++ str hi))
    with (Some ("score:" ++ str lo ++ ".." ++ str hi)).
  cbv beta iota. rewrite (score_term_range lo hi Hlo Hhi). reflexivity.
Qed.

Lemma selects_above tags z : selects tags (score_above tags) z = (512 <? z).
Proof.
  unfold selects, score_above.
  rewrite (strip_prefix_common tags " " (" score:>" ++ str INITIAL_BOUND_SCORE)).
  reflexivity.
Qed.

Lemma selects_nonpos tags z : selects tags (score_nonpos tags) z = (z <=? 0).
Proof.
  unfold selects, score_nonpos.
  rewrite (strip_prefix_common tags " " " score:<=0").
  reflexivity.
Qed.

Lemma tiles_positive hi ws :
  tiles hi ws -> Forall (fun w => 1 <= fst (fst w) <= snd (fst w)) ws.
Proof.
  revert hi. induction ws as [|w ws IH]; intros hi Ht; constructor.
  - destruct Ht as [Hhi [Hlo _]]. lia.
  - destruct Ht as [_ [_ Ht]]. exact (IH _ Ht).
Qed.

Lemma windows_selected tags z ws :
  Forall (fun w => 1 <= fst (fst w) <= snd (fst w)) ws ->
  List.length
    (filter (fun q => selects tags q z)
       (map (fun w => score_range tags (fst (fst w)) (snd (fst w))) ws))
  = List.length (filter (in_window z) ws).
Proof.
  induction 1 as [|w ws Hw Hws IH]; [reflexivity|].
  cbn [map filter]. rewrite selects_range by lia.
  unfold in_window at 1.
  destruct ((fst (fst w) <=? z) && (z <=? snd (fst w))); cbn [List.length];
    rewrite IH; reflexivity.
Qed.

(** The windows of a pass and its two boundary queries, read as the site
    reads them, select every score exactly once. *)
Lemma sub_queries_cover_once tags ws :
  tiles INITIAL_BOUND_SCORE ws ->
  forall z,
    List.length (filter (fun q => selects tags q z) (sub_queries tags ws)) = 1%nat.
Proof.
  intros Ht z. unfold sub_queries.
  rewrite filter_app, length_app, (windows_selected tags z ws (tiles_positive _ _ Ht)).
  rewrite (tiles_windows _ _ Ht z). cbn [filter].
  rewrite selects_above, selects_nonpos. unfold INITIAL_BOUND_SCORE.
  destruct (1 <=? z) eqn:E1; destruct (z <=? 512) eqn:E2;
    destruct (512 <? z) eqn:E3; destruct (z <=? 0) eqn:E4; simpl;
    try reflexivity;
    rewrite ?Z.leb_le, ?Z.leb_gt, ?Z.ltb_lt, ?Z.ltb_ge in *; lia.
Qed.

(** Queries that select every score exactly once count every post once. *)
Lemma selected_once_sum tags queries :
  (forall z,
      List.length (filter (fun q => selects tags q z) queries) = 1%nat) ->
  forall posts,
    fold_right (fun q acc => count_selected posts tags q + acc) 0 queries
      = Z.of_nat (List.length posts).
Proof.
  intros Hcover. induction posts as [|s posts IH].
  - clear Hcover. induction queries as [|q queries IHq]; [reflexivity|].
    cbn [fold_right]. rewrite IHq. reflexivity.
  - assert (Hstep : forall qs,
              fold_right (fun q acc => count_selected (s :: posts) tags q + acc) 0 qs
                = Z.of_nat (List.length (filter (fun q => selects tags q s) qs))
                  + fold_right (fun q acc => count_selected posts tags q + acc) 0 qs).
    { induction qs as [|q qs IHq]; [reflexivity|].
      cbn [fold_right filter]. rewrite IHq. unfold count_selected at 1 3.
      cbn [filter]. destruct (selects tags q s); cbn [List.length];
        rewrite ?Nat2Z.inj_succ; lia. }
    rewrite Hstep, IH, Hcover. cbn [List.length]. lia.
Qed.

Lemma sub_queries_sum tags posts ws :
  fold_right (fun q acc => count_selected posts tags q + acc) 0 (sub_queries tags ws)
    = fold_right
        (fun w acc =>
           count_selected posts tags (score_range tags (fst (fst w)) (snd (fst w)))
           + acc) 0 ws
      + count_selected posts tags (score_above tags)
      + count_selected posts tags (score_nonpos tags).
Proof.
  unfold sub_queries. induction ws as [|w ws IH]; cbn [map app fold_right].
  - lia.
  - rewrite IH. lia.
Qed.

Lemma true_counts_sum tags posts ws :
  Forall (fun w => snd w
                   = count_selected posts tags
                       (score_range tags (fst (fst w)) (snd (fst w)))) ws ->
  sum_counts ws
    = fold_right
        (fun w acc =>
           count_selected posts tags (score_range tags (fst (fst w)) (snd (fst w)))
           + acc) 0 ws.
Proof.
  induction 1 as [|w ws Hw Hws IH]; [reflexivity|].
  cbn [sum_counts fold_right]. fold (sum_counts ws). rewrite IH, Hw. reflexivity.
Qed.

(** C1. Every pass of [get_batched_post_count] that returns has obtained
    exact counts for windows that run downwards from 512 to 1 without gap or
    overlap; these windows and the two boundary queries, each read as the
    site reads the text sent to it, select every integer score exactly once.
    The total returned is the sum of the windows' counts and the two boundary
    counts, each of them returned by the client for that sub-query, and it is
    the number of matching posts whenever each of these counts is the true
    count of its sub-query.  The pass does return when the client does not
    time out, does not truncate a window of width one and answers the two
    boundary queries below the ceiling. *)
Theorem partition_covers_scores_once :
  forall page tags b,
    (forall depth fuel total b',
        get_batched_post_count depth fuel page tags b = (Ret total, b') ->
        exists rest ws above nonpos,
          depth = S rest
          /\ tiles INITIAL_BOUND_SCORE ws
          /\ (forall z,
                List.length
                  (filter (fun q => selects tags q z) (sub_queries tags ws))
                = 1%nat)
          /\ total = sum_counts ws + above + nonpos
          /\ Forall (fun w => exists s s',
                       get_post_count rest fuel page
                         (score_range tags (fst (fst w)) (snd (fst w))) true s
                         = (Ret (Some (snd w)), s')) ws
          /\ (exists s s',
                get_post_count rest fuel page (score_above tags) false s
                  = (Ret (Some above), s'))
          /\ (exists s s',
                get_post_count rest fuel page (score_nonpos tags) false s
                  = (Ret (Some nonpos), s'))
          /\ (forall posts,
                Forall (fun w =>
                          snd w = count_selected posts tags
                                    (score_range tags (fst (fst w)) (snd (fst w))))
                  ws ->
                above = count_selected posts tags (score_above tags) ->
                nonpos = count_selected posts tags (score_nonpos tags) ->
                total = Z.of_nat (List.length posts)))
    /\ ((forall h lo hi, 1 <= lo -> hi <= INITIAL_BOUND_SCORE ->
           page h (posts_url (score_range tags lo hi)) <> TimedOut) ->
        (forall h v dt last, 1 <= v <= INITIAL_BOUND_SCORE ->
           page h (posts_url (score_range tags v v)) = Loaded dt last -> dt < 750) ->
        (forall h, exists dt last,
           page h (posts_url (score_above tags)) = Loaded dt last /\ dt < 750) ->
        (forall h, exists dt last,
           page h (posts_url (score_nonpos tags)) = Loaded dt last /\ dt < 750) ->
        forall depth,
        exists fuel total b',
          get_batched_post_count (S depth) fuel page tags b = (Ret total, b')).
Proof.
  intros page tags b. split.
  - intros depth fuel total b' Hrun.
    destruct depth as [|rest]; [discriminate|].
    cbn [get_batched_post_count] in Hrun. unfold batched_body in Hrun.
    destruct (batch_loop (get_post_count rest fuel page) fuel tags
                INITIAL_BOUND_SCORE INITIAL_INTERVAL_SCORE 0
                (enter_batched tags b)) as [[count| e |] b1] eqn:Hloop;
      try discriminate.
    unfold add_boundary in Hrun.
    destruct (get_post_count rest fuel page (score_above tags) false b1)
      as [[[above|]|e|] b2] eqn:Ha; try discriminate.
    destruct (get_post_count rest fuel page (score_nonpos tags) false b2)
      as [[[nonpos|]|e|] b3] eqn:Hn; try discriminate.
    inversion Hrun; subst.
    assert (Hi : 0 <= INITIAL_INTERVAL_SCORE)
      by (unfold INITIAL_INTERVAL_SCORE; lia).
    destruct (batch_loop_tiles _ _ _ _ _ _ _ _ _ Hi Hloop)
      as [ws [Ht [Hsum Hall]]].
    exists rest, ws, above, nonpos.
    split; [reflexivity|]. split; [exact Ht|].
    split; [apply sub_queries_cover_once; exact Ht|].
    split; [lia|]. split; [exact Hall|].
    split; [exists b1, b2; exact Ha|]. split; [exists b2, b'; exact Hn|].
    intros posts Htrue Habove Hnonpos.
    rewrite <- (selected_once_sum tags (sub_queries tags ws)
                  (sub_queries_cover_once tags ws Ht) posts).
    rewrite sub_queries_sum, <- (true_counts_sum tags posts ws Htrue).
    lia.
  - intros Hlive Hone Habove Hnonpos depth.
    set (g := get_post_count depth 1025 page).
    assert (Hans : forall lo hi s, 1 <= lo -> hi <= INITIAL_BOUND_SCORE ->
              exists o s', g (score_range tags lo hi) true s = (Ret o, s')).
    { intros lo hi s Hlo Hhi. unfold g. rewrite get_post_count_eq.
      pose proof (Hlive (visited s) lo hi Hlo Hhi) as Hl.
      destruct (page (visited s) (posts_url (score_range tags lo hi)))
        as [|dt last]; [contradiction|].
      destruct (dt =? 0); [eexists; eexists; reflexivity|].
      destruct ((1 <? dt) && (750 <=? dt)); eexists; eexists; reflexivity. }
    assert (Hsingle : forall v s s', 1 <= v <= INITIAL_BOUND_SCORE ->
              g (score_range tags v v) true s <> (Ret None, s')).
    { intros v s s' Hv. unfold g.
      pose proof (Hlive (visited s) v v ltac:(lia) ltac:(lia)) as Hl.
      destruct (page (visited s) (posts_url (score_range tags v v)))
        as [|dt last] eqn:Hp; [contradiction|].
      rewrite (get_post_count_loaded page depth 1025 _ true s dt last Hp
                 (Hone _ _ _ _ Hv Hp)).
      discriminate. }
    destruct (batch_loop_terminates g tags Hans Hsingle 1025
                INITIAL_BOUND_SCORE INITIAL_INTERVAL_SCORE 0 (enter_batched tags b)
                ltac:(lia)
                ltac:(unfold INITIAL_INTERVAL_SCORE; lia)
                ltac:(unfold INITIAL_BOUND_SCORE, INITIAL_INTERVAL_SCORE; lia))
      as [count [b1 Hloop]].
    destruct (Habove (visited b1)) as [dta [la [Hpa Hdta]]].
    destruct (Hnonpos (visited (goto (posts_url (score_above tags)) b1)))
      as [dtn [ln [Hpn Hdtn]]].
    exists 1025%nat, (count + exact_count dta la + exact_count dtn ln),
      (goto (posts_url (score_nonpos tags)) (goto (posts_url (score_above tags)) b1)).
    cbn [get_batched_post_count].
    apply (batched_body_sum _ _ _ _ count b1 _
             (goto (posts_url (score_above tags)) b1)).
    + exact Hloop.
    + apply get_post_count_loaded; assumption.
    + apply get_post_count_loaded; assumption.
Qed.

Lemma partition_covers_scores_once_witness :
  (exists rest ws above nonpos,
      3%nat = S rest
      /\ tiles INITIAL_BOUND_SCORE ws
      /\ (forall z,
            List.length
              (filter (fun q => selects (year_tags 1 "wolf") q z)
                 (sub_queries (year_tags 1 "wolf") ws))
            = 1%nat)
      /\ 67372 = sum_counts ws + above + nonpos
      /\ Forall (fun w => exists s s',
                   get_post_count rest 8 halving_client
                     (score_range (year_tags 1 "wolf") (fst (fst w)) (snd (fst w)))
                     true s = (Ret (Some (snd w)), s')) ws
      /\ (exists s s',
            get_post_count rest 8 halving_client (score_above (year_tags 1 "wolf"))
              false s = (Ret (Some above), s'))
      /\ (exists s s',
            get_post_count rest 8 halving_client (score_nonpos (year_tags 1 "wolf"))
              false s = (Ret (Some nonpos), s'))
      /\ (forall posts,
            Forall (fun w =>
                      snd w = count_selected posts (year_tags 1 "wolf")
                                (score_range (year_tags 1 "wolf")
                                   (fst (fst w)) (snd (fst w))))
              ws ->
            above = count_selected posts (year_tags 1 "wolf")
                      (score_above (year_tags 1 "wolf")) ->
            nonpos = count_selected posts (year_tags 1 "wolf")
                       (score_nonpos (year_tags 1 "wolf")) ->
            67372 = Z.of_nat (List.length posts)))
  /\ (exists fuel total b',
        get_batched_post_count 3 fuel halving_client (year_tags 1 "wolf") fresh
          = (Ret total, b')).
Proof.
  destruct (partition_covers_scores_once halving_client (year_tags 1 "wolf") fresh)
    as [Hpass Hends].
  split.
  - apply (Hpass 3%nat 8%nat 67372
             (snd (get_batched_post_count 3 8 halving_client
                     (year_tags 1 "wolf") fresh))).
    vm_compute. reflexivity.
  - apply Hends.
    + intros h lo hi _ _. unfold halving_client.
      repeat match goal with
             | |- context [if ?c then _ else _] => destruct c
             end; discriminate.
    + intros h v dt last _ Hp.
      pose proof (halving_client_single_window h v) as Hne.
      unfold halving_client in Hp, Hne.
      repeat match type of Hp with
             | context [if ?c then _ else _] => destruct c
             end;
        try (exfalso; apply Hne; reflexivity);
        inversion Hp; subst; lia.
    + intros h. exists 1, (mkListing 7 None). split; [reflexivity|lia].
    + intros h. exists 0, (mkListing 0 None). split; [reflexivity|lia].
Defined.

(** ** Dicts, the reader and the writer *)

Lemma assoc_get_set k k' v l :
  assoc_get k (assoc_set k' v l)
    = if String.eqb k k' then Some v else assoc_get k l.
Proof.
  induction l as [|[k0 v0] l IH]; simpl.
  - destruct (String.eqb k k'); reflexivity.
  - destruct (String.eqb k' k0) eqn:E0; simpl.
    + apply String.eqb_eq in E0. subst k0.
      destruct (String.eqb k k'); reflexivity.
    + destruct (String.eqb k k0) eqn:E1.
      * apply String.eqb_eq in E1. subst k0.
        rewrite String.eqb_sym in E0. rewrite E0. reflexivity.
      * exact IH.
Qed.

Lemma assoc_set_set k v v' l :
  assoc_set k v' (assoc_set k v l) = assoc_set k v' l.
Proof.
  induction l as [|[k0 v0] l IH]; simpl.
  - rewrite String.eqb_refl. reflexivity.
  - destruct (String.eqb k k0) eqn:E; simpl; rewrite E; [reflexivity|].
    rewrite IH. reflexivity.
Qed.

Lemma assoc_set_keys k v l :
  assoc_get k l <> None -> map fst (assoc_set k v l) = map fst l.
Proof.
  induction l as [|[k0 v0] l IH]; simpl; intros Hin.
  - contradiction.
  - destruct (String.eqb k k0); simpl; [reflexivity|].
    rewrite (IH Hin). reflexivity.
Qed.

Lemma mem_In k l : mem k l = true <-> In k l.
Proof.
  unfold mem. rewrite existsb_exists. split.
  - intros [x [Hin Heq]]. apply String.eqb_eq in Heq. subst. exact Hin.
  - intros Hin. exists k. split; [exact Hin|apply String.eqb_refl].
Qed.

Lemma dict_to_list_fits fieldnames row :
  dict_to_list fieldnames row
    = if fits fieldnames row then Ret (line_of fieldnames row)
      else Raise ValueError.
Proof.
  unfold dict_to_list, fits, line_of, cell.
  destruct (forallb (fun k => mem k fieldnames) (keys row));
    destruct (rest row); reflexivity.
Qed.

Lemma fits_own_keys row : rest row = None -> fits (keys row) row = true.
Proof.
  intros Hrest. unfold fits. rewrite Hrest, andb_true_r.
  apply forallb_forall. intros k Hk. apply mem_In. exact Hk.
Qed.

Lemma writerows_fit fieldnames :
  forall data out,
    Forall (fun d => fits fieldnames d = true) data ->
    writerows fieldnames data out
      = (Ret tt, (out ++ map (line_of fieldnames) data)%list).
Proof.
  induction data as [|d data IH]; intros out Hall; simpl.
  - rewrite app_nil_r. reflexivity.
  - inversion Hall as [|d' data' Hd Hrest]; subst.
    rewrite dict_to_list_fits, Hd, (IH _ Hrest), <- app_assoc. reflexivity.
Qed.

Lemma writerows_misfit fieldnames :
  forall before d after out,
    Forall (fun d => fits fieldnames d = true) before ->
    fits fieldnames d = false ->
    writerows fieldnames (before ++ d :: after)%list out
      = (Raise ValueError, (out ++ map (line_of fieldnames) before)%list).
Proof.
  induction before as [|d0 before IH]; intros d after out Hall Hd; simpl.
  - rewrite dict_to_list_fits, Hd, app_nil_r. reflexivity.
  - inversion Hall as [|d' data' Hd0 Hrest]; subst.
    rewrite dict_to_list_fits, Hd0, (IH _ _ _ Hrest Hd), <- app_assoc.
    reflexivity.
Qed.

(** ** The scan of the stored records *)

Lemma tag_text_subscript row t :
  tag_text row = Some t -> subscript row "Tag" = Ret (PStr t).
Proof.
  unfold tag_text, subscript.
  destruct (dict_get "Tag" row) as [[s|z|]|]; intros H; inversion H; reflexivity.
Qed.

Lemma tag_text_set t d : tag_text (dict_set "Tag" (PStr t) d) = Some t.
Proof.
  unfold tag_text, dict_get, dict_set. simpl.
  rewrite assoc_get_set, String.eqb_refl. reflexivity.
Qed.

Lemma keys_set_tag t d :
  tag_text d <> None -> keys (dict_set "Tag" (PStr t) d) = keys d.
Proof.
  intros Ht. unfold keys, dict_set. simpl. apply assoc_set_keys.
  unfold tag_text, dict_get in Ht.
  destruct (assoc_get "Tag" (items d)); [discriminate|contradiction].
Qed.

Lemma last_match_from q rows t :
  fold_left (later_match q) rows (Some t)
    = match fold_left (later_match q) rows None with
      | Some t' => Some t'
      | None => Some t
      end.
Proof.
  revert t. induction rows as [|r rows IH]; intros t; simpl; [reflexivity|].
  unfold later_match at 2 4.
  destruct (matches q r) eqn:Hm.
  - unfold matches in Hm. destruct (tag_text r) as [t1|]; [|discriminate].
    rewrite (IH t1).
    destruct (fold_left (later_match q) rows None); reflexivity.
  - apply IH.
Qed.

Lemma scan_rows_spec q :
  forall rows new_row data overwrote t0,
    tag_text new_row = Some t0 ->
    lower t0 = lower q ->
    Forall (fun r => tag_text r <> None) rows ->
    scan_rows rows new_row data overwrote
      = Ret (retag (fold_left (later_match q) rows None) new_row,
             (data ++ map (fun r => if matches q r then NewRow else Stored r) rows)%list,
             overwrote || existsb (matches q) rows).
Proof.
  induction rows as [|r rows IH]; intros new_row data overwrote t0 Ht0 Hlow Hall;
    simpl.
  - rewrite app_nil_r, orb_false_r. reflexivity.
  - inversion Hall as [|r' rows' Hr Hrows]; subst.
    destruct (tag_text r) as [t|] eqn:Ht; [|contradiction].
    rewrite (tag_text_subscript _ _ Ht), (tag_text_subscript _ _ Ht0). simpl.
    assert (Hmr : matches q r = String.eqb (lower t) (lower q))
      by (unfold matches; rewrite Ht; reflexivity).
    unfold later_match at 2. rewrite Hmr, Ht, Hlow.
    destruct (String.eqb (lower t) (lower q)) eqn:Hm.
    + apply String.eqb_eq in Hm.
      rewrite (IH _ _ _ t (tag_text_set t new_row) Hm Hrows).
      rewrite last_match_from, <- app_assoc, orb_true_r. simpl.
      destruct (fold_left (later_match q) rows None) as [t'|]; simpl;
        [|reflexivity].
      unfold dict_set. simpl. rewrite assoc_set_set. reflexivity.
    + rewrite (IH _ _ _ t0 Ht0 Hlow Hrows), <- app_assoc. reflexivity.
Qed.

Lemma last_match_none q rows :
  existsb (matches q) rows = false -> last_match q rows = None.
Proof.
  unfold last_match.
  induction rows as [|r rows IH]; simpl; [reflexivity|].
  intros H. apply orb_false_elim in H. destruct H as [Hr Hrows].
  unfold later_match at 2. rewrite Hr. apply IH. exact Hrows.
Qed.

(** [update_csv_file], once the scan is known to go through. *)
Lemma update_csv_file_spec new_row q file :
  tag_text new_row = Some q ->
  Forall (fun r => tag_text r <> None) (stored file) ->
  update_csv_file new_row file
    = (fst (writerows (keys new_row) (new_data q new_row (stored file))
              [keys new_row]),
       Some (snd (writerows (keys new_row) (new_data q new_row (stored file))
                    [keys new_row]))).
Proof.
  intros Hq Hall. unfold update_csv_file. fold (stored file).
  rewrite (scan_rows_spec q _ _ _ _ q Hq eq_refl Hall). simpl.
  fold (last_match q (stored file)). fold (final_row q new_row (stored file)).
  assert (Hkeys : keys (final_row q new_row (stored file)) = keys new_row).
  { unfold final_row. destruct (last_match q (stored file)); simpl;
      [apply keys_set_tag; rewrite Hq; discriminate | reflexivity]. }
  rewrite Hkeys.
  assert (Hdata :
    map (deref (final_row q new_row (stored file)))
      (if existsb (matches q) (stored file)
       then map (fun r => if matches q r then NewRow else Stored r) (stored file)
       else (map (fun r => if matches q r then NewRow else Stored r) (stored file)
             ++ [NewRow])%list)
    = new_data q new_row (stored file)).
  { unfold new_data.
    destruct (existsb (matches q) (stored file)) eqn:Hex.
    - rewrite app_nil_r, map_map. apply map_ext. intros r.
      destruct (matches q r); reflexivity.
    - rewrite map_app, map_map. simpl.
      unfold final_row at 2. rewrite (last_match_none q _ Hex). simpl.
      f_equal. apply map_ext. intros r.
      destruct (matches q r); reflexivity. }
  rewrite Hdata.
  destruct (writerows (keys new_row) (new_data q new_row (stored file))
              [keys new_row]) as [r out].
  reflexivity.
Qed.

(** ** The upsert *)

Lemma later_match_skip q rows acc :
  Forall (fun r => matches q r = false) rows ->
  fold_left (later_match q) rows acc = acc.
Proof.
  revert acc. induction rows as [|r rows IH]; intros acc Hall; simpl;
    [reflexivity|].
  inversion Hall as [|r' rows' Hr Hrows]; subst.
  unfold later_match at 2. rewrite Hr. apply IH. exact Hrows.
Qed.

Lemma existsb_none q rows :
  Forall (fun r => matches q r = false) rows -> existsb (matches q) rows = false.
Proof.
  induction rows as [|r rows IH]; intros Hall; simpl; [reflexivity|].
  inversion Hall as [|r' rows' Hr Hrows]; subst.
  rewrite Hr, (IH Hrows). reflexivity.
Qed.

Lemma keep_unmatched q (row' : dict) rows :
  Forall (fun r => matches q r = false) rows ->
  map (fun r => if matches q r then row' else r) rows = rows.
Proof.
  induction rows as [|r rows IH]; intros Hall; simpl; [reflexivity|].
  inversion Hall as [|r' rows' Hr Hrows]; subst.
  rewrite Hr, (IH Hrows). reflexivity.
Qed.

Lemma other_tag_unmatched q r :
  (exists t, tag_text r = Some t /\ lower t <> lower q) -> matches q r = false.
Proof.
  intros [t [Ht Hne]]. unfold matches. rewrite Ht.
  apply String.eqb_neq. exact Hne.
Qed.

Lemma cell_retag k t new_row :
  cell k (dict_set "Tag" (PStr t) new_row)
    = if String.eqb k "Tag" then t else cell k new_row.
Proof.
  unfold cell, dict_get, dict_set. simpl. rewrite assoc_get_set.
  destruct (String.eqb k "Tag"); reflexivity.
Qed.

Lemma cell_tag new_row q :
  tag_text new_row = Some q ->
  forall k, cell k new_row = if String.eqb k "Tag" then q else cell k new_row.
Proof.
  intros Hq k. destruct (String.eqb k "Tag") eqn:E; [|reflexivity].
  apply String.eqb_eq in E. subst k. unfold cell. unfold tag_text in Hq.
  destruct (dict_get "Tag" new_row) as [[s|z|]|]; inversion Hq; reflexivity.
Qed.

(** The new data when exactly the record [r] is keyed like [q]. *)
Lemma new_data_found q new_row before r after t :
  Forall (fun x => matches q x = false) (before ++ after) ->
  tag_text r = Some t -> lower t = lower q ->
  new_data q new_row (before ++ r :: after)
    = (before ++ dict_set "Tag" (PStr t) new_row :: after)%list.
Proof.
  intros Hall Ht Hlow.
  apply Forall_app in Hall. destruct Hall as [Hb Ha].
  assert (Hr : matches q r = true)
    by (unfold matches; rewrite Ht; apply String.eqb_eq; exact Hlow).
  assert (Hlast : final_row q new_row (before ++ r :: after)
                  = dict_set "Tag" (PStr t) new_row).
  { unfold final_row, last_match. rewrite fold_left_app. simpl.
    rewrite (later_match_skip q before None Hb).
    unfold later_match at 2. rewrite Hr, Ht.
    rewrite (later_match_skip q after _ Ha). reflexivity. }
  unfold new_data. rewrite Hlast, map_app. simpl.
  rewrite Hr, (keep_unmatched q _ before Hb), (keep_unmatched q _ after Ha).
  rewrite existsb_app. simpl. rewrite Hr, orb_true_r, app_nil_r. reflexivity.
Qed.

Lemma new_data_missing q new_row rows :
  Forall (fun x => matches q x = false) rows ->
  new_data q new_row rows = (rows ++ [new_row])%list.
Proof.
  intros Hall. unfold new_data.
  rewrite (keep_unmatched q _ rows Hall), (existsb_none q rows Hall).
  reflexivity.
Qed.

(** C6, amended. Let the stored records other than at most one carry tag
    texts that differ from the new row's beyond letter case, and no column
    outside the new row's.  If one stored record is keyed like the new row,
    the rewritten table has, in that record's place, the record's own stored
    tag text with the new row's values in every other column; if none is,
    the new row is written last, with its tag text as given.  The other
    records keep their place. *)
Theorem upsert_keeps_casing_or_appends :
  forall new_row q file before after,
    tag_text new_row = Some q ->
    rest new_row = None ->
    Forall (fun r => (exists t, tag_text r = Some t /\ lower t <> lower q)
                     /\ fits (keys new_row) r = true) (before ++ after) ->
    (forall r t,
        stored file = (before ++ r :: after)%list ->
        tag_text r = Some t ->
        lower t = lower q ->
        update_csv_file new_row file
          = (Ret tt,
             Some (keys new_row
                   :: map (line_of (keys new_row)) before
                   ++ map (fun k => if String.eqb k "Tag" then t
                                    else cell k new_row) (keys new_row)
                   :: map (line_of (keys new_row)) after)%list))
    /\ (stored file = (before ++ after)%list ->
        update_csv_file new_row file
          = (Ret tt,
             Some (keys new_row
                   :: map (line_of (keys new_row)) (before ++ after)
                   ++ [map (fun k => if String.eqb k "Tag" then q
                                     else cell k new_row) (keys new_row)])%list)).
Proof.
  intros new_row q file before after Hq Hrest Hall.
  assert (Hun : Forall (fun x => matches q x = false) (before ++ after)).
  { eapply Forall_impl; [|exact Hall]. intros r [Hr _].
    apply other_tag_unmatched. exact Hr. }
  assert (Htag : Forall (fun x => tag_text x <> None) (before ++ after)).
  { eapply Forall_impl; [|exact Hall]. intros r [[t [Ht _]] _].
    rewrite Ht. discriminate. }
  assert (Hfit : Forall (fun x => fits (keys new_row) x = true) (before ++ after)).
  { eapply Forall_impl; [|exact Hall]. intros r [_ Hr]. exact Hr. }
  split.
  - intros r t Hfile Ht Hlow.
    assert (Hstored : Forall (fun x => tag_text x <> None) (stored file)).
    { rewrite Hfile. apply Forall_app in Htag. destruct Htag as [Hb Ha].
      apply Forall_app. split; [exact Hb|].
      constructor; [rewrite Ht; discriminate | exact Ha]. }
    rewrite (update_csv_file_spec new_row q file Hq Hstored), Hfile.
    rewrite (new_data_found q new_row before r after t Hun Ht Hlow).
    rewrite writerows_fit.
    + simpl. rewrite map_app. simpl. unfold line_of at 2.
      rewrite (map_ext _ _ (fun k => cell_retag k t new_row)). reflexivity.
    + apply Forall_app in Hfit. destruct Hfit as [Hb Ha].
      apply Forall_app. split; [exact Hb|]. constructor; [|exact Ha].
      rewrite <- (keys_set_tag t new_row) by (rewrite Hq; discriminate).
      apply fits_own_keys. exact Hrest.
  - intros Hfile.
    assert (Hstored : Forall (fun x => tag_text x <> None) (stored file))
      by (rewrite Hfile; exact Htag).
    rewrite (update_csv_file_spec new_row q file Hq Hstored), Hfile.
    rewrite (new_data_missing q new_row _ Hun).
    rewrite writerows_fit.
    + simpl. rewrite map_app. simpl. unfold line_of at 2.
      rewrite (map_ext _ _ (cell_tag new_row q Hq)). reflexivity.
    + apply Forall_app. split; [exact Hfit|].
      constructor; [apply fits_own_keys; exact Hrest | constructor].
Qed.

Lemma upsert_keeps_casing_witness :
  update_csv_file (year_row "Fox" same_count) (Some sample_table)
    = (Ret tt,
       Some [keys (year_row "Fox" same_count);
             "fox" :: repeat "3" 18;
             "wolf" :: (repeat "" 17 ++ ["9"])%list])
  /\ update_csv_file (year_row "Cat" same_count) (Some sample_table)
     = (Ret tt,
        Some [keys (year_row "Cat" same_count);
              "fox" :: (repeat "" 17 ++ ["7"])%list;
              "wolf" :: (repeat "" 17 ++ ["9"])%list;
              "Cat" :: repeat "3" 18]).
Proof.
  split.
  - apply (proj1 (upsert_keeps_casing_or_appends
                    (year_row "Fox" same_count) "Fox" (Some sample_table)
                    [] [read_row ["Tag"; "2024"] ["wolf"; "9"]]
                    eq_refl eq_refl
                    ltac:(repeat constructor;
                          exists "wolf"; split;
                          [reflexivity | vm_compute; discriminate]))
             (read_row ["Tag"; "2024"] ["fox"; "7"]) "fox").
    + reflexivity.
    + reflexivity.
    + reflexivity.
  - apply (proj2 (upsert_keeps_casing_or_appends
                    (year_row "Cat" same_count) "Cat" (Some sample_table)
                    [read_row ["Tag"; "2024"] ["fox"; "7"];
                     read_row ["Tag"; "2024"] ["wolf"; "9"]] []
                    eq_refl eq_refl
                    ltac:(repeat constructor;
                          [exists "fox" | exists "wolf"]; split;
                          solve [reflexivity | vm_compute; discriminate]))).
    reflexivity.
Defined.

(** ** Columns of the rewritten table *)

Lemma final_row_fits q new_row rows :
  tag_text new_row = Some q -> rest new_row = None ->
  fits (keys new_row) (final_row q new_row rows) = true.
Proof.
  intros Hq Hrest. unfold final_row.
  destruct (last_match q rows) as [t|]; simpl.
  - rewrite <- (keys_set_tag t new_row) by (rewrite Hq; discriminate).
    apply fits_own_keys. exact Hrest.
  - apply fits_own_keys. exact Hrest.
Qed.

Lemma replaced_fit q new_row (row' : dict) rows :
  fits (keys new_row) row' = true ->
  Forall (fun r => matches q r = false -> fits (keys new_row) r = true) rows ->
  Forall (fun d => fits (keys new_row) d = true)
    (map (fun r => if matches q r then row' else r) rows).
Proof.
  intros Hrow'. induction rows as [|r rows IH]; intros Hall; simpl; constructor.
  - inversion Hall as [|r' rows' Hr Hrows]; subst.
    destruct (matches q r); [exact Hrow' | apply Hr; reflexivity].
  - inversion Hall as [|r' rows' Hr Hrows]; subst. apply IH. exact Hrows.
Qed.

(** C7, amended. The header of the rewritten table is the list of
    the new row's keys.  When every retained record has its columns among
    them, the rewrite completes and each record is written under these
    columns, with the empty string for a column it lacks.  A retained record
    with a column outside them is not written without that column: the
    write raises [ValueError] at that record, leaving a file that holds the
    header and the records before it. *)
Theorem rewrite_uses_current_columns :
  forall new_row q file,
    tag_text new_row = Some q ->
    rest new_row = None ->
    Forall (fun r => tag_text r <> None) (stored file) ->
    (Forall (fun r => matches q r = false -> fits (keys new_row) r = true)
       (stored file) ->
     update_csv_file new_row file
       = (Ret tt,
          Some (keys new_row
                :: map (line_of (keys new_row))
                     (new_data q new_row (stored file)))))
    /\ (forall r k, dict_get k r = None -> cell k r = "")
    /\ (forall before r after,
          stored file = (before ++ r :: after)%list ->
          Forall (fun x => matches q x = false -> fits (keys new_row) x = true)
            before ->
          matches q r = false ->
          fits (keys new_row) r = false ->
          update_csv_file new_row file
            = (Raise ValueError,
               Some (keys new_row
                     :: map (line_of (keys new_row))
                          (firstn (List.length before)
                             (new_data q new_row (stored file)))))).
Proof.
  intros new_row q file Hq Hrest Htag.
  rewrite (update_csv_file_spec new_row q file Hq Htag).
  split; [|split].
  - intros Hfit. rewrite writerows_fit; [reflexivity|].
    unfold new_data. apply Forall_app. split.
    + apply replaced_fit; [apply final_row_fits; assumption | exact Hfit].
    + destruct (existsb (matches q) (stored file)); constructor;
        [apply fits_own_keys; exact Hrest | constructor].
  - intros r k Hk. unfold cell. rewrite Hk. reflexivity.
  - intros before r after Hfile Hbefore Hr Hmis.
    rewrite Hfile. unfold new_data. rewrite map_app. simpl. rewrite Hr.
    rewrite <- app_assoc. simpl.
    rewrite writerows_misfit.
    + simpl. rewrite firstn_app.
      rewrite <- (length_map (fun row => if matches q row
                                         then final_row q new_row (before ++ r :: after)
                                         else row) before) at 1 2.
      rewrite firstn_all, Nat.sub_diag. simpl. rewrite app_nil_r. reflexivity.
    + apply replaced_fit; [apply final_row_fits; assumption | exact Hbefore].
    + exact Hmis.
Qed.

Lemma rewrite_uses_current_columns_witness :
  update_csv_file (year_row "Fox" same_count) (Some sample_table)
    = (Ret tt,
       Some (keys (year_row "Fox" same_count)
             :: map (line_of (keys (year_row "Fox" same_count)))
                  (new_data "Fox" (year_row "Fox" same_count)
                     (stored (Some sample_table)))))
  /\ update_csv_file (year_row "Wolf" same_count) (Some drifted_table)
     = (Raise ValueError, Some [keys (year_row "Wolf" same_count)]).
Proof.
  split.
  - apply (proj1 (rewrite_uses_current_columns
                    (year_row "Fox" same_count) "Fox" (Some sample_table)
                    eq_refl eq_refl
                    ltac:(repeat constructor; vm_compute; discriminate))).
    repeat constructor; intros _; reflexivity.
  - apply (proj2 (proj2 (rewrite_uses_current_columns
                           (year_row "Wolf" same_count) "Wolf" (Some drifted_table)
                           eq_refl eq_refl
                           ltac:(repeat constructor; vm_compute; discriminate)))
             [] (read_row ["Tag"; "2006"; "2007"] ["fox"; "5"; "6"])
             [read_row ["Tag"; "2006"; "2007"] ["wolf"; "1"; "2"]]).
    + reflexivity.
    + constructor.
    + reflexivity.
    + reflexivity.
Defined.

(** C7, with the extra columns dropped, does not hold: a record with the
    column 2006, which the current run does not have, stops the rewrite, and
    the file is left with the header alone. *)
Lemma drifted_column_is_not_dropped :
  update_csv_file (year_row "cat" same_count) (Some drifted_table)
    = (Raise ValueError, Some [keys (year_row "cat" same_count)])
  /\ In "2006" (keys (read_row ["Tag"; "2006"; "2007"] ["fox"; "5"; "6"]))
  /\ ~ In "2006" (keys (year_row "cat" same_count)).
Proof.
  split; [vm_compute; reflexivity|]. split.
  - vm_compute. right. left. reflexivity.
  - vm_compute. intros H.
    repeat (destruct H as [H|H]; [discriminate H|]). exact H.
Qed.

(** ** Reading back what was written *)

Lemma lower_ascii_idem c : lower_ascii (lower_ascii c) = lower_ascii c.
Proof.
  destruct c as [[] [] [] [] [] [] [] []]; reflexivity.
Qed.

Lemma lower_idem s : lower (lower s) = lower s.
Proof.
  induction s as [|c s IH]; simpl; [reflexivity|].
  rewrite lower_ascii_idem, IH. reflexivity.
Qed.

Lemma zip_items_get (f : string -> string) k :
  forall fieldnames acc,
    assoc_get k (zip_items fieldnames (map f fieldnames) acc)
      = if mem k fieldnames then Some (PStr (f k)) else assoc_get k acc.
Proof.
  induction fieldnames as [|k0 ks IH]; intros acc; simpl; [reflexivity|].
  rewrite IH. destruct (mem k ks) eqn:Hm.
  - rewrite orb_true_r. reflexivity.
  - rewrite orb_false_r, assoc_get_set.
    destruct (String.eqb k k0) eqn:E; [|reflexivity].
    apply String.eqb_eq in E. subst k0. reflexivity.
Qed.

Lemma read_row_line fieldnames d :
  read_row fieldnames (line_of fieldnames d)
    = mkDict (zip_items fieldnames (line_of fieldnames d) []) None.
Proof.
  unfold read_row, line_of. rewrite length_map, Nat.ltb_irrefl. reflexivity.
Qed.

Lemma read_back_tag fieldnames d :
  In "Tag" fieldnames ->
  tag_text (read_row fieldnames (line_of fieldnames d)) = Some (cell "Tag" d).
Proof.
  intros Hin. rewrite read_row_line. unfold tag_text, dict_get, line_of. simpl.
  rewrite zip_items_get. apply mem_In in Hin. rewrite Hin. reflexivity.
Qed.

(** *** Line ends in a field *)

Lemma universal_newlines_no_cr :
  forall n s, (String.length s <= n)%nat -> no_cr (universal_newlines s) = true.
Proof.
  induction n as [|n IH]; intros s Hlen; destruct s as [|c s];
    try reflexivity; cbn [String.length] in Hlen; [lia|].
  cbn [universal_newlines]. destruct (Ascii.eqb c "013") eqn:E.
  - cbn [no_cr]. change (negb (Ascii.eqb "010" "013")) with true. cbn [andb].
    destruct s as [|c' s']; [reflexivity|].
    destruct (Ascii.eqb c' "010"); apply IH; cbn [String.length] in *; lia.
  - cbn [no_cr]. rewrite E. cbn [negb andb]. apply IH. lia.
Qed.

Lemma no_cr_as_read s : no_cr (universal_newlines s) = true.
Proof. apply (universal_newlines_no_cr (String.length s)). lia. Qed.

Lemma no_cr_unchanged s : no_cr s = true -> universal_newlines s = s.
Proof.
  induction s as [|c s IH]; [reflexivity|]. cbn [no_cr universal_newlines].
  intros H. apply andb_true_iff in H. destruct H as [Hc Hs].
  destruct (Ascii.eqb c "013"); [discriminate|].
  rewrite (IH Hs). reflexivity.
Qed.

Lemma no_cr_line l :
  Forall (fun x => no_cr x = true) l -> map universal_newlines l = l.
Proof.
  induction 1 as [|x l Hx Hl IH]; [reflexivity|].
  cbn [map]. rewrite (no_cr_unchanged x Hx), IH. reflexivity.
Qed.

Lemma no_cr_lower_ascii c :
  Ascii.eqb (lower_ascii c) "013" = Ascii.eqb c "013".
Proof.
  destruct c as [[] [] [] [] [] [] [] []]; reflexivity.
Qed.

Lemma no_cr_lower s : no_cr (lower s) = no_cr s.
Proof.
  induction s as [|c s IH]; [reflexivity|].
  cbn [lower no_cr]. rewrite no_cr_lower_ascii, IH. reflexivity.
Qed.

Lemma zip_items_values k v :
  forall fieldnames row acc,
    assoc_get k (zip_items fieldnames row acc) = Some v ->
    (exists x, v = PStr x /\ In x row) \/ assoc_get k acc = Some v.
Proof.
  induction fieldnames as [|k0 ks IH]; intros row acc Hget; [right; exact Hget|].
  destruct row as [|x row]; [right; exact Hget|].
  cbn [zip_items] in Hget.
  destruct (IH _ _ Hget) as [[y [Hv Hy]] | Hacc].
  - left. exists y. split; [exact Hv | right; exact Hy].
  - rewrite assoc_get_set in Hacc.
    destruct (String.eqb k k0); [|right; exact Hacc].
    left. exists x. inversion Hacc. split; [reflexivity | left; reflexivity].
Qed.

Lemma fill_none_values k v :
  forall ks acc,
    assoc_get k (fold_left (fun acc k => assoc_set k PNone acc) ks acc) = Some v ->
    v = PNone \/ assoc_get k acc = Some v.
Proof.
  induction ks as [|k0 ks IH]; intros acc Hget; [right; exact Hget|].
  cbn [fold_left] in Hget.
  destruct (IH _ Hget) as [Hnone | Hacc]; [left; exact Hnone|].
  rewrite assoc_get_set in Hacc.
  destruct (String.eqb k k0); [|right; exact Hacc].
  left. inversion Hacc. reflexivity.
Qed.

Lemma read_row_values fieldnames row k v :
  dict_get k (read_row fieldnames row) = Some v ->
  v = PNone \/ exists x, v = PStr x /\ In x row.
Proof.
  unfold read_row, dict_get.
  destruct (Nat.ltb (List.length fieldnames) (List.length row));
    [|destruct (Nat.ltb (List.length row) (List.length fieldnames))];
    cbn [items]; intros Hget.
  - destruct (zip_items_values _ _ _ _ _ Hget) as [Hx | Hnil];
      [right; exact Hx | discriminate].
  - destruct (fill_none_values _ _ _ _ Hget) as [Hnone | Hzip];
      [left; exact Hnone|].
    destruct (zip_items_values _ _ _ _ _ Hzip) as [Hx | Hnil];
      [right; exact Hx | discriminate].
  - destruct (zip_items_values _ _ _ _ _ Hget) as [Hx | Hnil];
      [right; exact Hx | discriminate].
Qed.

(** What the program reads from the file holds no carriage return. *)
Lemma stored_no_cr file r k :
  In r (stored file) -> no_cr (cell k r) = true.
Proof.
  unfold stored, DictReader, open_read.
  destruct (match file with Some g => g | None => [] end) as [|header lines];
    [intros []|].
  cbn [map]. intros Hin. apply in_map_iff in Hin.
  destruct Hin as [line [Hr Hline]]. subst r.
  apply filter_In in Hline. destruct Hline as [Hline _].
  apply in_map_iff in Hline. destruct Hline as [raw [Hraw _]]. subst line.
  unfold cell.
  destruct (dict_get k (read_row (map universal_newlines header)
                          (map universal_newlines raw))) as [v|] eqn:Hget;
    [|reflexivity].
  destruct (read_row_values _ _ _ _ Hget) as [Hnone | [x [Hv Hx]]].
  - subst v. reflexivity.
  - subst v. apply in_map_iff in Hx. destruct Hx as [y [Hy _]]. subst x.
    cbn [field_text]. apply no_cr_as_read.
Qed.

Lemma tag_text_cell r t : tag_text r = Some t -> cell "Tag" r = t.
Proof.
  unfold tag_text, cell.
  destruct (dict_get "Tag" r) as [[s|z|]|]; intros H; inversion H; reflexivity.
Qed.

Lemma tag_text_key new_row q : tag_text new_row = Some q -> In "Tag" (keys new_row).
Proof.
  unfold tag_text, dict_get, keys.
  induction (items new_row) as [|[k v] l IH]; cbn [assoc_get map fst In];
    [discriminate|].
  destruct (String.eqb "Tag" k) eqn:E.
  - apply String.eqb_eq in E. intros _. left. symmetry. exact E.
  - intros H. right. apply IH. exact H.
Qed.

(** What is read back of a table written under columns without carriage
    return. *)
Lemma stored_as_read fieldnames data :
  fieldnames <> [] ->
  Forall (fun k => no_cr k = true) fieldnames ->
  stored (Some ((fieldnames :: map (line_of fieldnames) data) : grid))
    = map (fun d => read_row fieldnames
                      (map universal_newlines (line_of fieldnames d))) data.
Proof.
  intros Hne Hkeys. unfold stored, DictReader, open_read. cbn [map].
  rewrite (no_cr_line fieldnames Hkeys).
  assert (Hkeep : forall lines : list dict,
            filter (fun r => negb (is_blank r))
              (map (map universal_newlines) (map (line_of fieldnames) lines))
            = map (map universal_newlines) (map (line_of fieldnames) lines)).
  { induction lines as [|d lines IH]; simpl; [reflexivity|].
    rewrite IH. unfold line_of at 1.
    destruct fieldnames as [|k ks]; [contradiction|]. reflexivity. }
  rewrite Hkeep, !map_map. reflexivity.
Qed.

(** A table written without carriage return is read back as it was
    written. *)
Lemma stored_written fieldnames data :
  fieldnames <> [] ->
  Forall (fun k => no_cr k = true) fieldnames ->
  Forall (fun d => forall k, no_cr (cell k d) = true) data ->
  stored (Some ((fieldnames :: map (line_of fieldnames) data) : grid))
    = map (fun d => read_row fieldnames (line_of fieldnames d)) data.
Proof.
  intros Hne Hkeys Hcells. rewrite (stored_as_read _ _ Hne Hkeys).
  apply map_ext_in. intros d Hd. f_equal. apply no_cr_line.
  unfold line_of. apply Forall_forall. intros x Hx.
  apply in_map_iff in Hx. destruct Hx as [k [Hk _]]. subst x.
  apply (proj1 (Forall_forall _ _) Hcells d Hd).
Qed.

Lemma read_as_read_tag fieldnames d :
  In "Tag" fieldnames ->
  tag_text (read_row fieldnames (map universal_newlines (line_of fieldnames d)))
    = Some (universal_newlines (cell "Tag" d)).
Proof.
  intros Hin. unfold line_of. rewrite map_map.
  unfold read_row. rewrite length_map, Nat.ltb_irrefl.
  unfold tag_text, dict_get. cbn [items].
  rewrite (zip_items_get (fun k => universal_newlines (cell k d))).
  apply mem_In in Hin. rewrite Hin. reflexivity.
Qed.

Lemma lowercase_as_read_upto :
  forall n s, (String.length s <= n)%nat ->
    lowercase s -> lowercase (universal_newlines s).
Proof.
  unfold lowercase.
  induction n as [|n IH]; intros s Hlen Hs; destruct s as [|c s];
    try reflexivity; cbn [String.length] in Hlen; [lia|].
  cbn [all_chars] in Hs. apply andb_true_iff in Hs. destruct Hs as [Hc Hs].
  cbn [universal_newlines]. destruct (Ascii.eqb c "013").
  - cbn [all_chars]. change (negb (is_upper "010")) with true. cbn [andb].
    destruct s as [|c' s']; [reflexivity|].
    destruct (Ascii.eqb c' "010").
    + cbn [all_chars] in Hs. apply andb_true_iff in Hs.
      apply IH; [cbn [String.length] in *; lia | apply Hs].
    + apply IH; [lia | exact Hs].
  - cbn [all_chars]. rewrite Hc. cbn [andb]. apply IH; [lia | exact Hs].
Qed.

Lemma lowercase_as_read s : lowercase s -> lowercase (universal_newlines s).
Proof. apply (lowercase_as_read_upto (String.length s)). lia. Qed.

Lemma cell_set_other k k' v d :
  String.eqb k k' = false -> cell k (dict_set k' v d) = cell k d.
Proof.
  intros Hk. unfold cell, dict_get, dict_set. cbn [items].
  rewrite assoc_get_set, Hk. reflexivity.
Qed.

Lemma cell_set_same k v d : cell k (dict_set k v d) = field_text v.
Proof.
  unfold cell, dict_get, dict_set. cbn [items].
  rewrite assoc_get_set, String.eqb_refl. reflexivity.
Qed.

(** The records handed to the writer hold no carriage return when the new
    row holds none. *)
Lemma new_data_no_cr q new_row file :
  (forall k, no_cr (cell k new_row) = true) ->
  Forall (fun d => forall k, no_cr (cell k d) = true)
    (new_data q new_row (stored file)).
Proof.
  intros Hnew.
  assert (Hfinal : forall k, no_cr (cell k (final_row q new_row (stored file))) = true).
  { intros k. unfold final_row, retag.
    destruct (last_match q (stored file)) as [t|] eqn:Hl; [|apply Hnew].
    destruct (String.eqb k "Tag") eqn:Hk.
    - apply String.eqb_eq in Hk. subst k. rewrite cell_set_same. cbn [field_text].
      unfold last_match in Hl.
      assert (Hfrom : forall rows acc,
                Forall (fun r => forall k, no_cr (cell k r) = true) rows ->
                fold_left (later_match q) rows acc = Some t ->
                acc = Some t \/ no_cr t = true).
      { induction rows as [|r rows IH]; intros acc Hrows Hf;
          [left; exact Hf|].
        inversion Hrows as [|r' rows' Hr Hrest]; subst.
        destruct (IH _ Hrest Hf) as [Hacc | Hclean]; [|right; exact Hclean].
        unfold later_match in Hacc.
        destruct (matches q r); [|left; exact Hacc].
        right. rewrite <- (tag_text_cell _ _ Hacc). apply Hr. }
      destruct (Hfrom (stored file) None) as [Hnone | Hclean];
        [ apply Forall_forall; intros r Hr k; apply (stored_no_cr file r k Hr)
        | exact Hl | discriminate | exact Hclean ].
    - rewrite (cell_set_other _ _ _ _ Hk). apply Hnew. }
  unfold new_data. apply Forall_app. split.
  - apply Forall_forall. intros d Hd. apply in_map_iff in Hd.
    destruct Hd as [r [Hd Hr]]. subst d.
    destruct (matches q r); [exact Hfinal|].
    intros k. apply (stored_no_cr file r k Hr).
  - destruct (existsb (matches q) (stored file)); constructor;
      [exact Hnew | constructor].
Qed.

Lemma writerows_returned fieldnames :
  forall data out out',
    writerows fieldnames data out = (Ret tt, out') ->
    out' = (out ++ map (line_of fieldnames) data)%list.
Proof.
  induction data as [|d data IH]; intros out out' Hw; simpl in Hw.
  - inversion Hw. rewrite app_nil_r. reflexivity.
  - rewrite dict_to_list_fits in Hw.
    destruct (fits fieldnames d); [|discriminate].
    rewrite (IH _ _ Hw), <- app_assoc. reflexivity.
Qed.

Lemma scan_rows_tagged :
  forall rows new_row data overwrote x,
    scan_rows rows new_row data overwrote = Ret x ->
    Forall (fun r => tag_text r <> None) rows.
Proof.
  induction rows as [|r rows IH]; intros new_row data overwrote x Hscan;
    [constructor|].
  simpl in Hscan. unfold subscript in Hscan at 1.
  constructor.
  - unfold tag_text.
    destruct (dict_get "Tag" r) as [[s|z|]|]; simpl in Hscan;
      try discriminate.
  - destruct (dict_get "Tag" r) as [[s|z|]|]; simpl in Hscan; try discriminate.
    destruct (subscript new_row "Tag") as [[s'|z'|]| e |]; simpl in Hscan;
      try discriminate.
    destruct (String.eqb (lower s) (lower s')); apply (IH _ _ _ _ Hscan).
Qed.

Lemma update_csv_file_tagged new_row file file' :
  update_csv_file new_row file = (Ret tt, file') ->
  Forall (fun r => tag_text r <> None) (stored file).
Proof.
  unfold update_csv_file. fold (stored file). intros Hup.
  destruct (scan_rows (stored file) new_row [] false) as [x| e |] eqn:Hscan;
    try discriminate.
  apply (scan_rows_tagged _ _ _ _ _ Hscan).
Qed.

(** ** The known-tag filter *)

Lemma known_key_recorded rows k : known_key rows k = true <-> recorded rows k.
Proof.
  unfold known_key, recorded. rewrite existsb_exists.
  split; intros [r [Hin Hk]]; exists r; (split; [exact Hin|]).
  - apply String.eqb_eq. exact Hk.
  - apply String.eqb_eq. exact Hk.
Qed.

Lemma filter_absent k l :
  ~ In k l -> filter (fun x => negb (String.eqb k x)) l = l.
Proof.
  induction l as [|x l IH]; intros Hnot; simpl; [reflexivity|].
  destruct (String.eqb k x) eqn:E.
  - apply String.eqb_eq in E. subst x. exfalso. apply Hnot. left. reflexivity.
  - simpl. rewrite IH; [reflexivity|]. intros Hin. apply Hnot. right. exact Hin.
Qed.

Lemma remove_first_filter k l :
  NoDup l ->
  (if mem k l then remove_first k l else l)
    = filter (fun x => negb (String.eqb k x)) l.
Proof.
  intros Hnd. destruct (mem k l) eqn:Hm.
  - clear Hm. induction Hnd as [|x l Hx Hnd IH]; simpl; [reflexivity|].
    destruct (String.eqb k x) eqn:E; simpl.
    + apply String.eqb_eq in E. subst x. symmetry. apply filter_absent. exact Hx.
    + rewrite IH. reflexivity.
  - symmetry. apply filter_absent. intros Hin. apply mem_In in Hin. congruence.
Qed.

Lemma filter_twice (f g : string -> bool) l :
  filter f (filter g l) = filter (fun x => g x && f x) l.
Proof.
  induction l as [|x l IH]; simpl; [reflexivity|].
  destruct (g x); simpl; [destruct (f x)|]; rewrite IH; reflexivity.
Qed.

Lemma drop_known_spec :
  forall rows tags,
    Forall (fun r => tag_text r <> None) rows ->
    NoDup tags ->
    drop_known rows tags = Ret (filter (fun k => negb (known_key rows k)) tags).
Proof.
  induction rows as [|r rows IH]; intros tags Hall Hnd; simpl.
  - f_equal. induction tags as [|k tags IHt]; simpl; [reflexivity|].
    inversion Hnd; subst. rewrite <- IHt by assumption. reflexivity.
  - inversion Hall as [|r' rows' Hr Hrows]; subst.
    destruct (tag_text r) as [t|] eqn:Ht; [|contradiction].
    rewrite (tag_text_subscript _ _ Ht). simpl.
    rewrite (remove_first_filter (lower t) tags Hnd).
    rewrite (IH _ Hrows (NoDup_filter _ Hnd)), filter_twice.
    f_equal. apply filter_ext. intros k.
    rewrite (tag_text_cell _ _ Ht), negb_orb. reflexivity.
Qed.

Lemma drop_known_tagged :
  forall rows tags res,
    drop_known rows tags = Ret res -> Forall (fun r => tag_text r <> None) rows.
Proof.
  induction rows as [|r rows IH]; intros tags res Hd; [constructor|].
  simpl in Hd. unfold subscript, tag_text in *.
  destruct (dict_get "Tag" r) as [[s|z|]|] eqn:Hg; simpl in Hd; try discriminate.
  constructor.
  - unfold tag_text. rewrite Hg. discriminate.
  - apply (IH _ _ Hd).
Qed.

Lemma lower_keys_NoDup :
  forall tags acc, NoDup acc -> NoDup (lower_keys tags acc).
Proof.
  induction tags as [|t tags IH]; intros acc Hnd; simpl; [exact Hnd|].
  apply IH. destruct (mem (lower t) acc) eqn:Hm; [exact Hnd|].
  apply NoDup_app; [exact Hnd | constructor; [intros []|constructor] |].
  intros x Hx [Hx'|[]]. subst x. apply mem_In in Hx. congruence.
Qed.

Lemma lower_keys_In :
  forall tags acc k,
    In k (lower_keys tags acc) ->
    In k acc \/ exists t, In t tags /\ k = lower t.
Proof.
  induction tags as [|t tags IH]; intros acc k Hin; simpl in Hin;
    [left; exact Hin|].
  destruct (IH _ _ Hin) as [Hacc | [t' [Ht' Hk]]].
  - destruct (mem (lower t) acc); [left; exact Hacc|].
    apply in_app_or in Hacc. destruct Hacc as [Hacc | [Hk|[]]].
    + left. exact Hacc.
    + right. exists t. split; [left; reflexivity | symmetry; exact Hk].
  - right. exists t'. split; [right; exact Ht' | exact Hk].
Qed.

Lemma filter_all_known rows tags :
  (forall k, In k tags -> recorded rows k) ->
  filter (fun k => negb (known_key rows k)) tags = [].
Proof.
  induction tags as [|k tags IH]; intros Hall; simpl; [reflexivity|].
  replace (known_key rows k) with true
    by (symmetry; apply known_key_recorded; apply Hall; left; reflexivity).
  simpl. apply IH. intros k' Hk'. apply Hall. right. exact Hk'.
Qed.

(** ** What an upsert leaves recorded *)

Lemma last_match_lower q :
  forall rows acc t,
    fold_left (later_match q) rows acc = Some t ->
    acc = Some t \/ lower t = lower q.
Proof.
  induction rows as [|r rows IH]; intros acc t Hf; simpl in Hf; [left; exact Hf|].
  destruct (IH _ _ Hf) as [Hacc | Hlow]; [|right; exact Hlow].
  unfold later_match in Hacc. destruct (matches q r) eqn:Hm; [|left; exact Hacc].
  right. unfold matches in Hm. rewrite Hacc in Hm.
  apply String.eqb_eq. exact Hm.
Qed.

Lemma final_row_key q new_row rows :
  tag_text new_row = Some q ->
  lower (cell "Tag" (final_row q new_row rows)) = lower q.
Proof.
  intros Hq. unfold final_row.
  destruct (last_match q rows) as [t|] eqn:Hl; simpl.
  - rewrite (tag_text_cell _ _ (tag_text_set t new_row)).
    destruct (last_match_lower q _ _ _ Hl) as [Hnone | Hlow];
      [discriminate | exact Hlow].
  - rewrite (tag_text_cell _ _ Hq). reflexivity.
Qed.

Lemma read_back_cell fieldnames d :
  In "Tag" fieldnames ->
  cell "Tag" (read_row fieldnames (line_of fieldnames d)) = cell "Tag" d.
Proof.
  intros Hin. apply tag_text_cell. apply read_back_tag. exact Hin.
Qed.

Lemma matches_key q r : matches q r = true -> lower (cell "Tag" r) = lower q.
Proof.
  unfold matches. destruct (tag_text r) as [t|] eqn:Ht; [|discriminate].
  intros Hm. rewrite (tag_text_cell _ _ Ht). apply String.eqb_eq. exact Hm.
Qed.

Lemma upsert_records new_row q file file' :
  tag_text new_row = Some q ->
  Forall (fun k => no_cr k = true) (keys new_row) ->
  (forall k, no_cr (cell k new_row) = true) ->
  update_csv_file new_row file = (Ret tt, file') ->
  (exists g', file' = Some g')
  /\ Forall (fun r => tag_text r <> None) (stored file')
  /\ (forall k, recorded (stored file) k -> recorded (stored file') k)
  /\ recorded (stored file') (lower q).
Proof.
  intros Hq Hkeys Hcells Hup.
  pose proof (update_csv_file_tagged _ _ _ Hup) as Htag.
  rewrite (update_csv_file_spec new_row q file Hq Htag) in Hup.
  destruct (writerows (keys new_row) (new_data q new_row (stored file))
              [keys new_row]) as [r out] eqn:Hw.
  simpl in Hup. inversion Hup; subst r file'. clear Hup.
  apply writerows_returned in Hw. simpl in Hw. subst out.
  pose proof (tag_text_key _ _ Hq) as Hin.
  assert (Hne : keys new_row <> []) by (intros E; rewrite E in Hin; exact Hin).
  rewrite (stored_written _ _ Hne Hkeys (new_data_no_cr q new_row file Hcells)).
  split; [eexists; reflexivity|]. split; [|split].
  - apply Forall_forall. intros x Hx. apply in_map_iff in Hx.
    destruct Hx as [d [Hd _]]. subst x.
    rewrite (read_back_tag _ d Hin). discriminate.
  - intros k [r [Hr Hk]].
    exists (read_row (keys new_row)
              (line_of (keys new_row)
                 (if matches q r then final_row q new_row (stored file) else r))).
    split.
    + apply in_map_iff.
      exists (if matches q r then final_row q new_row (stored file) else r).
      split; [reflexivity|].
      unfold new_data. apply in_or_app. left.
      apply in_map_iff. exists r. split; [reflexivity | exact Hr].
    + rewrite (read_back_cell _ _ Hin).
      destruct (matches q r) eqn:Hm; [|exact Hk].
      rewrite (final_row_key q new_row _ Hq), <- (matches_key q r Hm). exact Hk.
  - destruct (existsb (matches q) (stored file)) eqn:Hex.
    + apply existsb_exists in Hex. destruct Hex as [r [Hr Hm]].
      exists (read_row (keys new_row)
                (line_of (keys new_row) (final_row q new_row (stored file)))).
      split.
      * apply in_map_iff. exists (final_row q new_row (stored file)).
        split; [reflexivity|].
        unfold new_data. apply in_or_app. left.
        apply in_map_iff. exists r. rewrite Hm. split; [reflexivity | exact Hr].
      * rewrite (read_back_cell _ _ Hin). apply final_row_key. exact Hq.
    + exists (read_row (keys new_row) (line_of (keys new_row) new_row)).
      split.
      * apply in_map_iff. exists new_row. split; [reflexivity|].
        unfold new_data. rewrite Hex. apply in_or_app. right. left. reflexivity.
      * rewrite (read_back_cell _ _ Hin), (tag_text_cell _ _ Hq). reflexivity.
Qed.

Lemma year_row_tag q count_of : tag_text (year_row q count_of) = Some q.
Proof. reflexivity. Qed.

Lemma no_cr_uint d : no_cr (NilEmpty.string_of_uint d) = true.
Proof.
  induction d as [|d IH|d IH|d IH|d IH|d IH|d IH|d IH|d IH|d IH|d IH];
    [reflexivity | exact IH ..].
Qed.

Lemma no_cr_str z : no_cr (str z) = true.
Proof.
  unfold str. destruct (Z.to_int z) as [d|d]; cbn [NilZero.string_of_int];
    unfold NilZero.string_of_uint;
    destruct d; try reflexivity;
    try (apply (no_cr_uint (Decimal.D0 _))); try (apply (no_cr_uint (Decimal.D1 _)));
    try (apply (no_cr_uint (Decimal.D2 _))); try (apply (no_cr_uint (Decimal.D3 _)));
    try (apply (no_cr_uint (Decimal.D4 _))); try (apply (no_cr_uint (Decimal.D5 _)));
    try (apply (no_cr_uint (Decimal.D6 _))); try (apply (no_cr_uint (Decimal.D7 _)));
    try (apply (no_cr_uint (Decimal.D8 _))); try (apply (no_cr_uint (Decimal.D9 _))).
Qed.

Lemma year_row_keys_no_cr q count_of :
  Forall (fun k => no_cr k = true) (keys (year_row q count_of)).
Proof.
  change (keys (year_row q count_of)) with (keys (year_row "" (fun _ => 0))).
  apply Forall_forall. intros k Hk. revert k Hk. apply Forall_forall.
  vm_compute. repeat constructor.
Qed.

Lemma year_row_no_cr q count_of :
  no_cr q = true -> forall k, no_cr (cell k (year_row q count_of)) = true.
Proof.
  intros Hq. unfold year_row.
  assert (Hfold : forall years d,
            (forall k, no_cr (cell k d) = true) ->
            forall k,
              no_cr (cell k (fold_left
                               (fun d year =>
                                  dict_set (str (CURRENT_YEAR - year))
                                    (PInt (count_of year)) d) years d)) = true).
  { induction years as [|year years IH]; intros d Hd k; [apply Hd|].
    cbn [fold_left]. apply IH. intros k'.
    destruct (String.eqb k' (str (CURRENT_YEAR - year))) eqn:E.
    - apply String.eqb_eq in E. subst k'. rewrite cell_set_same.
      cbn [field_text]. apply no_cr_str.
    - rewrite (cell_set_other _ _ _ _ E). apply Hd. }
  apply Hfold. intros k. unfold cell, dict_get. cbn [items assoc_get].
  destruct (String.eqb k "Tag"); [exact Hq | reflexivity].
Qed.

Lemma upsert_all_records count_of :
  forall queries file file1,
    Forall (fun q => no_cr q = true) queries ->
    upsert_all count_of queries file = (Ret tt, file1) ->
    Forall (fun r => tag_text r <> None) (stored file) ->
    (queries = [] -> file1 = file)
    /\ (queries <> [] -> exists g1, file1 = Some g1)
    /\ Forall (fun r => tag_text r <> None) (stored file1)
    /\ (forall k, recorded (stored file) k -> recorded (stored file1) k)
    /\ (forall q, In q queries -> recorded (stored file1) (lower q)).
Proof.
  induction queries as [|q queries IH]; intros file file1 Hclean Hrun Htag;
    simpl in Hrun.
  - inversion Hrun; subst.
    split; [reflexivity|]. split; [intros H; contradiction|].
    split; [exact Htag|]. split; [intros k Hk; exact Hk | intros q []].
  - destruct (update_csv_file (year_row q (count_of q)) file)
      as [[[]| e |] file'] eqn:Hup; try discriminate.
    inversion Hclean as [|q' queries' Hqc Hqsc]; subst.
    destruct (upsert_records _ q _ _ (year_row_tag q (count_of q))
                (year_row_keys_no_cr q (count_of q))
                (year_row_no_cr q (count_of q) Hqc) Hup)
      as [[g' Hg'] [Htag' [Hkeep Hq]]].
    destruct (IH _ _ Hqsc Hrun Htag') as [Hnil [Hsome [Htag1 [Hkeep1 Hq1]]]].
    split; [discriminate|]. split.
    + intros _. destruct queries as [|q' queries'].
      * rewrite (Hnil eq_refl). exists g'. exact Hg'.
      * apply Hsome. discriminate.
    + split; [exact Htag1|]. split.
      * intros k Hk. apply Hkeep1, Hkeep. exact Hk.
      * intros q0 [Hq0 | Hq0]; [subst q0; apply Hkeep1; exact Hq | apply Hq1; exact Hq0].
Qed.

(** C8, amended. When the known-tag filter followed by the upserts of the
    tags it leaves has completed on a table, and no tag holds a carriage
    return, the same pair run again on the resulting table with the same tags
    and counts finds every tag recorded, performs no upsert, and leaves the
    table as it is. *)
Theorem filter_then_upsert_idempotent :
  forall count_of tags file file1,
    Forall (fun t => no_cr t = true) tags ->
    filter_then_upsert count_of tags file = (Ret tt, file1) ->
    remove_known_tags tags file1 = Ret []
    /\ filter_then_upsert count_of tags file1 = (Ret tt, file1).
Proof.
  intros count_of tags file file1 Hclean Hrun.
  assert (Hnone : remove_known_tags tags file1 = Ret []).
  { unfold filter_then_upsert in Hrun.
    destruct (remove_known_tags tags file) as [qs| e |] eqn:Hf; try discriminate.
    destruct file as [g|]; simpl in Hf.
    - change (DictReader (open_read g)) with (stored (Some g)) in Hf.
      pose proof (drop_known_tagged _ _ _ Hf) as Htag.
      rewrite (drop_known_spec _ _ Htag (lower_keys_NoDup tags [] (NoDup_nil _)))
        in Hf.
      inversion Hf as [Hqs]. clear Hf.
      assert (Hqclean : Forall (fun q => no_cr q = true) qs).
      { rewrite <- Hqs. apply Forall_forall. intros k Hk.
        apply filter_In in Hk. destruct Hk as [Hk _].
        destruct (lower_keys_In _ _ _ Hk) as [[] | [t [Ht Hkt]]].
        subst k. rewrite no_cr_lower.
        apply (proj1 (Forall_forall _ _) Hclean t Ht). }
      destruct (upsert_all_records count_of _ _ _ Hqclean Hrun Htag)
        as [Hnil [Hsome [Htag1 [Hkeep Hnew]]]].
      assert (Hfile1 : exists g1, file1 = Some g1).
      { destruct qs as [|q qs'];
          [exists g; apply Hnil; reflexivity | apply Hsome; discriminate]. }
      destruct Hfile1 as [g1 Hg1]. subst file1. simpl.
      change (DictReader (open_read g1)) with (stored (Some g1)).
      rewrite (drop_known_spec _ _ Htag1 (lower_keys_NoDup tags [] (NoDup_nil _))).
      f_equal. apply filter_all_known. intros k Hk.
      destruct (known_key (stored (Some g)) k) eqn:Hknown.
      + apply Hkeep. apply known_key_recorded. exact Hknown.
      + assert (Hin : In k qs).
        { rewrite <- Hqs. apply filter_In. split; [exact Hk|].
          rewrite Hknown. reflexivity. }
        destruct (lower_keys_In _ _ _ Hk) as [[] | [t [_ Hkt]]].
        pose proof (Hnew k Hin) as Hrec.
        rewrite Hkt, lower_idem in Hrec. rewrite Hkt. exact Hrec.
    - inversion Hf; subst qs.
      destruct (upsert_all_records count_of _ _ _ Hclean Hrun (Forall_nil _))
        as [Hnil [Hsome [Htag1 [Hkeep Hnew]]]].
      destruct tags as [|t tags'].
      + rewrite (Hnil eq_refl). reflexivity.
      + destruct (Hsome ltac:(discriminate)) as [g1 Hg1]. subst file1.
        unfold remove_known_tags.
        change (DictReader (open_read g1)) with (stored (Some g1)).
        rewrite (drop_known_spec _ _ Htag1
                   (lower_keys_NoDup (t :: tags') [] (NoDup_nil _))).
        f_equal. apply filter_all_known. intros k Hk.
        destruct (lower_keys_In _ _ _ Hk) as [[] | [t0 [Ht0 Hkt]]].
        rewrite Hkt. apply Hnew. exact Ht0. }
  split; [exact Hnone|].
  unfold filter_then_upsert. rewrite Hnone. reflexivity.
Qed.

Lemma filter_then_upsert_witness :
  remove_known_tags ["Fox"; "cat"; "WOLF"; "Cat"]
    (snd (filter_then_upsert (fun _ => same_count) ["Fox"; "cat"; "WOLF"; "Cat"]
            (Some sample_table))) = Ret []
  /\ filter_then_upsert (fun _ => same_count) ["Fox"; "cat"; "WOLF"; "Cat"]
       (snd (filter_then_upsert (fun _ => same_count) ["Fox"; "cat"; "WOLF"; "Cat"]
               (Some sample_table)))
     = (Ret tt,
        snd (filter_then_upsert (fun _ => same_count) ["Fox"; "cat"; "WOLF"; "Cat"]
               (Some sample_table))).
Proof.
  apply (filter_then_upsert_idempotent (fun _ => same_count)
           ["Fox"; "cat"; "WOLF"; "Cat"] (Some sample_table)).
  - repeat constructor.
  - vm_compute. reflexivity.
Defined.

(** C8, for every table and every tag list, does not hold.  On a table with a
    column of an older window, the first run stops in the rewrite and leaves
    the header alone; the second run then finds no record and appends one.
    And a tag that holds a carriage return is read back with a line feed in
    its place: the second run does not find it and appends it again. *)
Lemma second_run_can_append :
  filter_then_upsert (fun _ => same_count) ["cat"] (Some drifted_table)
    = (Raise ValueError, Some [keys (year_row "cat" same_count)])
  /\ filter_then_upsert (fun _ => same_count) ["cat"]
       (Some [keys (year_row "cat" same_count)])
     = (Ret tt, Some [keys (year_row "cat" same_count); "cat" :: repeat "3" 18])
  /\ filter_then_upsert (fun _ => same_count) [String "a" (String "013" "b")] None
     = (Ret tt,
        Some [keys (year_row "cat" same_count);
              String "a" (String "013" "b") :: repeat "3" 18])
  /\ filter_then_upsert (fun _ => same_count) [String "a" (String "013" "b")]
       (Some [keys (year_row "cat" same_count);
              String "a" (String "013" "b") :: repeat "3" 18])
     = (Ret tt,
        Some [keys (year_row "cat" same_count);
              String "a" (String "010" "b") :: repeat "3" 18;
              String "a" (String "013" "b") :: repeat "3" 18]).
Proof.
  repeat split; vm_compute; reflexivity.
Qed.

Example filter_then_upsert_sample :
  filter_then_upsert (fun _ => same_count) ["Fox"; "cat"; "WOLF"; "Cat"]
    (Some sample_table)
  = (Ret tt,
     Some [keys (year_row "cat" same_count);
           "fox" :: (repeat "" 17 ++ ["7"])%list;
           "wolf" :: (repeat "" 17 ++ ["9"])%list;
           "cat" :: repeat "3" 18]).
Proof. vm_compute. reflexivity. Qed.

(** ** The command line *)

Lemma lower_app a b : lower (a ++ b) = lower a ++ lower b.
Proof.
  induction a as [|c a IH]; simpl; [reflexivity|]. rewrite IH. reflexivity.
Qed.

Lemma all_chars_app P a b :
  all_chars P (a ++ b) = all_chars P a && all_chars P b.
Proof.
  induction a as [|c a IH]; simpl; [reflexivity|].
  rewrite IH, andb_assoc. reflexivity.
Qed.

Lemma lower_ascii_not_upper c : is_upper (lower_ascii c) = false.
Proof.
  destruct c as [[] [] [] [] [] [] [] []]; reflexivity.
Qed.

(** [lower] leaves no capital letter. *)
Lemma lower_lowercase s : lowercase (lower s).
Proof.
  unfold lowercase. induction s as [|c s IH]; [reflexivity|].
  cbn [lower all_chars]. rewrite lower_ascii_not_upper, IH. reflexivity.
Qed.

Lemma join_lowercase l : Forall lowercase l -> lowercase (join " " l).
Proof.
  unfold lowercase. induction l as [|x l IH]; intros Hall; [reflexivity|].
  inversion Hall as [|x' l' Hx Hl]; subst.
  destruct l as [|y l]; [exact Hx|].
  change (join " " (x :: y :: l)) with (x ++ " " ++ join " " (y :: l)).
  rewrite !all_chars_app, Hx, (IH Hl). reflexivity.
Qed.

Lemma remove_first_Forall (P : string -> Prop) k l :
  Forall P l -> Forall P (remove_first k l).
Proof.
  induction l as [|x l IH]; intros Hall; simpl; [constructor|].
  inversion Hall as [|x' l' Hx Hl]; subst.
  destruct (String.eqb k x); [exact Hl | constructor; [exact Hx | apply IH; exact Hl]].
Qed.

Lemma pop_at_Forall (P : string -> Prop) :
  forall i l x l', pop_at i l = Some (x, l') -> Forall P l -> Forall P l'.
Proof.
  induction i as [|i IH]; intros l x l' Hpop Hall;
    destruct l as [|y l]; simpl in Hpop; try discriminate;
    inversion Hall as [|y' l0 Hy Hl]; subst.
  - inversion Hpop; subst. exact Hl.
  - destruct (pop_at i l) as [[z l'']|] eqn:E; [|discriminate].
    inversion Hpop; subst. constructor; [exact Hy | apply (IH _ _ _ E Hl)].
Qed.

Lemma index_of_absent x l : mem x l = false -> index_of x l = None.
Proof.
  induction l as [|y l IH]; simpl; [reflexivity|].
  intros H. apply orb_false_elim in H. destruct H as [Hy Hl].
  rewrite Hy, (IH Hl). reflexivity.
Qed.

Lemma mem_remove_first x k l : mem x l = false -> mem x (remove_first k l) = false.
Proof.
  induction l as [|y l IH]; simpl; [reflexivity|].
  intros H. apply orb_false_elim in H. destruct H as [Hy Hl].
  destruct (String.eqb k y); [exact Hl|]. simpl. rewrite Hy, (IH Hl). reflexivity.
Qed.

Lemma drop_known_subset :
  forall rows tags res,
    drop_known rows tags = Ret res -> forall k, In k res -> In k tags.
Proof.
  induction rows as [|r rows IH]; intros tags res Hd k Hk; simpl in Hd.
  - inversion Hd; subst. exact Hk.
  - destruct (subscript r "Tag") as [v| e |]; simpl in Hd; try discriminate.
    destruct (py_lower v) as [key| e |]; simpl in Hd; try discriminate.
    pose proof (IH _ _ Hd k Hk) as Hin.
    destruct (mem key tags); [|exact Hin].
    clear - Hin. induction tags as [|x tags IHt]; simpl in Hin; [contradiction|].
    destruct (String.eqb key x); [right; exact Hin|].
    destruct Hin as [Hx | Hin]; [left; exact Hx | right; apply IHt; exact Hin].
Qed.

Lemma remove_known_tags_lowercase tags file res :
  Forall lowercase tags ->
  remove_known_tags tags file = Ret res ->
  Forall lowercase res.
Proof.
  intros Hall Hr. destruct file as [g|]; simpl in Hr.
  - apply Forall_forall. intros k Hk.
    pose proof (drop_known_subset _ _ _ Hr k Hk) as Hin.
    destruct (lower_keys_In _ _ _ Hin) as [[] | [t [_ Hkt]]].
    rewrite Hkt. apply lower_lowercase.
  - inversion Hr; subst. exact Hall.
Qed.

Lemma take_page_range_lowercase listing arguments res :
  (mem "-p" arguments = false
   \/ forall first_page last_page names,
        listing first_page last_page = Ret names -> Forall lowercase names) ->
  Forall lowercase arguments ->
  take_page_range listing arguments = Ret res ->
  Forall lowercase res.
Proof.
  intros Hp Hall Ht. unfold take_page_range in Ht.
  destruct (index_of "-p" arguments) as [i|] eqn:Hi.
  - destruct Hp as [Habs | Hnames];
      [rewrite (index_of_absent _ _ Habs) in Hi; discriminate|].
    destruct (pop_at (i + 1) arguments) as [[page_range arguments1]|] eqn:Hpop;
      [|discriminate].
    pose proof (pop_at_Forall lowercase _ _ _ _ Hpop Hall) as Hall1.
    unfold get_tag_names_by_page_range in Ht.
    destruct (match_page_range page_range) as [[first_page last_page]|];
      [|discriminate].
    destruct (listing first_page last_page) as [names| e |] eqn:Hl;
      simpl in Ht; try discriminate.
    inversion Ht; subst. apply Forall_app. split.
    + destruct (pop_at i arguments1) as [[y l]|] eqn:Hpop2;
        [apply (pop_at_Forall lowercase _ _ _ _ Hpop2 Hall1) | exact Hall1].
    + apply (Hnames _ _ _ Hl).
  - inversion Ht; subst. exact Hall.
Qed.

Lemma get_queries_lowercase listing argv file queries :
  (mem "-p" (map lower (tl argv)) = false
   \/ forall first_page last_page names,
        listing first_page last_page = Ret names -> Forall lowercase names) ->
  get_queries listing argv file = Ret queries ->
  Forall lowercase queries.
Proof.
  intros Hp Hq. unfold get_queries in Hq.
  assert (H0 : Forall lowercase (map lower (tl argv))).
  { apply Forall_forall. intros x Hx. apply in_map_iff in Hx.
    destruct Hx as [y [Hy _]]. subst x. apply lower_lowercase. }
  set (args0 := map lower (tl argv)) in *.
  set (args1 := if mem "-o" args0 then remove_first "-o" args0 else args0) in *.
  assert (H1 : Forall lowercase args1).
  { unfold args1. destruct (mem "-o" args0);
      [apply remove_first_Forall; exact H0 | exact H0]. }
  assert (Hp1 : mem "-p" args1 = false
                \/ forall first_page last_page names,
                     listing first_page last_page = Ret names ->
                     Forall lowercase names).
  { destruct Hp as [Habs | Hnames]; [left | right; exact Hnames].
    unfold args1. destruct (mem "-o" args0);
      [apply mem_remove_first; exact Habs | exact Habs]. }
  destruct (take_page_range listing args1) as [args2| e |] eqn:Ht;
    simpl in Hq; try discriminate.
  pose proof (take_page_range_lowercase _ _ _ Hp1 H1 Ht) as H2.
  set (args3 := if mem "-w" args2 then remove_first "-w" args2 else args2) in *.
  assert (H3 : Forall lowercase args3).
  { unfold args3. destruct (mem "-w" args2);
      [apply remove_first_Forall; exact H2 | exact H2]. }
  set (args4 := if mem "-c" args3 then remove_first "-c" args3 else args3) in *.
  assert (H4 : Forall lowercase args4).
  { unfold args4. destruct (mem "-c" args3);
      [apply remove_first_Forall; exact H3 | exact H3]. }
  destruct (mem "-c" args3 && negb (is_blank args4)).
  - inversion Hq; subst. constructor; [apply join_lowercase; exact H4 | constructor].
  - destruct (negb (mem "-w" args2)).
    + apply (remove_known_tags_lowercase _ _ _ H4 Hq).
    + inversion Hq; subst. exact H4.
Qed.

(** ** From the queries to the stored records *)

Lemma for_year_not_none page year tags fuel :
  forall depth b b',
    get_post_count_for_year depth fuel page year tags b <> (Ret None, b').
Proof.
  induction depth as [|depth IH]; intros b b'; simpl; [discriminate|].
  pose proof (get_post_count_top_not_none page depth fuel (year_tags year tags) b)
    as Htop.
  destruct (get_post_count depth fuel page (year_tags year tags) false b)
    as [[[n|]|e|] b1]; try discriminate.
  - apply Htop.
  - destruct e; try discriminate. apply IH.
Qed.

Lemma count_years_fold depth fuel page tags :
  forall years d b r b',
    count_years depth fuel page tags years (Some d) b = (Ret r, b') ->
    exists counts,
      List.length counts = List.length years
      /\ r = Some (fold_left
                     (fun acc yc => dict_set (str (CURRENT_YEAR - fst yc))
                                      (PInt (snd yc)) acc)
                     (combine years counts) d).
Proof.
  induction years as [|year years IH]; intros d b r b' Hrun; simpl in Hrun.
  - inversion Hrun; subst. exists []. split; reflexivity.
  - destruct depth as [|rest]; [discriminate|]. cbn [call] in Hrun.
    pose proof (for_year_not_none page year tags fuel rest b) as Hsome.
    destruct (get_post_count_for_year rest fuel page year tags b)
      as [[[count|]| e |] b1]; try discriminate.
    + simpl in Hrun. destruct (IH _ _ _ _ Hrun) as [counts [Hlen Hr]].
      exists (count :: counts). split; [simpl; rewrite Hlen; reflexivity|].
      exact Hr.
    + exfalso. apply (Hsome b1). reflexivity.
Qed.

Lemma count_years_row depth fuel page tags b r b' :
  count_years depth fuel page tags year_offsets
    (Some (mkDict [("Tag", PStr tags)] None)) b = (Ret r, b') ->
  exists count_of, r = Some (year_row tags count_of).
Proof.
  intros Hrun.
  destruct (count_years_fold _ _ _ _ _ _ _ _ _ Hrun) as [counts [Hlen Hr]].
  exists (fun year => nth (Z.to_nat (18 - year)) counts 0).
  subst r.
  do 18 (destruct counts as [|? counts]; [discriminate Hlen|]).
  destruct counts; [|discriminate Hlen].
  reflexivity.
Qed.

Lemma print_post_total_upserts depth fuel page tags b file b' file' :
  print_post_total depth fuel page tags true (b, file) = (Ret tt, (b', file')) ->
  exists count_of,
    update_csv_file (year_row tags count_of) file = (Ret tt, file').
Proof.
  unfold print_post_total. cbn [fst snd]. intros Hrun.
  destruct (count_years depth fuel page tags year_offsets
              (Some (mkDict [("Tag", PStr tags)] None)) b)
    as [[[row|]| e |] b1] eqn:Hc; try discriminate.
  - destruct (count_years_row _ _ _ _ _ _ _ Hc) as [count_of Hrow].
    inversion Hrow; subst row. exists count_of.
    destruct (update_csv_file (year_row tags count_of) file) as [r f].
    inversion Hrun; subst. reflexivity.
  - destruct (count_years_row _ _ _ _ _ _ _ Hc) as [count_of Hrow]. discriminate.
Qed.

Lemma appended_record new_row q file file1 :
  tag_text new_row = Some q ->
  Forall (fun k => no_cr k = true) (keys new_row) ->
  update_csv_file new_row file = (Ret tt, file1) ->
  Forall (fun r => matches q r = false) (stored file) ->
  exists kept r,
    stored file1 = (kept ++ [r])%list
    /\ map tag_text kept = map tag_text (stored file)
    /\ tag_text r = Some (universal_newlines q).
Proof.
  intros Hq Hkeys Hup Hun.
  pose proof (update_csv_file_tagged _ _ _ Hup) as Htag.
  rewrite (update_csv_file_spec new_row q file Hq Htag) in Hup.
  destruct (writerows (keys new_row) (new_data q new_row (stored file))
              [keys new_row]) as [r out] eqn:Hw.
  simpl in Hup. inversion Hup; subst r file1. clear Hup.
  apply writerows_returned in Hw. simpl in Hw. subst out.
  pose proof (tag_text_key _ _ Hq) as Hin.
  assert (Hne : keys new_row <> []) by (intros E; rewrite E in Hin; exact Hin).
  rewrite (stored_as_read _ _ Hne Hkeys), (new_data_missing q new_row _ Hun), map_app.
  eexists; eexists. split; [reflexivity|]. split.
  - rewrite map_map.
    apply map_ext_in. intros x Hx.
    rewrite (read_as_read_tag _ x Hin).
    pose proof (proj1 (Forall_forall _ _) Htag x Hx) as Hx'.
    destruct (tag_text x) as [t|] eqn:Ht; [|contradiction].
    rewrite (tag_text_cell _ _ Ht).
    rewrite (no_cr_unchanged t); [reflexivity|].
    rewrite <- (tag_text_cell _ _ Ht). apply (stored_no_cr file x "Tag" Hx).
  - rewrite (read_as_read_tag _ new_row Hin), (tag_text_cell _ _ Hq). reflexivity.
Qed.

(** C10, amended. The tokens of the command line are lowercased before
    anything else is done with them, so, in a run that takes its tags from
    the command line (no [-p]) or from a listing of lowercase names, every
    query is lowercase; and when [print_post_total] stores a query that no
    stored record is keyed like, the record it appends carries the query as
    its tag text (read back as the program reads the file), which holds no
    capital letter, while the records already there keep theirs. *)
Theorem appended_tags_are_lowercase :
  forall listing argv file queries,
    (mem "-p" (map lower (tl argv)) = false
     \/ forall first_page last_page names,
          listing first_page last_page = Ret names -> Forall lowercase names) ->
    get_queries listing argv file = Ret queries ->
    Forall lowercase queries
    /\ (forall q depth fuel page b file0 b' file1,
          In q queries ->
          print_post_total depth fuel page q true (b, file0)
            = (Ret tt, (b', file1)) ->
          Forall (fun r => matches q r = false) (stored file0) ->
          exists kept r,
            stored file1 = (kept ++ [r])%list
            /\ map tag_text kept = map tag_text (stored file0)
            /\ tag_text r = Some (universal_newlines q)
            /\ lowercase (universal_newlines q)).
Proof.
  intros listing argv file queries Hp Hq.
  pose proof (get_queries_lowercase _ _ _ _ Hp Hq) as Hlow.
  split; [exact Hlow|].
  intros q depth fuel page b file0 b' file1 Hin Hrun Hun.
  destruct (print_post_total_upserts _ _ _ _ _ _ _ _ Hrun) as [count_of Hup].
  destruct (appended_record _ q _ _ (year_row_tag q count_of)
              (year_row_keys_no_cr q count_of) Hup Hun)
    as [kept [r [Hstored [Hkept Hr]]]].
  exists kept, r. split; [exact Hstored|]. split; [exact Hkept|].
  split; [exact Hr|].
  apply lowercase_as_read.
  apply (proj1 (Forall_forall _ _) Hlow q Hin).
Qed.

Lemma appended_tags_witness :
  Forall lowercase ["cat"]
  /\ exists kept r,
       stored (snd (snd (print_post_total 2 0 empty_client "cat" true
                           (fresh, Some sample_table))))
         = (kept ++ [r])%list
       /\ map tag_text kept = map tag_text (stored (Some sample_table))
       /\ tag_text r = Some (universal_newlines "cat")
       /\ lowercase (universal_newlines "cat").
Proof.
  destruct (appended_tags_are_lowercase no_listing
              ["e621_tag_counter.py"; "FOX"; "-O"; "Cat"] (Some sample_table)
              ["cat"] (or_introl eq_refl) eq_refl) as [Hlow Happend].
  split; [exact Hlow|].
  apply (Happend "cat" 2%nat 0%nat empty_client fresh (Some sample_table)
           (fst (snd (print_post_total 2 0 empty_client "cat" true
                        (fresh, Some sample_table))))).
  - left. reflexivity.
  - vm_compute. reflexivity.
  - repeat constructor.
Defined.

(** C10, for every run, does not hold: with [-p] and no stored table, the
    listed names reach the queries as the site gives them, and the record
    appended for one of them carries its capital letter. *)
Lemma listed_names_are_stored_as_listed :
  get_queries mixed_listing ["e621_tag_counter.py"; "-P"; "1..2"; "WOLF"] None
    = Ret ["wolf"; "Fox"]
  /\ tag_counter mixed_listing 10 0 empty_client
       ["e621_tag_counter.py"; "-p"; "1"] None
     = (Ret tt,
        Some [keys (year_row "Fox" (fun _ => 0)); "Fox" :: repeat "0" 18])
  /\ ~ lowercase "Fox".
Proof.
  split; [reflexivity|]. split; [vm_compute; reflexivity|].
  unfold lowercase. vm_compute. discriminate.
Qed.

(** C6, for every prior table, does not hold.  Of two stored records keyed
    alike, both are written with the tag text of the later one, [new_row]
    being one object: the first does not keep its stored text.  And a stored
    record with a column the new row lacks stops the rewrite, which leaves
    the header alone: the new record is not appended. *)
Lemma upsert_can_lose_the_stored_casing :
  update_csv_file (year_row "Fox" same_count)
    (Some [["Tag"]; ["fox"]; ["wolf"]; ["FOX"]])
  = (Ret tt,
     Some [keys (year_row "Fox" same_count);
           "FOX" :: repeat "3" 18;
           "wolf" :: repeat "" 18;
           "FOX" :: repeat "3" 18])
  /\ update_csv_file (year_row "cat" same_count) (Some drifted_table)
     = (Raise ValueError, Some [keys (year_row "cat" same_count)]).
Proof. split; vm_compute; reflexivity. Qed.

(* ------------------------------------------------------------------ *)
(** * Further properties *)

(** ** Outcomes of the counting calls *)

Lemma batch_loop_outcomes g :
  (forall q m b r b', g q m b = (r, b') -> plain_outcome m r) ->
  forall fuel tags bound interval count b r b',
    batch_loop g fuel tags bound interval count b = (r, b') ->
    r = OutOfFuel \/ r = Raise RecursionError \/ r = Raise TimeoutError
    \/ exists n, r = Ret n.
Proof.
  intros Hg. induction fuel as [|fuel IH];
    intros tags bound interval count b r b' Hrun; simpl in Hrun.
  - inversion Hrun. left. reflexivity.
  - destruct (0 <? bound).
    + destruct (g (score_range tags (Z.max 1 (bound - interval + 1)) bound) true b)
        as [r0 b1] eqn:Hq.
      pose proof (Hg _ _ _ _ _ Hq) as Hr0.
      destruct r0 as [[c|]| e |].
      * apply (IH _ _ _ _ _ _ _ Hrun).
      * apply (IH _ _ _ _ _ _ _ Hrun).
      * inversion Hrun; subst.
        destruct Hr0 as [H|[H|[H|[[n H]|[_ H]]]]]; try discriminate.
        -- right. left. inversion H. reflexivity.
        -- right. right. left. inversion H. reflexivity.
      * inversion Hrun. left. reflexivity.
    + inversion Hrun. right. right. right. eexists. reflexivity.
Qed.

Lemma add_boundary_outcomes g :
  (forall q m b r b', g q m b = (r, b') -> plain_outcome m r) ->
  forall q count b r b',
    add_boundary g q count b = (r, b') ->
    r = OutOfFuel \/ r = Raise RecursionError \/ r = Raise TimeoutError
    \/ exists n, r = Ret n.
Proof.
  intros Hg q count b r b' Hrun. unfold add_boundary in Hrun.
  destruct (g q false b) as [r0 b1] eqn:Hq.
  pose proof (Hg _ _ _ _ _ Hq) as Hr0.
  destruct r0 as [[c|]| e |]; inversion Hrun; subst.
  - right. right. right. eexists. reflexivity.
  - destruct Hr0 as [H|[H|[H|[[n H]|[H _]]]]]; discriminate.
  - destruct Hr0 as [H|[H|[H|[[n H]|[_ H]]]]]; try discriminate.
    + right. left. inversion H. reflexivity.
    + right. right. left. inversion H. reflexivity.
  - left. reflexivity.
Qed.

Lemma batched_body_outcomes g :
  (forall q m b r b', g q m b = (r, b') -> plain_outcome m r) ->
  forall fuel tags b r b',
    batched_body g fuel tags b = (r, b') ->
    r = OutOfFuel \/ r = Raise RecursionError \/ r = Raise TimeoutError
    \/ exists n, r = Ret n.
Proof.
  intros Hg fuel tags b r b' Hrun. unfold batched_body in Hrun.
  destruct (batch_loop g fuel tags INITIAL_BOUND_SCORE INITIAL_INTERVAL_SCORE 0
              (enter_batched tags b)) as [r0 b1] eqn:Hloop.
  pose proof (batch_loop_outcomes g Hg _ _ _ _ _ _ _ _ Hloop) as Hr0.
  destruct r0 as [count| e |].
  - destruct (add_boundary g (score_above tags) count b1) as [r1 b2] eqn:Ha.
    pose proof (add_boundary_outcomes g Hg _ _ _ _ _ Ha) as Hr1.
    destruct r1 as [count'| e |].
    + apply (add_boundary_outcomes g Hg _ _ _ _ _ Hrun).
    + inversion Hrun; subst. exact Hr1.
    + inversion Hrun; subst. exact Hr1.
  - inversion Hrun; subst. exact Hr0.
  - inversion Hrun; subst. exact Hr0.
Qed.

Lemma counting_outcomes page fuel :
  forall depth,
    (forall q m b r b',
        get_post_count depth fuel page q m b = (r, b') -> plain_outcome m r)
    /\ (forall tags b r b',
          get_batched_post_count depth fuel page tags b = (r, b') ->
          r = OutOfFuel \/ r = Raise RecursionError \/ r = Raise TimeoutError
          \/ exists n, r = Ret n).
Proof.
  assert (Hstep : forall depth,
            (forall tags b r b',
                get_batched_post_count depth fuel page tags b = (r, b') ->
                r = OutOfFuel \/ r = Raise RecursionError \/ r = Raise TimeoutError
                \/ exists n, r = Ret n) ->
            forall q m b r b',
              get_post_count (S depth) fuel page q m b = (r, b') ->
              plain_outcome m r).
  { intros depth Hpass q m b r b' Hrun. rewrite get_post_count_eq in Hrun.
    destruct (page (visited b) (posts_url q)) as [|dt last].
    - inversion Hrun. right. right. left. reflexivity.
    - destruct (dt =? 0);
        [inversion Hrun; right; right; right; left; eexists; reflexivity|].
      destruct ((1 <? dt) && (750 <=? dt));
        [|inversion Hrun; right; right; right; left; eexists; reflexivity].
      destruct m.
      + inversion Hrun. right. right. right. right. split; reflexivity.
      + cbn [call] in Hrun. unfold returned in Hrun.
        destruct (get_batched_post_count depth fuel page q (goto (posts_url q) b))
          as [r0 b2] eqn:Hbody.
        pose proof (Hpass _ _ _ _ Hbody) as Hr0.
        destruct r0 as [n| e |]; inversion Hrun; subst.
        * right. right. right. left. eexists. reflexivity.
        * destruct Hr0 as [H|[H|[H|[n H]]]]; try discriminate.
          -- right. left. inversion H. reflexivity.
          -- right. right. left. inversion H. reflexivity.
        * left. reflexivity. }
  assert (Hzero : forall q m b r b',
            get_post_count 0 fuel page q m b = (r, b') -> plain_outcome m r).
  { intros q m b r b' Hrun. rewrite get_post_count_eq in Hrun.
    destruct (page (visited b) (posts_url q)) as [|dt last].
    - inversion Hrun. right. right. left. reflexivity.
    - destruct (dt =? 0);
        [inversion Hrun; right; right; right; left; eexists; reflexivity|].
      destruct ((1 <? dt) && (750 <=? dt));
        [|inversion Hrun; right; right; right; left; eexists; reflexivity].
      destruct m; inversion Hrun.
      + right. right. right. right. split; reflexivity.
      + right. left. reflexivity. }
  induction depth as [|depth [IHcount IHpass]].
  - split; [exact Hzero|].
    intros tags b r b' Hrun. inversion Hrun. right. left. reflexivity.
  - assert (Hpass : forall tags b r b',
              get_batched_post_count (S depth) fuel page tags b = (r, b') ->
              r = OutOfFuel \/ r = Raise RecursionError \/ r = Raise TimeoutError
              \/ exists n, r = Ret n).
    { intros tags b r b' Hrun. cbn [get_batched_post_count] in Hrun.
      apply (batched_body_outcomes _ IHcount _ _ _ _ _ Hrun). }
    split; [|exact Hpass].
    apply Hstep. exact IHpass.
Qed.

(** X1. Whatever the client does, a pass of [get_batched_post_count] ends in
    a total, in the client's [TimeoutError] or, when its calls nest deeper
    than the interpreter allows, in [RecursionError]; never in [TypeError]
    (no boundary call hands back [None]).  A year count ends in an integer or
    in [RecursionError], never in [None] and never in [TimeoutError].  The
    only other course is that the loop of a pass does not end. *)
Theorem counting_calls_end_well :
  forall page depth fuel,
    (forall tags b,
        fst (get_batched_post_count depth fuel page tags b) = OutOfFuel
        \/ fst (get_batched_post_count depth fuel page tags b)
           = Raise RecursionError
        \/ fst (get_batched_post_count depth fuel page tags b)
           = Raise TimeoutError
        \/ exists n, fst (get_batched_post_count depth fuel page tags b) = Ret n)
    /\ (forall year tags b,
          fst (get_post_count_for_year depth fuel page year tags b) = OutOfFuel
          \/ fst (get_post_count_for_year depth fuel page year tags b)
             = Raise RecursionError
          \/ exists n,
               fst (get_post_count_for_year depth fuel page year tags b)
                 = Ret (Some n)).
Proof.
  intros page depth fuel. split.
  - intros tags b.
    destruct (get_batched_post_count depth fuel page tags b) as [r b'] eqn:Hbody.
    apply (proj2 (counting_outcomes page fuel depth) _ _ _ _ Hbody).
  - induction depth as [|depth IH]; intros year tags b; simpl;
      [right; left; reflexivity|].
    destruct (get_post_count depth fuel page (year_tags year tags) false b)
      as [r b1] eqn:Hq.
    pose proof (proj1 (counting_outcomes page fuel depth) _ _ _ _ _ Hq) as Hr.
    destruct Hr as [H|[H|[H|[[n H]|[H _]]]]];
      [subst r | subst r | subst r | subst r | discriminate]; simpl.
    + left. reflexivity.
    + right. left. reflexivity.
    + apply IH.
    + right. right. exists n. reflexivity.
Qed.

(** A boundary query that truncates in every pass: the passes nest until no
    frame is left. *)
Example nested_passes_end_with_the_stack :
  fst (get_post_count_for_year 60 4 nesting_client 1 "wolf" fresh)
    = Raise RecursionError
  /\ List.length
       (partitioned (snd (get_post_count_for_year 60 4 nesting_client 1 "wolf"
                            fresh)))
     = 30%nat.
Proof. split; vm_compute; reflexivity. Qed.

(** ** The cost and the size of a sub-batch *)






(** X3. A sub-batch call ([is_batched=True]) on a loaded page hands back
    [None] exactly when the page count is 750 or more; below that, with a
    last page of at most 75 posts, the count it returns is between 0 and
    56175 (749 pages of 75 posts). *)
Theorem sub_batch_truncates_from_750_pages :
  forall depth f page q b dt last,
    page (visited b) (posts_url q) = Loaded dt last ->
    (get_post_count depth f page q true b = (Ret None, goto (posts_url q) b)
     <-> 750 <= dt)
    /\ (0 <= dt < 750 ->
        0 <= get_post_count_on_current_page last <= 75 ->
        exists n,
          get_post_count depth f page q true b
            = (Ret (Some n), goto (posts_url q) b)
          /\ 0 <= n <= 56175).
Proof.
  intros depth f page q b dt last Hpage. split; [split|].
  - intros Hnone. destruct (Z.le_gt_cases 750 dt) as [Hge | Hlt]; [exact Hge|].
    rewrite (get_post_count_loaded page depth f q true b dt last Hpage Hlt)
      in Hnone.
    discriminate.
  - intros Hge.
    apply (get_post_count_truncated page depth f q b dt last Hpage Hge).
  - intros Hdt Hlast. exists (exact_count dt last). split.
    + apply get_post_count_loaded; [exact Hpage | lia].
    + unfold exact_count. destruct (dt =? 0) eqn:E; [lia|].
      apply Z.eqb_neq in E. lia.
Qed.

Lemma sub_batch_truncates_witness :
  exists n,
    get_post_count 0 0 halving_client (score_range (year_tags 1 "wolf") 257 512)
      true fresh
      = (Ret (Some n),
         goto (posts_url (score_range (year_tags 1 "wolf") 257 512)) fresh)
    /\ 0 <= n <= 56175.
Proof.
  apply (proj2 (sub_batch_truncates_from_750_pages 0 0 halving_client
                  (score_range (year_tags 1 "wolf") 257 512) fresh
                  400 (mkListing 10 None) eq_refl)).
  - lia.
  - vm_compute. split; discriminate.
Defined.

(** ** When the file is written *)

Lemma count_years_without_row depth fuel page tags :
  forall years b r b',
    count_years depth fuel page tags years None b = (r, b') ->
    forall row, r <> Ret (Some row).
Proof.
  induction years as [|year years IH]; intros b r b' Hrun row; simpl in Hrun.
  - inversion Hrun. discriminate.
  - destruct (call depth (fun d => get_post_count_for_year d fuel page year tags) b)
      as [[count| e |] b1]; try (inversion Hrun; discriminate).
    apply (IH _ _ _ Hrun).
Qed.

Lemma print_post_total_console depth fuel page tags w :
  snd (snd (print_post_total depth fuel page tags false w)) = snd w.
Proof.
  unfold print_post_total.
  destruct (count_years depth fuel page tags year_offsets None (fst w))
    as [r b'] eqn:Hc.
  pose proof (count_years_without_row _ _ _ _ _ _ _ _ Hc) as Hrow.
  destruct r as [[row|]| e |]; try reflexivity.
  exfalso. apply (Hrow row). reflexivity.
Qed.

Lemma for_each_query_console depth fuel page :
  forall queries w,
    snd (snd (for_each_query depth fuel page queries false w)) = snd w.
Proof.
  induction queries as [|tags queries IH]; intros w; simpl; [reflexivity|].
  destruct depth as [|rest]; [reflexivity|]. cbn [call].
  pose proof (print_post_total_console rest fuel page tags w) as Hone.
  destruct (print_post_total rest fuel page tags false w) as [[[]| e |] w'];
    simpl in *; try exact Hone.
  rewrite IH. exact Hone.
Qed.

(** X4. With [-o] among the arguments as typed, a run leaves the file as it
    found it, whatever the tags, the other flags, the client's answers and
    the way the run ends. *)
Theorem console_only_run_keeps_the_file :
  forall listing depth fuel page argv file,
    mem "-o" argv = true ->
    snd (tag_counter listing depth fuel page argv file) = file.
Proof.
  intros listing depth fuel page argv file Ho. unfold tag_counter.
  rewrite Ho. simpl.
  destruct (get_queries listing argv file) as [queries| e |]; try reflexivity.
  destruct depth as [|rest]; [reflexivity|].
  unfold run_tag_count.
  destruct (initialize_page page (mkBrowser [] [])) as [[[]| e |] b0];
    try reflexivity.
  pose proof (for_each_query_console rest fuel page queries (b0, file)) as Hfile.
  destruct (for_each_query rest fuel page queries false (b0, file))
    as [r [b' file']].
  exact Hfile.
Qed.

Lemma console_only_run_witness :
  snd (tag_counter no_listing 10 3 halving_client
         ["e621_tag_counter.py"; "-o"; "Cat"] (Some sample_table))
    = Some sample_table.
Proof.
  apply (console_only_run_keeps_the_file no_listing 10 3 halving_client
           ["e621_tag_counter.py"; "-o"; "Cat"] (Some sample_table)).
  reflexivity.
Defined.

Lemma scan_rows_returns :
  forall rows new_row data overwrote_row,
    scan_rows rows new_row data overwrote_row <> OutOfFuel
    /\ scan_rows rows new_row data overwrote_row <> Raise RecursionError.
Proof.
  induction rows as [|row rows IH]; intros new_row data overwrote_row.
  - split; discriminate.
  - cbn [scan_rows]. unfold subscript.
    destruct (dict_get "Tag" row) as [[s| |]|]; cbn [bind py_lower];
      try (split; discriminate).
    destruct (dict_get "Tag" new_row) as [[s'| |]|]; cbn [bind py_lower];
      try (split; discriminate).
    destruct (String.eqb (lower s) (lower s')); apply IH.
Qed.

Lemma writerows_returns :
  forall fieldnames data out,
    fst (writerows fieldnames data out) <> OutOfFuel
    /\ fst (writerows fieldnames data out) <> Raise RecursionError.
Proof.
  induction data as [|d data IH]; intros out.
  - split; discriminate.
  - cbn [writerows]. unfold dict_to_list.
    destruct (negb (forallb (fun k => mem k fieldnames) (keys d))
              || match rest d with Some _ => true | None => false end).
    + split; discriminate.
    + apply IH.
Qed.

Lemma update_csv_file_returns :
  forall new_row file,
    fst (update_csv_file new_row file) <> OutOfFuel
    /\ fst (update_csv_file new_row file) <> Raise RecursionError.
Proof.
  intros new_row file. unfold update_csv_file. fold (stored file).
  pose proof (scan_rows_returns (stored file) new_row [] false) as Hs.
  destruct (scan_rows (stored file) new_row [] false) as [[[nr data] o]| e |].
  - pose proof (writerows_returns (keys nr)
                  (map (deref nr) (if o then data else (data ++ [NewRow])%list))
                  [keys nr]) as Hw.
    destruct (writerows (keys nr)
                (map (deref nr) (if o then data else (data ++ [NewRow])%list))
                [keys nr]) as [r out].
    exact Hw.
  - cbn [fst]. split; [discriminate|].
    intros He. apply (proj2 Hs). inversion He. reflexivity.
  - exfalso. apply (proj1 Hs). reflexivity.
Qed.

(** X5. [print_post_total] changes the file in one way only: by one call of
    [update_csv_file] on a row that holds the tag and the counts of all
    eighteen years.  When the counting does not come to its end, because a
    loop does not end or the stack is exhausted, the file is untouched. *)
Theorem records_are_written_whole :
  forall depth fuel page tags output_to_file b file r b' file',
    print_post_total depth fuel page tags output_to_file (b, file)
      = (r, (b', file')) ->
    (file' = file
     \/ (output_to_file = true
         /\ exists count_of,
              update_csv_file (year_row tags count_of) file = (r, file')))
    /\ (r = OutOfFuel -> file' = file)
    /\ (r = Raise RecursionError -> file' = file).
Proof.
  intros depth fuel page tags output_to_file b file r b' file' Hrun.
  destruct output_to_file.
  - unfold print_post_total in Hrun. cbn [fst snd] in Hrun.
    destruct (count_years depth fuel page tags year_offsets
                (Some (mkDict [("Tag", PStr tags)] None)) b)
      as [[[row|]| e |] b1] eqn:Hc.
    + destruct (count_years_row _ _ _ _ _ _ _ Hc) as [count_of Hrow].
      inversion Hrow; subst row.
      pose proof (update_csv_file_returns (year_row tags count_of) file) as Hu.
      destruct (update_csv_file (year_row tags count_of) file) as [r0 f0] eqn:Hup.
      inversion Hrun; subst. split; [|split].
      * right. split; [reflexivity|]. exists count_of. exact Hup.
      * intros Hr. exfalso. apply (proj1 Hu). exact Hr.
      * intros Hr. exfalso. apply (proj2 Hu). exact Hr.
    + inversion Hrun. split; [left|split; intros _]; reflexivity.
    + inversion Hrun. split; [left|split; intros _]; reflexivity.
    + inversion Hrun. split; [left|split; intros _]; reflexivity.
  - pose proof (print_post_total_console depth fuel page tags (b, file)) as Hc.
    rewrite Hrun in Hc. split; [left|split; intros _]; exact Hc.
Qed.

Lemma records_are_written_whole_witness :
  (snd (snd (print_post_total 2 0 empty_client "fox" true
               (fresh, Some sample_table))) = Some sample_table
   \/ (true = true
       /\ exists count_of,
            update_csv_file (year_row "fox" count_of) (Some sample_table)
              = (fst (print_post_total 2 0 empty_client "fox" true
                        (fresh, Some sample_table)),
                 snd (snd (print_post_total 2 0 empty_client "fox" true
                             (fresh, Some sample_table))))))
  /\ (fst (print_post_total 2 0 empty_client "fox" true
             (fresh, Some sample_table)) = OutOfFuel ->
      snd (snd (print_post_total 2 0 empty_client "fox" true
                  (fresh, Some sample_table))) = Some sample_table)
  /\ (fst (print_post_total 2 0 empty_client "fox" true
             (fresh, Some sample_table)) = Raise RecursionError ->
      snd (snd (print_post_total 2 0 empty_client "fox" true
                  (fresh, Some sample_table))) = Some sample_table).
Proof.
  apply (records_are_written_whole 2 0 empty_client "fox" true fresh
           (Some sample_table) _
           (fst (snd (print_post_total 2 0 empty_client "fox" true
                        (fresh, Some sample_table))))).
  vm_compute. reflexivity.
Defined.

(** X6. On a file that is absent, empty, or holds a header and no record,
    [update_csv_file] writes the new row's keys as the header and the new
    row as the only record. *)
Theorem first_record_makes_the_table :
  forall new_row file,
    stored file = [] ->
    rest new_row = None ->
    update_csv_file new_row file
      = (Ret tt, Some [keys new_row; line_of (keys new_row) new_row]).
Proof.
  intros new_row file Hempty Hrest. unfold update_csv_file.
  fold (stored file). rewrite Hempty. simpl.
  rewrite dict_to_list_fits, (fits_own_keys _ Hrest). reflexivity.
Qed.

Lemma first_record_witness :
  update_csv_file (year_row "fox" same_count) None
    = (Ret tt,
       Some [keys (year_row "fox" same_count);
             line_of (keys (year_row "fox" same_count))
               (year_row "fox" same_count)])
  /\ update_csv_file (year_row "fox" same_count) (Some [["Tag"; "2024"]; []])
     = (Ret tt,
        Some [keys (year_row "fox" same_count);
              line_of (keys (year_row "fox" same_count))
                (year_row "fox" same_count)]).
Proof.
  split.
  - apply (first_record_makes_the_table (year_row "fox" same_count) None);
      reflexivity.
  - apply (first_record_makes_the_table (year_row "fox" same_count)
             (Some [["Tag"; "2024"]; []])); reflexivity.
Defined.

(** ** Tables the store cannot read *)

Lemma scan_rows_stops q :
  forall before new_row data overwrote t0 r after,
    tag_text new_row = Some t0 ->
    lower t0 = lower q ->
    Forall (fun x => tag_text x <> None) before ->
    tag_text r = None ->
    scan_rows (before ++ r :: after) new_row data overwrote
      = Raise (match dict_get "Tag" r with
               | None => KeyError
               | Some _ => AttributeError
               end).
Proof.
  induction before as [|x before IH];
    intros new_row data overwrote t0 r after Ht0 Hlow Hall Hr; simpl.
  - unfold subscript, tag_text in *.
    destruct (dict_get "Tag" r) as [[s|z|]|]; simpl;
      [discriminate | reflexivity | reflexivity | reflexivity].
  - inversion Hall as [|x' before' Hx Hbefore]; subst.
    destruct (tag_text x) as [t|] eqn:Ht; [|contradiction].
    rewrite (tag_text_subscript _ _ Ht), (tag_text_subscript _ _ Ht0). simpl.
    rewrite Hlow. destruct (String.eqb (lower t) (lower q)) eqn:Hm.
    + apply String.eqb_eq in Hm.
      apply (IH _ _ _ t _ _ (tag_text_set t new_row) Hm Hbefore Hr).
    + apply (IH _ _ _ t0 _ _ Ht0 Hlow Hbefore Hr).
Qed.

Lemma drop_known_stops :
  forall before tags r after,
    Forall (fun x => tag_text x <> None) before ->
    tag_text r = None ->
    drop_known (before ++ r :: after) tags
      = Raise (match dict_get "Tag" r with
               | None => KeyError
               | Some _ => AttributeError
               end).
Proof.
  induction before as [|x before IH]; intros tags r after Hall Hr; simpl.
  - unfold subscript, tag_text in *.
    destruct (dict_get "Tag" r) as [[s|z|]|]; simpl;
      [discriminate | reflexivity | reflexivity | reflexivity].
  - inversion Hall as [|x' before' Hx Hbefore]; subst.
    destruct (tag_text x) as [t|] eqn:Ht; [|contradiction].
    rewrite (tag_text_subscript _ _ Ht). simpl.
    apply (IH _ _ _ Hbefore Hr).
Qed.

(** X7. When a stored record has no tag text, both readers stop at the first
    such record: with [KeyError] if the record has no [Tag] column, with
    [AttributeError] if it has one that holds [None] (its line ends before
    that column).  [update_csv_file] then has not opened the file for
    writing: the file holds what it held. *)
Theorem record_without_tag_stops_the_store :
  forall new_row q tags g before r after,
    tag_text new_row = Some q ->
    stored (Some g) = (before ++ r :: after)%list ->
    Forall (fun x => tag_text x <> None) before ->
    tag_text r = None ->
    update_csv_file new_row (Some g)
      = (Raise (match dict_get "Tag" r with
                | None => KeyError
                | Some _ => AttributeError
                end), Some g)
    /\ remove_known_tags tags (Some g)
       = Raise (match dict_get "Tag" r with
                | None => KeyError
                | Some _ => AttributeError
                end).
Proof.
  intros new_row q tags g before r after Hq Hstored Hbefore Hr. split.
  - unfold update_csv_file. cbv beta iota zeta.
    change (DictReader (open_read g)) with (stored (Some g)). rewrite Hstored.
    rewrite (scan_rows_stops q _ _ _ _ q _ _ Hq eq_refl Hbefore Hr).
    reflexivity.
  - unfold remove_known_tags.
    change (DictReader (open_read g)) with (stored (Some g)).
    rewrite Hstored. apply drop_known_stops; assumption.
Qed.

Lemma record_without_tag_witness :
  update_csv_file (year_row "fox" same_count)
    (Some [["2024"; "Tag"]; ["9"; "wolf"]; ["7"]; ["3"; "cat"]])
    = (Raise AttributeError,
       Some [["2024"; "Tag"]; ["9"; "wolf"]; ["7"]; ["3"; "cat"]])
  /\ remove_known_tags ["cat"]
       (Some [["2024"; "Tag"]; ["9"; "wolf"]; ["7"]; ["3"; "cat"]])
     = Raise AttributeError.
Proof.
  apply (record_without_tag_stops_the_store
           (year_row "fox" same_count) "fox" ["cat"]
           [["2024"; "Tag"]; ["9"; "wolf"]; ["7"]; ["3"; "cat"]]
           [read_row ["2024"; "Tag"] ["9"; "wolf"]]
           (read_row ["2024"; "Tag"] ["7"])
           [read_row ["2024"; "Tag"] ["3"; "cat"]]).
  - reflexivity.
  - reflexivity.
  - repeat constructor. vm_compute. discriminate.
  - reflexivity.
Defined.

Lemma zip_items_absent k :
  forall fieldnames row acc,
    ~ In k fieldnames ->
    assoc_get k (zip_items fieldnames row acc) = assoc_get k acc.
Proof.
  induction fieldnames as [|k0 ks IH]; intros row acc Hnot; simpl;
    [reflexivity|].
  destruct row as [|v row]; [reflexivity|].
  rewrite IH by (intros Hin; apply Hnot; right; exact Hin).
  rewrite assoc_get_set.
  destruct (String.eqb k k0) eqn:E; [|reflexivity].
  apply String.eqb_eq in E. exfalso. apply Hnot. left. symmetry. exact E.
Qed.

Lemma fill_none_absent k :
  forall missing acc,
    ~ In k missing ->
    assoc_get k (fold_left (fun acc k' => assoc_set k' PNone acc) missing acc)
      = assoc_get k acc.
Proof.
  induction missing as [|k0 ks IH]; intros acc Hnot; simpl; [reflexivity|].
  rewrite IH by (intros Hin; apply Hnot; right; exact Hin).
  rewrite assoc_get_set.
  destruct (String.eqb k k0) eqn:E; [|reflexivity].
  apply String.eqb_eq in E. exfalso. apply Hnot. left. symmetry. exact E.
Qed.

Lemma In_skipn (x : string) :
  forall n l, In x (skipn n l) -> In x l.
Proof.
  induction n as [|n IH]; intros l Hin; [exact Hin|].
  destruct l as [|y l]; [exact Hin|]. right. apply IH. exact Hin.
Qed.

Lemma read_row_absent k fieldnames row :
  ~ In k fieldnames -> dict_get k (read_row fieldnames row) = None.
Proof.
  intros Hnot. unfold read_row, dict_get.
  destruct (Nat.ltb (List.length fieldnames) (List.length row)); simpl.
  - rewrite zip_items_absent by exact Hnot. reflexivity.
  - destruct (Nat.ltb (List.length row) (List.length fieldnames)); simpl.
    + rewrite fill_none_absent
        by (intros Hin; apply Hnot; apply (In_skipn _ _ _ Hin)).
      rewrite zip_items_absent by exact Hnot. reflexivity.
    + rewrite zip_items_absent by exact Hnot. reflexivity.
Qed.

Lemma as_read_tag k : universal_newlines k = "Tag" -> k = "Tag".
Proof.
  destruct k as [|c1 k]; cbn [universal_newlines]; [discriminate|].
  destruct (Ascii.eqb c1 "013"); [discriminate|].
  intros H1. inversion H1 as [[Hc1 Hk1]]. clear H1.
  destruct k as [|c2 k]; cbn [universal_newlines] in Hk1; [discriminate|].
  destruct (Ascii.eqb c2 "013"); [discriminate|].
  inversion Hk1 as [[Hc2 Hk2]]. clear Hk1.
  destruct k as [|c3 k]; cbn [universal_newlines] in Hk2; [discriminate|].
  destruct (Ascii.eqb c3 "013"); [discriminate|].
  inversion Hk2 as [[Hc3 Hk3]]. clear Hk2.
  destruct k as [|c4 k]; [reflexivity|]. cbn [universal_newlines] in Hk3.
  destruct (Ascii.eqb c4 "013"); discriminate.
Qed.

Lemma as_read_blank lines :
  filter (fun r => negb (is_blank r)) (map (map universal_newlines) lines)
    = map (map universal_newlines) (filter (fun r => negb (is_blank r)) lines).
Proof.
  induction lines as [|line lines IH]; [reflexivity|].
  cbn [map filter]. rewrite IH. destruct line; reflexivity.
Qed.

(** X8. A file whose header has no [Tag] column and that holds at least one
    line that is not blank cannot be used as the table: the known-tag filter
    and [update_csv_file] both raise [KeyError], and the file is left as it
    is. *)
Theorem table_without_tag_column_is_refused :
  forall header lines tags new_row,
    ~ In "Tag" header ->
    Exists (fun line => line <> []) lines ->
    remove_known_tags tags (Some (header :: lines)) = Raise KeyError
    /\ update_csv_file new_row (Some (header :: lines))
       = (Raise KeyError, Some (header :: lines)).
Proof.
  intros header lines tags new_row Hnot Hex.
  assert (Hfirst : exists line rest_lines,
             filter (fun r => negb (is_blank r)) lines = line :: rest_lines).
  { induction Hex as [line lines Hline | line lines Hex IH].
    - destruct line as [|v line]; [contradiction|]. simpl.
      eexists; eexists; reflexivity.
    - destruct IH as [l0 [rest0 Hf]]. simpl.
      destruct (negb (is_blank line));
        [eexists; eexists; reflexivity | exists l0, rest0; exact Hf]. }
  destruct Hfirst as [line [rest_lines Hf]].
  assert (Hnot' : ~ In "Tag" (map universal_newlines header)).
  { intros Hin. apply in_map_iff in Hin. destruct Hin as [k [Hk Hin]].
    apply as_read_tag in Hk. subst k. exact (Hnot Hin). }
  split.
  - unfold remove_known_tags, DictReader, open_read. cbn [map].
    rewrite as_read_blank, Hf. simpl.
    unfold subscript. rewrite (read_row_absent _ _ _ Hnot'). reflexivity.
  - unfold update_csv_file, DictReader, open_read. cbn [map].
    rewrite as_read_blank, Hf. simpl.
    unfold subscript at 1. rewrite (read_row_absent _ _ _ Hnot'). reflexivity.
Qed.

Lemma table_without_tag_column_witness :
  remove_known_tags ["fox"] (Some [["name"; "count"]; []; ["fox"; "3"]])
    = Raise KeyError
  /\ update_csv_file (year_row "fox" same_count)
       (Some [["name"; "count"]; []; ["fox"; "3"]])
     = (Raise KeyError, Some [["name"; "count"]; []; ["fox"; "3"]]).
Proof.
  apply (table_without_tag_column_is_refused ["name"; "count"]
           [[]; ["fox"; "3"]] ["fox"] (year_row "fox" same_count)).
  - intros [H|[H|[]]]; discriminate H.
  - right. left. discriminate.
Defined.

(** ** Records keyed alike *)

(** X9. [new_row] is one object: each stored record keyed like it is
    replaced by that object, whose tag text is set anew at every such record.
    So when several stored records are keyed like the new row, all of them
    are written with the new values and with the tag text of the last of
    them; no record is added and the others keep their place. *)
Theorem alike_records_share_the_last_casing :
  forall new_row q file before r after t,
    tag_text new_row = Some q ->
    rest new_row = None ->
    stored file = (before ++ r :: after)%list ->
    Forall (fun x => tag_text x <> None) before ->
    Forall (fun x => matches q x = false -> fits (keys new_row) x = true)
      (before ++ after) ->
    tag_text r = Some t ->
    lower t = lower q ->
    Forall (fun x => exists t', tag_text x = Some t' /\ lower t' <> lower q)
      after ->
    update_csv_file new_row file
      = (Ret tt,
         Some (keys new_row
               :: map (fun x =>
                         if matches q x
                         then map (fun k => if String.eqb k "Tag" then t
                                            else cell k new_row) (keys new_row)
                         else line_of (keys new_row) x)
                    (stored file))).
Proof.
  intros new_row q file before r after t Hq Hrest Hfile Hbefore Hfit Ht Hlow Hafter.
  assert (Hr : matches q r = true)
    by (unfold matches; rewrite Ht; apply String.eqb_eq; exact Hlow).
  assert (Hun : Forall (fun x => matches q x = false) after).
  { eapply Forall_impl; [|exact Hafter]. intros x Hx.
    apply other_tag_unmatched. exact Hx. }
  assert (Htag : Forall (fun x => tag_text x <> None) (stored file)).
  { rewrite Hfile. apply Forall_app. split; [exact Hbefore|].
    constructor; [rewrite Ht; discriminate|].
    eapply Forall_impl; [|exact Hafter]. intros x [t' [Hx _]].
    rewrite Hx. discriminate. }
  assert (Hlast : final_row q new_row (stored file)
                  = dict_set "Tag" (PStr t) new_row).
  { unfold final_row, last_match. rewrite Hfile, fold_left_app. simpl.
    unfold later_match at 2. rewrite Hr, Ht.
    rewrite (later_match_skip q after _ Hun). reflexivity. }
  assert (Hex : existsb (matches q) (stored file) = true).
  { rewrite Hfile, existsb_app. simpl. rewrite Hr, orb_true_r. reflexivity. }
  rewrite (update_csv_file_spec new_row q file Hq Htag).
  unfold new_data. rewrite Hex, app_nil_r, Hlast.
  rewrite writerows_fit.
  - simpl. rewrite map_map. do 3 f_equal. apply map_ext. intros x.
    destruct (matches q x); [|reflexivity].
    unfold line_of. apply map_ext. intros k. apply cell_retag.
  - apply replaced_fit.
    + rewrite <- Hlast. apply final_row_fits; assumption.
    + rewrite Hfile. apply Forall_app in Hfit. destruct Hfit as [Hfb Hfa].
      apply Forall_app. split; [exact Hfb|].
      constructor; [intros Hno; rewrite Hr in Hno; discriminate | exact Hfa].
Qed.

Lemma alike_records_witness :
  update_csv_file (year_row "Fox" same_count)
    (Some [["Tag"]; ["fox"]; ["wolf"]; ["FOX"]])
    = (Ret tt,
       Some [keys (year_row "Fox" same_count);
             "FOX" :: repeat "3" 18;
             "wolf" :: repeat "" 18;
             "FOX" :: repeat "3" 18]).
Proof.
  apply (alike_records_share_the_last_casing
           (year_row "Fox" same_count) "Fox"
           (Some [["Tag"]; ["fox"]; ["wolf"]; ["FOX"]])
           [read_row ["Tag"] ["fox"]; read_row ["Tag"] ["wolf"]]
           (read_row ["Tag"] ["FOX"]) [] "FOX").
  - reflexivity.
  - reflexivity.
  - reflexivity.
  - repeat constructor; vm_compute; discriminate.
  - repeat constructor; intros _; reflexivity.
  - reflexivity.
  - reflexivity.
  - constructor.
Defined.

(** ** Reading a table and writing it back *)



Lemma assoc_set_key_in k k0 v l :
  In k (map fst (assoc_set k0 v l)) -> k = k0 \/ In k (map fst l).
Proof.
  induction l as [|[k1 v1] l IH]; simpl.
  - intros [H|[]]. left. symmetry. exact H.
  - destruct (String.eqb k0 k1); simpl; intros [H|H].
    + right. left. exact H.
    + right. right. exact H.
    + right. left. exact H.
    + destruct (IH H) as [Hk|Hin]; [left; exact Hk | right; right; exact Hin].
Qed.

Lemma zip_items_key_in k :
  forall fieldnames row acc,
    In k (map fst (zip_items fieldnames row acc)) ->
    In k fieldnames \/ In k (map fst acc).
Proof.
  induction fieldnames as [|k0 ks IH]; intros row acc Hin; simpl in Hin;
    [right; exact Hin|].
  destruct row as [|v row]; [right; exact Hin|].
  destruct (IH _ _ Hin) as [Hks | Hacc]; [left; right; exact Hks|].
  destruct (assoc_set_key_in _ _ _ _ Hacc) as [Hk | Hold];
    [left; left; symmetry; exact Hk | right; exact Hold].
Qed.

Lemma read_row_fits fieldnames row :
  List.length row = List.length fieldnames ->
  fits fieldnames (read_row fieldnames row) = true.
Proof.
  intros Hlen. unfold read_row. rewrite Hlen, Nat.ltb_irrefl.
  unfold fits, keys. simpl. rewrite andb_true_r.
  apply forallb_forall. intros k Hk. apply mem_In.
  destruct (zip_items_key_in _ _ _ _ Hk) as [H|[]]. exact H.
Qed.



(** ** What the known-tag filter returns *)

Lemma lower_keys_keeps :
  forall tags acc k, In k acc -> In k (lower_keys tags acc).
Proof.
  induction tags as [|t tags IH]; intros acc k Hin; simpl; [exact Hin|].
  apply IH. destruct (mem (lower t) acc); [exact Hin|].
  apply in_or_app. left. exact Hin.
Qed.

Lemma lower_keys_complete :
  forall tags acc t, In t tags -> In (lower t) (lower_keys tags acc).
Proof.
  induction tags as [|t0 tags IH]; intros acc t Hin; [contradiction|].
  simpl. destruct Hin as [Heq | Hin]; [subst t0 | apply IH; exact Hin].
  apply lower_keys_keeps.
  destruct (mem (lower t) acc) eqn:Hm; [apply mem_In; exact Hm|].
  apply in_or_app. right. left. reflexivity.
Qed.

(** X11. On a table whose records all have a tag text, the known-tag filter
    returns the requested tags in lower case, each once, without those that
    some record is keyed like: a key is returned exactly when it is the lower
    case of a requested tag and no stored record carries it, letter case
    aside. *)
Theorem known_tag_filter_returns_the_new_keys :
  forall tags g,
    Forall (fun r => tag_text r <> None) (stored (Some g)) ->
    exists res,
      remove_known_tags tags (Some g) = Ret res
      /\ NoDup res
      /\ forall k,
           In k res
           <-> (exists t, In t tags /\ k = lower t)
               /\ ~ recorded (stored (Some g)) k.
Proof.
  intros tags g Htag.
  pose proof (lower_keys_NoDup tags [] (NoDup_nil _)) as Hnd.
  exists (filter (fun k => negb (known_key (stored (Some g)) k))
            (lower_keys tags [])).
  split; [|split].
  - unfold remove_known_tags. change (DictReader g) with (stored (Some g)).
    apply drop_known_spec; assumption.
  - apply NoDup_filter. exact Hnd.
  - intros k. rewrite filter_In. split.
    + intros [Hin Hknown]. split.
      * destruct (lower_keys_In _ _ _ Hin) as [[] | Ht]. exact Ht.
      * intros Hrec. apply known_key_recorded in Hrec.
        rewrite Hrec in Hknown. discriminate.
    + intros [[t [Ht Hk]] Hnot]. split.
      * subst k. apply lower_keys_complete. exact Ht.
      * destruct (known_key (stored (Some g)) k) eqn:Hknown; [|reflexivity].
        exfalso. apply Hnot. apply known_key_recorded. exact Hknown.
Qed.

Lemma known_tag_filter_witness :
  exists res,
    remove_known_tags ["Cat"; "FOX"; "cat"; "owl"] (Some sample_table) = Ret res
    /\ NoDup res
    /\ forall k,
         In k res
         <-> (exists t, In t ["Cat"; "FOX"; "cat"; "owl"] /\ k = lower t)
             /\ ~ recorded (stored (Some sample_table)) k.
Proof.
  apply (known_tag_filter_returns_the_new_keys
           ["Cat"; "FOX"; "cat"; "owl"] sample_table).
  repeat constructor; vm_compute; discriminate.
Defined.

Example known_tag_filter_sample :
  remove_known_tags ["Cat"; "FOX"; "cat"; "owl"] (Some sample_table)
    = Ret ["cat"; "owl"].
Proof. reflexivity. Qed.

(** ** The same upsert, again *)

Lemma line_back fieldnames d :
  line_of fieldnames (read_row fieldnames (line_of fieldnames d))
    = line_of fieldnames d.
Proof.
  rewrite read_row_line. unfold line_of at 1 3.
  apply map_ext_in. intros k Hk. unfold cell at 1, dict_get, line_of. simpl.
  rewrite zip_items_get. apply mem_In in Hk. rewrite Hk. reflexivity.
Qed.

Lemma read_back_fits fieldnames d :
  fits fieldnames (read_row fieldnames (line_of fieldnames d)) = true.
Proof.
  apply read_row_fits. unfold line_of. apply length_map.
Qed.

Lemma matches_read_back q fieldnames d :
  In "Tag" fieldnames ->
  matches q (read_row fieldnames (line_of fieldnames d))
    = String.eqb (lower (cell "Tag" d)) (lower q).
Proof.
  intros Hin. unfold matches. rewrite (read_back_tag _ d Hin). reflexivity.
Qed.

Lemma matches_cell q r :
  tag_text r <> None ->
  matches q r = String.eqb (lower (cell "Tag" r)) (lower q).
Proof.
  intros Ht. unfold matches. destruct (tag_text r) as [t|] eqn:E;
    [|contradiction].
  rewrite (tag_text_cell _ _ E). reflexivity.
Qed.

Lemma last_match_source q :
  forall rows acc t,
    fold_left (later_match q) rows acc = Some t ->
    acc = Some t
    \/ exists r, In r rows /\ matches q r = true /\ tag_text r = Some t.
Proof.
  induction rows as [|r rows IH]; intros acc t Hf; simpl in Hf; [left; exact Hf|].
  destruct (IH _ _ Hf) as [Hacc | [r' [Hin [Hm Ht]]]].
  - unfold later_match in Hacc. destruct (matches q r) eqn:Hm.
    + right. exists r. split; [left; reflexivity|]. split; assumption.
    + left. exact Hacc.
  - right. exists r'. split; [right; exact Hin|]. split; assumption.
Qed.

Lemma last_match_found q :
  forall rows acc,
    existsb (matches q) rows = true \/ acc <> None ->
    fold_left (later_match q) rows acc <> None.
Proof.
  induction rows as [|r rows IH]; intros acc Hcase; simpl.
  - destruct Hcase as [H|H]; [discriminate | exact H].
  - apply IH. unfold later_match. destruct (matches q r) eqn:Hm.
    + right. unfold matches in Hm.
      destruct (tag_text r); [discriminate | discriminate Hm].
    + destruct Hcase as [H|H]; [left; simpl in H; rewrite Hm in H; exact H
                                | right; exact H].
Qed.

Lemma cell_of_retag x new_row k :
  cell k (retag x new_row)
    = if String.eqb k "Tag" then cell "Tag" (retag x new_row)
      else cell k new_row.
Proof.
  destruct (String.eqb k "Tag") eqn:E.
  - apply String.eqb_eq in E. subst k. reflexivity.
  - destruct x as [t|]; simpl; [|reflexivity].
    rewrite cell_retag, E. reflexivity.
Qed.

Lemma writerows_returned_fit fieldnames :
  forall data out out',
    writerows fieldnames data out = (Ret tt, out') ->
    Forall (fun d => fits fieldnames d = true) data.
Proof.
  induction data as [|d data IH]; intros out out' Hw; [constructor|].
  simpl in Hw. rewrite dict_to_list_fits in Hw.
  destruct (fits fieldnames d) eqn:Hd; [|discriminate].
  constructor; [exact Hd | apply (IH _ _ Hw)].
Qed.

(** The records of the new data keyed like [q] are all the final row. *)
Lemma new_data_alike q new_row rows d :
  tag_text new_row = Some q ->
  Forall (fun r => tag_text r <> None) rows ->
  In d (new_data q new_row rows) ->
  String.eqb (lower (cell "Tag" d)) (lower q) = true ->
  d = final_row q new_row rows.
Proof.
  intros Hq Htag Hin Hkey. unfold new_data in Hin.
  apply in_app_or in Hin. destruct Hin as [Hin | Hin].
  - apply in_map_iff in Hin. destruct Hin as [r [Hd Hr]].
    destruct (matches q r) eqn:Hm; [symmetry; exact Hd|].
    subst d.
    rewrite <- (matches_cell q r (proj1 (Forall_forall _ _) Htag r Hr)) in Hkey.
    congruence.
  - destruct (existsb (matches q) rows) eqn:Hex; [contradiction|].
    destruct Hin as [Hd | []]. subst d.
    unfold final_row. rewrite (last_match_none q _ Hex). reflexivity.
Qed.

Lemma new_data_has_key q new_row rows :
  tag_text new_row = Some q ->
  exists d,
    In d (new_data q new_row rows)
    /\ String.eqb (lower (cell "Tag" d)) (lower q) = true.
Proof.
  intros Hq. unfold new_data.
  destruct (existsb (matches q) rows) eqn:Hex.
  - apply existsb_exists in Hex. destruct Hex as [r [Hr Hm]].
    exists (final_row q new_row rows). split.
    + apply in_or_app. left. apply in_map_iff. exists r. rewrite Hm.
      split; [reflexivity | exact Hr].
    + apply String.eqb_eq. apply final_row_key. exact Hq.
  - exists new_row. split.
    + apply in_or_app. right. left. reflexivity.
    + apply String.eqb_eq. rewrite (tag_text_cell _ _ Hq). reflexivity.
Qed.

Lemma map_eq_at (f g : string -> string) l x :
  map f l = map g l -> In x l -> f x = g x.
Proof.
  induction l as [|y l IH]; intros Hmap Hin; [contradiction|].
  simpl in Hmap. inversion Hmap as [[Hy Hl]].
  destruct Hin as [Heq | Hin]; [subst y; exact Hy | apply IH; assumption].
Qed.

Lemma clean_row_keys d :
  clean_row d = true -> Forall (fun k => no_cr k = true) (keys d).
Proof.
  unfold clean_row, keys. intros Hd. apply Forall_forall. intros k Hk.
  apply in_map_iff in Hk. destruct Hk as [[k' v] [Hk Hkv]]. subst k.
  pose proof (proj1 (forallb_forall _ _) Hd _ Hkv) as H.
  apply andb_true_iff in H. apply H.
Qed.

Lemma clean_row_cells d :
  clean_row d = true -> forall k, no_cr (cell k d) = true.
Proof.
  unfold clean_row, cell, dict_get. intros Hd k.
  induction (items d) as [|[k' v] l IH]; [reflexivity|].
  cbn [forallb fst snd] in Hd. apply andb_true_iff in Hd.
  destruct Hd as [Hkv Hl]. apply andb_true_iff in Hkv.
  cbn [assoc_get]. destruct (String.eqb k k'); [apply Hkv | apply IH; exact Hl].
Qed.

(** X12. An upsert that has completed can be repeated without effect: the
    same row, with no carriage return in its keys and values, upserted into
    the table it produced finds its record, writes the same values under the
    same tag text, and leaves every line as it is. *)
Theorem upsert_twice_is_upsert_once :
  forall new_row q file file1,
    tag_text new_row = Some q ->
    rest new_row = None ->
    clean_row new_row = true ->
    update_csv_file new_row file = (Ret tt, file1) ->
    update_csv_file new_row file1 = (Ret tt, file1).
Proof.
  intros new_row q file file1 Hq Hrest Hclean Hup.
  pose proof (clean_row_keys _ Hclean) as Hkeys.
  pose proof (new_data_no_cr q new_row file (clean_row_cells _ Hclean)) as Hcells.
  pose proof (update_csv_file_tagged _ _ _ Hup) as Htag.
  rewrite (update_csv_file_spec new_row q file Hq Htag) in Hup.
  destruct (writerows (keys new_row) (new_data q new_row (stored file))
              [keys new_row]) as [r out] eqn:Hw.
  simpl in Hup. inversion Hup; subst r file1. clear Hup.
  apply writerows_returned in Hw. simpl in Hw. subst out.
  pose proof (tag_text_key _ _ Hq) as Hin.
  assert (Hne : keys new_row <> []) by (intros E; rewrite E in Hin; exact Hin).
  set (ks := keys new_row) in *.
  set (D := new_data q new_row (stored file)) in *.
  set (F := final_row q new_row (stored file)).
  set (RB := fun d => read_row ks (line_of ks d)).
  assert (Hstored : stored (Some (ks :: map (line_of ks) D)) = map RB D)
    by (apply stored_written; assumption).
  assert (Htag1 : Forall (fun r => tag_text r <> None)
                    (stored (Some (ks :: map (line_of ks) D)))).
  { rewrite Hstored. apply Forall_forall. intros x Hx.
    apply in_map_iff in Hx. destruct Hx as [d [Hd _]]. subst x. unfold RB.
    rewrite (read_back_tag _ d Hin). discriminate. }
  pose proof (update_csv_file_spec new_row q _ Hq Htag1) as Hspec.
  rewrite Hstored in Hspec. fold ks in Hspec.
  etransitivity; [exact Hspec|]. clear Hspec.
  (* the final row of the second scan is written like the first one *)
  assert (Hex : existsb (matches q) (map RB D) = true).
  { destruct (new_data_has_key q new_row (stored file) Hq) as [d [Hd Hkey]].
    apply existsb_exists. exists (RB d). split; [apply in_map; exact Hd|].
    unfold RB. rewrite (matches_read_back q _ d Hin). exact Hkey. }
  assert (Hfinal : line_of ks (final_row q new_row (map RB D)) = line_of ks F).
  { unfold final_row at 1.
    destruct (last_match q (map RB D)) as [t1|] eqn:Hl.
    - destruct (last_match_source q _ _ _ Hl) as [Hnone | [r1 [Hr1 [Hm1 Ht1]]]];
        [discriminate|].
      apply in_map_iff in Hr1. destruct Hr1 as [d1 [Hd1 HinD]]. subst r1.
      unfold RB in Hm1, Ht1.
      rewrite (matches_read_back q _ d1 Hin) in Hm1.
      rewrite (read_back_tag _ d1 Hin) in Ht1. inversion Ht1 as [Ht]. clear Ht1.
      pose proof (new_data_alike q new_row _ d1 Hq Htag HinD Hm1) as Hd1.
      fold F in Hd1. subst d1. simpl.
      unfold line_of. apply map_ext. intros k.
      rewrite cell_retag. symmetry. unfold F, final_row.
      apply cell_of_retag.
    - exfalso. apply (last_match_found q (map RB D) None (or_introl Hex)).
      exact Hl. }
  assert (Hlines :
    map (line_of ks) (new_data q new_row (map RB D)) = map (line_of ks) D).
  { unfold new_data at 1. rewrite Hex, app_nil_r, !map_map.
    apply map_ext_in. intros d Hd. unfold RB at 1.
    rewrite (matches_read_back q _ d Hin).
    destruct (String.eqb (lower (cell "Tag" d)) (lower q)) eqn:Hkey.
    - rewrite Hfinal.
      pose proof (new_data_alike q new_row _ d Hq Htag Hd Hkey) as Hd'.
      fold F in Hd'. rewrite Hd'. reflexivity.
    - apply line_back. }
  rewrite writerows_fit.
  - simpl. rewrite Hlines. reflexivity.
  - unfold new_data. rewrite Hex, app_nil_r.
    apply replaced_fit; [apply final_row_fits; assumption|].
    apply Forall_forall. intros x Hx _.
    apply in_map_iff in Hx. destruct Hx as [d [Hd _]]. subst x.
    apply read_back_fits.
Qed.

Lemma upsert_twice_witness :
  update_csv_file (year_row "Fox" same_count)
    (snd (update_csv_file (year_row "Fox" same_count) (Some sample_table)))
    = (Ret tt,
       snd (update_csv_file (year_row "Fox" same_count) (Some sample_table))).
Proof.
  apply (upsert_twice_is_upsert_once (year_row "Fox" same_count) "Fox"
           (Some sample_table)).
  - reflexivity.
  - reflexivity.
  - vm_compute. reflexivity.
  - vm_compute. reflexivity.
Defined.

(** With a carriage return in the tag, the record written is read back with a
    line feed in its place, is not found again, and is written a second
    time. *)
Example carriage_return_is_read_as_line_feed :
  update_csv_file (year_row (String "a" (String "013" "b")) same_count)
    (Some [keys (year_row "cat" same_count);
           String "a" (String "013" "b") :: repeat "3" 18])
  = (Ret tt,
     Some [keys (year_row "cat" same_count);
           String "a" (String "010" "b") :: repeat "3" 18;
           String "a" (String "013" "b") :: repeat "3" 18]).
Proof. vm_compute. reflexivity. Qed.

(* ------------------------------------------------------------------ *)
(** * Further properties of the command line *)

Lemma remove_first_absent k l : mem k l = false -> remove_first k l = l.
Proof.
  induction l as [|x l IH]; simpl; [reflexivity|].
  intros H. apply orb_false_elim in H. destruct H as [Hx Hl].
  rewrite Hx, (IH Hl). reflexivity.
Qed.

Lemma if_mem_remove_first k l :
  (if mem k l then remove_first k l else l) = remove_first k l.
Proof.
  destruct (mem k l) eqn:Hm; [reflexivity|].
  symmetry. apply remove_first_absent. exact Hm.
Qed.

Lemma mem_remove_other x y l :
  String.eqb x y = false -> mem x (remove_first y l) = mem x l.
Proof.
  intros Hxy. induction l as [|z l IH]; simpl; [reflexivity|].
  destruct (String.eqb y z) eqn:Hyz; simpl.
  - apply String.eqb_eq in Hyz. subst z. rewrite Hxy. reflexivity.
  - rewrite IH. reflexivity.
Qed.

Lemma take_page_range_absent listing arguments :
  mem "-p" arguments = false -> take_page_range listing arguments = Ret arguments.
Proof.
  intros Hp. unfold take_page_range. rewrite (index_of_absent _ _ Hp).
  reflexivity.
Qed.

(** X13. Without [-p]: with [-c], the tokens left once the first [-o], [-w]
    and [-c] are taken out are joined by spaces into one query, which is
    returned whatever the stored table holds (a table that cannot be read
    included); with [-w] and no [-c], these tokens are returned as they are,
    repeated ones too, again whatever the table holds. *)
Theorem concatenate_and_overwrite_skip_the_filter :
  forall listing argv file,
    mem "-p" (map lower (tl argv)) = false ->
    (mem "-c" (map lower (tl argv)) = true ->
     remove_first "-c"
       (remove_first "-w" (remove_first "-o" (map lower (tl argv)))) <> [] ->
     get_queries listing argv file
       = Ret [join " "
                (remove_first "-c"
                   (remove_first "-w"
                      (remove_first "-o" (map lower (tl argv)))))])
    /\ (mem "-c" (map lower (tl argv)) = false ->
        mem "-w" (map lower (tl argv)) = true ->
        get_queries listing argv file
          = Ret (remove_first "-w" (remove_first "-o" (map lower (tl argv))))).
Proof.
  intros listing argv file Hp. unfold get_queries.
  rewrite if_mem_remove_first.
  rewrite (take_page_range_absent listing _ (mem_remove_first _ "-o" _ Hp)).
  simpl bind. rewrite !if_mem_remove_first.
  rewrite (mem_remove_other "-c" "-w" _ eq_refl),
          (mem_remove_other "-c" "-o" _ eq_refl),
          (mem_remove_other "-w" "-o" _ eq_refl).
  split.
  - intros Hc Hne. rewrite Hc.
    destruct (remove_first "-c"
                (remove_first "-w" (remove_first "-o" (map lower (tl argv)))))
      as [|x l]; [contradiction | reflexivity].
  - intros Hc Hw. rewrite Hc, Hw. simpl.
    rewrite (remove_first_absent "-c"); [reflexivity|].
    rewrite (mem_remove_other "-c" "-w" _ eq_refl),
            (mem_remove_other "-c" "-o" _ eq_refl).
    exact Hc.
Qed.

Lemma concatenate_and_overwrite_witness :
  get_queries no_listing ["e621_tag_counter.py"; "Fox"; "-C"; "red_fur"]
    (Some [["name"]; ["fox"]])
    = Ret ["fox red_fur"]
  /\ get_queries no_listing ["e621_tag_counter.py"; "fox"; "-w"; "Fox"]
       (Some sample_table)
     = Ret ["fox"; "fox"].
Proof.
  split.
  - apply (proj1 (concatenate_and_overwrite_skip_the_filter no_listing
                    ["e621_tag_counter.py"; "Fox"; "-C"; "red_fur"]
                    (Some [["name"]; ["fox"]]) eq_refl)).
    + reflexivity.
    + discriminate.
  - apply (proj2 (concatenate_and_overwrite_skip_the_filter no_listing
                    ["e621_tag_counter.py"; "fox"; "-w"; "Fox"]
                    (Some sample_table) eq_refl)).
    + reflexivity.
    + reflexivity.
Defined.

Lemma pop_at_short :
  forall i l, (List.length l <= i)%nat -> pop_at i l = None.
Proof.
  induction i as [|i IH]; intros l Hlen; destruct l as [|x l]; simpl in *;
    try reflexivity; try lia.
  rewrite IH by lia. reflexivity.
Qed.

Lemma pop_at_nth :
  forall i l x, nth_error l i = Some x -> exists l', pop_at i l = Some (x, l').
Proof.
  induction i as [|i IH]; intros l x Hnth; destruct l as [|y l]; simpl in *;
    try discriminate.
  - inversion Hnth; subst. eexists. reflexivity.
  - destruct (IH _ _ Hnth) as [l' Hpop]. rewrite Hpop. eexists. reflexivity.
Qed.

(** X14. The page range is read before any tag is looked up, and the run
    stops on a bad one whatever the listing and the stored table are: [-p]
    as the last argument raises [IndexError]; [-p] followed by an argument
    that is not of the form [X] or [X..Y] raises the page-range exception. *)
Theorem page_range_is_checked_first :
  forall listing argv file i,
    index_of "-p" (remove_first "-o" (map lower (tl argv))) = Some i ->
    (List.length (remove_first "-o" (map lower (tl argv))) = S i ->
     get_queries listing argv file = Raise IndexError)
    /\ (forall page_range,
          nth_error (remove_first "-o" (map lower (tl argv))) (S i)
            = Some page_range ->
          match_page_range page_range = None ->
          get_queries listing argv file = Raise PageRangeError).
Proof.
  intros listing argv file i Hi. unfold get_queries.
  rewrite if_mem_remove_first. unfold take_page_range. rewrite Hi.
  rewrite Nat.add_1_r. split.
  - intros Hlen. rewrite pop_at_short by lia. reflexivity.
  - intros page_range Hnth Hbad.
    destruct (pop_at_nth _ _ _ Hnth) as [l' Hpop]. rewrite Hpop.
    unfold get_tag_names_by_page_range. rewrite Hbad. reflexivity.
Qed.

Lemma page_range_is_checked_witness :
  get_queries mixed_listing ["e621_tag_counter.py"; "fox"; "-p"] None
    = Raise IndexError
  /\ get_queries mixed_listing ["e621_tag_counter.py"; "-p"; "3.."; "fox"]
       (Some sample_table)
     = Raise PageRangeError.
Proof.
  split.
  - apply (proj1 (page_range_is_checked_first mixed_listing
                    ["e621_tag_counter.py"; "fox"; "-p"] None 1 eq_refl)).
    reflexivity.
  - apply (proj2 (page_range_is_checked_first mixed_listing
                    ["e621_tag_counter.py"; "-p"; "3.."; "fox"]
                    (Some sample_table) 0 eq_refl) "3..").
    + reflexivity.
    + reflexivity.
Defined.

(** ** Page ranges, printed and read *)

Lemma match_page_range_one a : 0 <= a -> match_page_range (str a) = Some (a, a).
Proof.
  intros Ha. unfold match_page_range.
  rewrite <- (append_empty (str a)), (read_digits_str a "" Ha I). reflexivity.
Qed.

Lemma match_page_range_two a b :
  0 <= a -> 0 <= b -> match_page_range (str a ++ ".." ++ str b) = Some (a, b).
Proof.
  intros Ha Hb. unfold match_page_range.
  rewrite (read_digits_str a (".." ++ str b) Ha eq_refl).
  cbn [append at_end].
  rewrite <- (append_empty (str b)), (read_digits_str b "" Hb I). reflexivity.
Qed.

Lemma match_page_range_negative a : a < 0 -> match_page_range (str a) = None.
Proof.
  intros Ha. destruct a as [|p|p]; [lia | lia | reflexivity].
Qed.

(** X15. A page range written as the decimal numeral of a page [a >= 0], or
    as two such numerals joined by two dots, is read back as these numbers:
    [-p a] asks the listing for the single page [a], [-p a..b] for the pages
    [a] to [b].  A numeral with a minus sign is refused. *)
Theorem page_range_is_read_as_written :
  forall listing a b,
    0 <= a -> 0 <= b ->
    get_tag_names_by_page_range listing (str a) = listing a a
    /\ get_tag_names_by_page_range listing (str a ++ ".." ++ str b) = listing a b
    /\ get_tag_names_by_page_range listing (str (- a - 1)) = Raise PageRangeError.
Proof.
  intros listing a b Ha Hb. unfold get_tag_names_by_page_range.
  rewrite (match_page_range_one a Ha), (match_page_range_two a b Ha Hb),
          (match_page_range_negative (- a - 1)) by lia.
  repeat split.
Qed.

Lemma page_range_is_read_witness :
  get_tag_names_by_page_range mixed_listing (str 12) = mixed_listing 12 12
  /\ get_tag_names_by_page_range mixed_listing (str 12 ++ ".." ++ str 345)
     = mixed_listing 12 345
  /\ get_tag_names_by_page_range mixed_listing (str (- 12 - 1))
     = Raise PageRangeError.
Proof.
  apply (page_range_is_read_as_written mixed_listing 12 345); lia.
Defined.

(** ** The quoted year query *)

Lemma url_decode_encode_char c s :
  url_decode_plus (url_encode_plus (String c s))
    = String c (url_decode_plus (url_encode_plus s)).
Proof.
  destruct c as [[] [] [] [] [] [] [] []]; reflexivity.
Qed.

Lemma url_decode_encode s : url_decode_plus (url_encode_plus s) = s.
Proof.
  induction s as [|c s IH]; [reflexivity|].
  rewrite url_decode_encode_char, IH. reflexivity.
Qed.

Lemma url_encode_char_safe c s :
  all_chars url_char (url_encode_plus (String c s))
    = all_chars url_char (url_encode_plus s).
Proof.
  destruct c as [[] [] [] [] [] [] [] []]; reflexivity.
Qed.

(** X16. The quoting of the year query loses nothing and leaves nothing
    unquoted: two texts quoted alike are the same text, and the quoted text
    is made of letters, digits, [_], [.], [-], [~], [+] and [%] only, so
    that a space or an ampersand in a tag cannot end the URL parameter. *)
Theorem year_query_quoting_is_faithful :
  forall s1 s2,
    (url_encode_plus s1 = url_encode_plus s2 -> s1 = s2)
    /\ all_chars url_char (url_encode_plus s1) = true.
Proof.
  intros s1 s2. split.
  - intros Heq. rewrite <- (url_decode_encode s1), <- (url_decode_encode s2), Heq.
    reflexivity.
  - induction s1 as [|c s IH]; [reflexivity|].
    rewrite url_encode_char_safe. exact IH.
Qed.

Lemma year_query_quoting_witness :
  "red fox&wolf status:any" = "red fox&wolf status:any"
  /\ all_chars url_char (url_encode_plus "red fox&wolf status:any") = true.
Proof.
  destruct (year_query_quoting_is_faithful
              "red fox&wolf status:any" "red fox&wolf status:any") as [Hinj Hsafe].
  split; [apply Hinj; reflexivity | exact Hsafe].
Defined.

Example url_encode_plus_sample :
  url_encode_plus "red fox&wolf+cat status:any"
    = "red+fox%26wolf%2Bcat+status%3Aany".
Proof. reflexivity. Qed.

(** ** The tag listing *)

Lemma collect_links_wanted :
  forall links names,
    Forall (fun l => fst l <> None) links ->
    collect_links links names = Ret (names ++ wanted_names links)%list.
Proof.
  induction links as [|[[href|] text] links IH]; intros names Hall; simpl.
  - rewrite app_nil_r. reflexivity.
  - inversion Hall as [|l links' Hl Hrest]; subst.
    unfold wanted_names. simpl.
    destruct (String.prefix "/posts?tags=" href).
    + rewrite (IH _ Hrest), <- app_assoc. reflexivity.
    + apply IH. exact Hrest.
  - inversion Hall as [|l links' Hl Hrest]; subst. simpl in Hl. contradiction.
Qed.

Lemma collect_links_without_href :
  forall links names,
    Exists (fun l => fst l = None) links ->
    collect_links links names = Raise AttributeError.
Proof.
  induction links as [|[[href|] text] links IH]; intros names Hex; simpl.
  - inversion Hex.
  - inversion Hex as [l links' Hl | l links' Hrest]; subst;
      [simpl in Hl; discriminate|].
    destruct (String.prefix "/posts?tags=" href); apply IH; exact Hrest.
  - reflexivity.
Qed.

Lemma visit_pages_stable page (site : string -> list (option string * string)) :
  (forall h url, page h url = TagLinks (site url)) ->
  (forall url, Forall (fun l => fst l <> None) (site url)) ->
  forall pages names h,
    visit_pages page pages names h
      = (Ret (names ++ flat_map (fun i => wanted_names (site (tags_url i))) pages)%list,
         (rev (map tags_url pages) ++ h)%list).
Proof.
  intros Hpage Hhref. induction pages as [|i pages IH]; intros names h; simpl.
  - rewrite app_nil_r. reflexivity.
  - rewrite Hpage, (collect_links_wanted _ _ (Hhref _)), IH.
    rewrite <- !app_assoc. reflexivity.
Qed.

(** X17. Against a site that answers every visit, each page with links that
    all have an [href], the listing returns the texts of the links leading to
    ["/posts?tags=..."], page after page from the first to the last asked
    for and in the order of each page, after one visit per page; a range
    whose last page is below its first visits nothing and lists nothing. *)
Theorem tag_listing_collects_the_post_links :
  forall page site depth first_page last_page h,
    (forall h' url, page h' url = TagLinks (site url)) ->
    (forall url, Forall (fun l => fst l <> None) (site url)) ->
    parse_tag_names_from_page depth page first_page last_page h
      = (Ret (flat_map (fun i => wanted_names (site (tags_url i)))
                (page_numbers first_page last_page)),
         (rev (map tags_url (page_numbers first_page last_page)) ++ h)%list)
    /\ (last_page < first_page ->
        parse_tag_names_from_page depth page first_page last_page h
          = (Ret [], h)).
Proof.
  intros page site depth first_page last_page h Hpage Hhref.
  assert (Hrun : parse_tag_names_from_page depth page first_page last_page h
                 = (Ret (flat_map (fun i => wanted_names (site (tags_url i)))
                           (page_numbers first_page last_page)),
                    (rev (map tags_url (page_numbers first_page last_page)) ++ h)%list)).
  { destruct depth; cbn [parse_tag_names_from_page];
      rewrite (visit_pages_stable page site Hpage Hhref); reflexivity. }
  split; [exact Hrun|].
  intros Hlt. rewrite Hrun. unfold page_numbers.
  replace (Z.to_nat (last_page + 1 - first_page)) with 0%nat by lia.
  reflexivity.
Qed.

Lemma tag_listing_collects_witness :
  parse_tag_names_from_page 0 two_page_client 1 2 []
    = (Ret ["anthro"; "fox"], [tags_url 2; tags_url 1]).
Proof.
  assert (Hpage : forall h' url, two_page_client h' url = TagLinks (two_page_site url))
    by reflexivity.
  assert (Hhref : forall url, Forall (fun l => fst l <> None) (two_page_site url)).
  { intros url. unfold two_page_site.
    destruct (String.eqb url (tags_url 1)); repeat constructor; discriminate. }
  exact (proj1 (tag_listing_collects_the_post_links
                  two_page_client two_page_site 0 1 2 [] Hpage Hhref)).
Defined.

Lemma parse_tag_names_eq depth page first_page last_page h :
  parse_tag_names_from_page depth page first_page last_page h
    = match visit_pages page (page_numbers first_page last_page) [] h with
      | (Raise TimeoutError, h') =>
          call depth
            (fun d => parse_tag_names_from_page d page first_page last_page) h'
      | other => other
      end.
Proof. destruct depth; reflexivity. Qed.

Lemma listing_never_times_out page first_page last_page :
  forall depth h,
    fst (parse_tag_names_from_page depth page first_page last_page h)
      <> Raise TimeoutError.
Proof.
  induction depth as [|depth IH]; intros h; rewrite parse_tag_names_eq;
    destruct (visit_pages page (page_numbers first_page last_page) [] h)
      as [[names| e |] h1]; simpl; try discriminate;
    destruct e; simpl; try discriminate.
  apply IH.
Qed.

Lemma listing_retries page first_page last_page :
  forall k depth h names h',
    (k <= depth)%nat ->
    (forall i, (i < k)%nat ->
       fst (visit_pages page (page_numbers first_page last_page) []
              (after_listings page (page_numbers first_page last_page) i h))
         = Raise TimeoutError) ->
    visit_pages page (page_numbers first_page last_page) []
      (after_listings page (page_numbers first_page last_page) k h)
      = (Ret names, h') ->
    parse_tag_names_from_page depth page first_page last_page h = (Ret names, h').
Proof.
  induction k as [|k IH]; intros depth h names h' Hk Hfail Hok;
    rewrite parse_tag_names_eq; simpl in Hok.
  - rewrite Hok. reflexivity.
  - destruct depth as [|depth]; [lia|].
    pose proof (Hfail O ltac:(lia)) as H0. simpl in H0.
    destruct (visit_pages page (page_numbers first_page last_page) [] h)
      as [r0 h1] eqn:E0.
    simpl in H0. subst r0. cbn [call].
    apply (IH depth h1 names h').
    + lia.
    + intros i Hi. specialize (Hfail (S i) ltac:(lia)).
      simpl in Hfail. rewrite E0 in Hfail. exact Hfail.
    + exact Hok.
Qed.

Lemma listing_gives_up page first_page last_page :
  forall depth h,
    (forall i, (i <= depth)%nat ->
       fst (visit_pages page (page_numbers first_page last_page) []
              (after_listings page (page_numbers first_page last_page) i h))
         = Raise TimeoutError) ->
    parse_tag_names_from_page depth page first_page last_page h
      = (Raise RecursionError,
         after_listings page (page_numbers first_page last_page) (S depth) h).
Proof.
  induction depth as [|depth IH]; intros h Hfail; rewrite parse_tag_names_eq;
    pose proof (Hfail O ltac:(lia)) as H0; simpl in H0;
    destruct (visit_pages page (page_numbers first_page last_page) [] h)
      as [r0 h1] eqn:E0;
    simpl in H0; subst r0; cbn [call].
  - simpl. rewrite E0. reflexivity.
  - change (after_listings page (page_numbers first_page last_page)
              (S (S depth)) h)
      with (after_listings page (page_numbers first_page last_page) (S depth)
              (snd (visit_pages page (page_numbers first_page last_page) [] h))).
    rewrite E0. cbn [snd]. apply IH.
    intros i Hi. specialize (Hfail (S i) ltac:(lia)).
    simpl in Hfail. rewrite E0 in Hfail. exact Hfail.
Qed.

(** X18. A timeout while the tag list is read starts the reading over from
    the first page with no name kept, by a call one frame further down: the
    caller never sees [TimeoutError], and the names returned are those of
    the first attempt that got through all pages, not more, as long as a
    frame is left for each retry; when every attempt the frames allow has
    timed out, the call ends in [RecursionError].  A link without [href] is
    another matter: the page raises [AttributeError], which is not
    retried. *)
Theorem tag_listing_starts_over_on_timeout :
  forall page first_page last_page h depth,
    fst (parse_tag_names_from_page depth page first_page last_page h)
      <> Raise TimeoutError
    /\ (forall k names h',
          (k <= depth)%nat ->
          (forall i, (i < k)%nat ->
             fst (visit_pages page (page_numbers first_page last_page) []
                    (after_listings page (page_numbers first_page last_page) i h))
               = Raise TimeoutError) ->
          visit_pages page (page_numbers first_page last_page) []
            (after_listings page (page_numbers first_page last_page) k h)
            = (Ret names, h') ->
          parse_tag_names_from_page depth page first_page last_page h
            = (Ret names, h'))
    /\ ((forall i, (i <= depth)%nat ->
           fst (visit_pages page (page_numbers first_page last_page) []
                  (after_listings page (page_numbers first_page last_page) i h))
             = Raise TimeoutError) ->
        parse_tag_names_from_page depth page first_page last_page h
          = (Raise RecursionError,
             after_listings page (page_numbers first_page last_page)
               (S depth) h))
    /\ (forall links,
          first_page <= last_page ->
          page h (tags_url first_page) = TagLinks links ->
          Exists (fun l => fst l = None) links ->
          parse_tag_names_from_page depth page first_page last_page h
            = (Raise AttributeError, tags_url first_page :: h)).
Proof.
  intros page first_page last_page h depth. split; [|split; [|split]].
  - apply listing_never_times_out.
  - intros k names h'. apply listing_retries.
  - apply listing_gives_up.
  - intros links Hle Hpage Hex. rewrite parse_tag_names_eq.
    unfold page_numbers.
    destruct (Z.to_nat (last_page + 1 - first_page)) as [|n] eqn:En; [lia|].
    cbn [seq map visit_pages]. rewrite Z.add_0_r, Hpage.
    rewrite (collect_links_without_href _ _ Hex). reflexivity.
Qed.

Lemma tag_listing_starts_over_witness :
  parse_tag_names_from_page 1 slow_tags_client 1 2 []
    = (Ret ["anthro"; "fox"], [tags_url 2; tags_url 1; tags_url 1])
  /\ parse_tag_names_from_page 0 slow_tags_client 1 2 []
     = (Raise RecursionError, [tags_url 1]).
Proof.
  split.
  - apply (proj1 (proj2 (tag_listing_starts_over_on_timeout
                           slow_tags_client 1 2 [] 1)) 1%nat).
    + lia.
    + intros i Hi. destruct i as [|i]; [reflexivity | lia].
    + reflexivity.
  - apply (proj1 (proj2 (proj2 (tag_listing_starts_over_on_timeout
                                  slow_tags_client 1 2 [] 0)))).
    intros i Hi. destruct i as [|i]; [reflexivity | lia].
Defined.

(** A thousand timeouts: the listing that would be answered next is not
    asked for. *)
Example listing_ends_with_the_stack :
  fst (parse_tag_names_from_page 999 late_tags_client 1 1 [])
    = Raise RecursionError
  /\ List.length (snd (parse_tag_names_from_page 999 late_tags_client 1 1 []))
     = 1000%nat
  /\ late_tags_client
       (snd (parse_tag_names_from_page 999 late_tags_client 1 1 [])) (tags_url 1)
     = TagLinks [(Some "/posts?tags=fox", "fox")].
Proof. repeat split; vm_compute; reflexivity. Qed.

(** ** A run that stops midway *)

Lemma for_each_query_app depth fuel page output_to_file :
  forall done todo w w1,
    for_each_query depth fuel page done output_to_file w = (Ret tt, w1) ->
    for_each_query depth fuel page (done ++ todo) output_to_file w
      = for_each_query depth fuel page todo output_to_file w1.
Proof.
  induction done as [|tags done IH]; intros todo w w1 Hdone; simpl in *.
  - inversion Hdone; subst. reflexivity.
  - destruct (call depth
                (fun d => print_post_total d fuel page tags output_to_file) w)
      as [[[]| e |] w'] eqn:Hone; try discriminate.
    apply IH. exact Hdone.
Qed.

(** X19. The tags are taken in the order given, and the first one whose
    counting or storing does not complete ends the run with its outcome: the
    tags before it have been stored, the tags after it are not looked at. *)
Theorem run_stops_at_the_first_failure :
  forall depth fuel page output_to_file done tags todo w w1 r w2,
    for_each_query (S depth) fuel page done output_to_file w = (Ret tt, w1) ->
    print_post_total depth fuel page tags output_to_file w1 = (r, w2) ->
    r <> Ret tt ->
    for_each_query (S depth) fuel page (done ++ tags :: todo) output_to_file w
      = (r, w2).
Proof.
  intros depth fuel page output_to_file done tags todo w w1 r w2 Hdone Hone Hr.
  rewrite (for_each_query_app _ _ _ _ _ _ _ _ Hdone). simpl. rewrite Hone.
  destruct r as [[]| e |]; [contradiction | reflexivity | reflexivity].
Qed.

Lemma run_stops_witness :
  for_each_query 3 0 empty_client (["cat"] ++ "owl" :: ["fox"]) true
    (fresh, Some drifted_table)
    = (Raise ValueError,
       snd (print_post_total 2 0 empty_client "cat" true
              (fresh, Some drifted_table))).
Proof.
  apply (run_stops_at_the_first_failure 2 0 empty_client true [] "cat"
           ["owl"; "fox"]
           (fresh, Some drifted_table) (fresh, Some drifted_table)).
  - reflexivity.
  - vm_compute. reflexivity.
  - discriminate.
Defined.
